(** * cyverse/irods-adm: the data-usage report and the trash-timestamp tool

    A shallow embedding of [data-usage-report/main.py] and
    [ensure_trash_ts.py].

    The report is a chain of SQL statements run against the iRODS catalog
    (ICAT) in one PostgreSQL transaction.  Catalog tables are lists of
    records (a list is a bag of rows, as SQL has it), each temporary table
    the program fills is the function computing its rows, and each SQL
    operator the statements use is given its PostgreSQL meaning.  Columns
    the statements read are taken to be non-null. *)

From Stdlib Require Import ZArith List String Ascii Bool Lia DecimalString.
From Stdlib Require Import DecimalZ.
Import ListNotations.

Open Scope string_scope.
Open Scope Z_scope.

(* ================================================================== *)
(** * Part I: the program *)
(* ================================================================== *)

(** ** What a call can end in *)

(** The PostgreSQL conditions the statements of the program can meet. *)
Inductive sqlstate : Type :=
| syntax_error                        (* 42601 *)
| undefined_column (name : string)    (* 42703 *)
| cardinality_violation.              (* 21000: a scalar subquery gave several rows *)

(** The Python exceptions that reach the caller. *)
Inductive exn : Type :=
| ProgrammingError (code : sqlstate)  (* sqlalchemy.exc.ProgrammingError *)
| StatementError                      (* sqlalchemy.exc.StatementError:
                                         a value is required for a bind parameter *)
| TypeError.                          (* 'NoneType' object is not subscriptable *)

Definition exn_class (e : exn) : string :=
  match e with
  | ProgrammingError _ => "ProgrammingError"
  | StatementError => "StatementError"
  | TypeError => "TypeError"
  end.

(** [Uninterpreted]: the statement text, after interpolation, is SQL
    outside the fragment given a meaning here.  [OutOfFuel]: the
    recursive query was cut off by the iteration bound of the model. *)
Inductive outcome (A : Type) : Type :=
| Done (a : A)
| Raised (e : exn)
| Uninterpreted
| OutOfFuel.

Arguments Done {A} a.
Arguments Raised {A} e.
Arguments Uninterpreted {A}.
Arguments OutOfFuel {A}.

Definition bind {A B : Type} (m : outcome A) (k : A -> outcome B) : outcome B :=
  match m with
  | Done a => k a
  | Raised e => Raised e
  | Uninterpreted => Uninterpreted
  | OutOfFuel => OutOfFuel
  end.

Notation "x <- m ;; k" := (bind m (fun x => k))
  (at level 61, m at next level, right associativity).

(** ** Text: f-strings, [sqlalchemy.text] and SQL string constants *)

Module Text.

Definition quote : ascii := "'"%char.
Definition colon : ascii := ":"%char.
Definition backslash : ascii := "\"%char.
Definition slash : ascii := "/"%char.

(** The character [c] occurs in [s]. *)
Fixpoint contains (c : ascii) (s : string) : bool :=
  match s with
  | String c' rest => Ascii.eqb c' c || contains c rest
  | EmptyString => false
  end.

(** A name with no quote and no colon in it. *)
Definition plain (n : string) : Prop :=
  contains quote n = false /\ contains colon n = false.

(** [\w] of Python's [re] on ASCII text. *)
Definition is_word (c : ascii) : bool :=
  let n := nat_of_ascii c in
  (((48 <=? n) && (n <=? 57)) || ((65 <=? n) && (n <=? 90))
   || ((97 <=? n) && (n <=? 122)) || (n =? 95))%nat.

(** [sqlalchemy.text(s)] reads every match of
    [(?<![:\w\x5c]):(\w+)(?!:)] in [s] as a bind parameter, inside SQL
    string constants too.  [guards prev]: the look-behind fails. *)
Definition guards (prev : option ascii) : bool :=
  match prev with
  | None => false
  | Some p => is_word p || Ascii.eqb p colon || Ascii.eqb p backslash
  end.

(** [(\w+)(?!:)] matches at the head of [s]: a word character whose
    successor is not a colon (a longer run of word characters can always
    be cut back to its first one).  This is the pattern [text()] applies
    when it is built; the statement is compiled with a stricter one, and
    a backslash before a colon is taken out, so the two differ on names
    that hold a colon. *)
Definition name_follows (s : string) : bool :=
  match s with
  | String c1 rest =>
      is_word c1 &&
      match rest with
      | String c2 _ => negb (Ascii.eqb c2 colon)
      | EmptyString => true
      end
  | EmptyString => false
  end.

Fixpoint bind_param_from (prev : option ascii) (s : string) : bool :=
  match s with
  | EmptyString => false
  | String c rest =>
      (Ascii.eqb c colon && negb (guards prev) && name_follows rest)
      || bind_param_from (Some c) rest
  end.

Definition has_bind_param (s : string) : bool := bind_param_from None s.

Definition is_blank (c : ascii) : bool := Ascii.eqb c " "%char.

Fixpoint skip_blanks (s : string) : string :=
  match s with
  | String c rest => if is_blank c then skip_blanks rest else s
  | EmptyString => s
  end.

(** A string constant of SQL whose opening quote has been read
    (standard-conforming strings: a doubled quote stands for one quote, a
    backslash for itself): its value and the text after its closing
    quote. *)
Fixpoint string_constant (s : string) : option (string * string) :=
  match s with
  | EmptyString => None
  | String c rest =>
      if Ascii.eqb c quote then
        match rest with
        | String c' rest' =>
            if Ascii.eqb c' quote then
              match string_constant rest' with
              | Some (v, r) => Some (String quote v, r)
              | None => None
              end
            else Some (EmptyString, rest)
        | EmptyString => Some (EmptyString, EmptyString)
        end
      else
        match string_constant rest with
        | Some (v, r) => Some (String c v, r)
        | None => None
        end
  end.

(** A comma-separated list of string constants, blanks allowed around
    them; [None] for any other text. *)
Fixpoint constant_list (fuel : nat) (s : string) : option (list string) :=
  match fuel with
  | O => None
  | S k =>
      match skip_blanks s with
      | String c body =>
          if Ascii.eqb c quote then
            match string_constant body with
            | Some (v, rest) =>
                match skip_blanks rest with
                | EmptyString => Some [v]
                | String c' rest' =>
                    if Ascii.eqb c' ","%char then
                      match constant_list k rest' with
                      | Some vs => Some (v :: vs)
                      | None => None
                      end
                    else None
                end
            | None => None
            end
          else None
      | EmptyString => None
      end
  end.

(** What stands between the parentheses of [x IN (...)]. *)
Inductive in_list : Type :=
| InValues (vs : list string)   (* string constants: [x] is compared with each *)
| InEmpty                       (* nothing: PostgreSQL rejects [IN ()] *)
| InOther.                      (* other SQL *)

Definition parse_in_list (s : string) : in_list :=
  match skip_blanks s with
  | EmptyString => InEmpty
  | String _ _ =>
      match constant_list (S (String.length s)) s with
      | Some vs => InValues vs
      | None => InOther
      end
  end.

(** [bigint::TEXT]. *)
Definition text_of_bigint (z : Z) : string := NilZero.string_of_int (Z.to_int z).

(** The prefix [pat] of a LIKE, SIMILAR TO or regular-expression pattern
    matched at the head of [s], where [pat] holds no operator but the
    one-character wildcard [any] ([_] in LIKE and SIMILAR TO, [.] in a
    regular expression): the rest of [s].  The wildcard takes one byte
    here, which is one character of ASCII text; PostgreSQL takes one
    character, of several bytes in other text. *)
Fixpoint match_head (any : ascii) (pat s : string) : option string :=
  match pat with
  | EmptyString => Some s
  | String p pat' =>
      match s with
      | EmptyString => None
      | String c s' =>
          if Ascii.eqb p any || Ascii.eqb p c then match_head any pat' s' else None
      end
  end.

(** The longest prefix without a slash: what [[^/]+] takes. *)
Fixpoint segment (s : string) : string :=
  match s with
  | String c rest => if Ascii.eqb c slash then EmptyString else String c (segment rest)
  | EmptyString => EmptyString
  end.

End Text.

(** ** The catalog *)

(** Modelled from the spec: the ICAT tables the statements read are not
    declared in the repository; each is given the columns the statements
    name (spec, section 6: resource, collection, data-object and
    access-control records), with [r_zone_main] and [r_user_main] as
    [get_local_zone] and [create_pub_obj_table] read them.
    [r_data_main] holds one row per stored copy of a data object, which
    is why a row has a [resc_id]. *)

Module Zone.
Record t : Type := mk { zone_name : string; zone_type_name : string }.
End Zone.

Module Resc.
Record t : Type :=
  mk { resc_id : Z; resc_name : string; resc_parent : string; resc_net : string }.
End Resc.

Module Coll.
Record t : Type := mk { coll_id : Z; coll_name : string; coll_owner_name : string }.
End Coll.

Module Data.
Record t : Type := mk { data_id : Z; coll_id : Z; data_size : Z; resc_id : Z }.
End Data.

Module Access.
Record t : Type := mk { object_id : Z; user_id : Z }.
End Access.

Module User.
Record t : Type := mk { user_id : Z; user_name : string }.
End User.

Record catalog : Type :=
  { r_zone_main : list Zone.t;
    r_resc_main : list Resc.t;
    r_coll_main : list Coll.t;
    r_data_main : list Data.t;
    r_objt_access : list Access.t;
    r_user_main : list User.t }.

(** Membership of a bigint in a one-column table: [x IN (SELECT id FROM t)]. *)
Definition in_table (x : Z) (t : list Z) : bool := existsb (Z.eqb x) t.

(** ** [get_local_zone] *)

(** [fetchone()] gives the first row or [None]; [result[0]] on [None]
    raises. *)
Definition get_local_zone (cat : catalog) : outcome string :=
  match filter (fun z => Zone.zone_type_name z =? "local")%string (r_zone_main cat) with
  | z :: _ => Done (Zone.zone_name z)
  | [] => Raised TypeError
  end.

(** ** [create_store_resc_table] *)

Module Resolver.

(** A row of [resc_hier(resc_id, resc_net)]. *)
Definition hier_row : Type := (Z * string)%type.

Definition hier_row_dec : forall x y : hier_row, {x = y} + {x <> y}.
Proof. decide equality; [apply string_dec | apply Z.eq_dec]. Defined.

Definition row_of (m : Resc.t) : hier_row := (Resc.resc_id m, Resc.resc_net m).

Definition EMPTY_RESC_HOST : string := "EMPTY_RESC_HOST".

Section Hierarchy.

Variable resc : list Resc.t.

(** [SELECT resc_id, resc_net FROM r_resc_main WHERE resc_name IN (...)] *)
Definition seed (names : list string) : list hier_row :=
  map row_of
    (filter (fun m => existsb (String.eqb (Resc.resc_name m)) names) resc).

(** [SELECT m.resc_id, m.resc_net FROM resc_hier AS h JOIN r_resc_main AS m
     ON m.resc_parent = h.resc_id::TEXT WHERE h.resc_net = 'EMPTY_RESC_HOST'],
    for one row [h]. *)
Definition children (h : hier_row) : list hier_row :=
  if (snd h =? EMPTY_RESC_HOST)%string then
    map row_of
      (filter (fun m => (Resc.resc_parent m =? Text.text_of_bigint (fst h))%string) resc)
  else [].

Definition recursive_term (working : list hier_row) : list hier_row :=
  flat_map children working.

Definition unseen (result : list hier_row) (h : hier_row) : bool :=
  if in_dec hier_row_dec h result then false else true.

(** WITH RECURSIVE ... UNION: while the working table is not empty, the
    recursive term is evaluated on it, rows that repeat one another or a
    row of the result are dropped, and what is left is added to the result
    and becomes the working table. *)
Fixpoint iterate (fuel : nat) (result working : list hier_row)
  {struct fuel} : option (list hier_row) :=
  match working with
  | [] => Some result
  | _ :: _ =>
      match fuel with
      | O => None
      | S k =>
          let fresh :=
            nodup hier_row_dec (filter (unseen result) (recursive_term working)) in
          iterate k (result ++ fresh) fresh
      end
  end.

(** Every row of [result] but those of [working] has its children in
    [result]: what holds of the two tables between two rounds. *)
Definition closed_but (result working : list hier_row) : Prop :=
  forall h, In h result -> ~ In h working -> incl (children h) result.

Definition resc_hier (fuel : nat) (names : list string) : option (list hier_row) :=
  let start := nodup hier_row_dec (seed names) in
  iterate fuel start start.

End Hierarchy.

(** [", ".join(f"'{r}'" for r in root_resources)] *)
Definition resources_str (root_resources : list string) : string :=
  String.concat ", " (map (fun r => "'" ++ r ++ "'")%string root_resources).

(** The statement handed to [text], line breaks written as blanks. *)
Definition recursive_query (resources_str : string) : string :=
  ("WITH RECURSIVE resc_hier(resc_id, resc_net) AS ( "
   ++ "SELECT resc_id, resc_net FROM r_resc_main WHERE resc_name IN ("
   ++ resources_str
   ++ ") UNION SELECT m.resc_id, m.resc_net "
   ++ "FROM resc_hier AS h JOIN r_resc_main AS m ON m.resc_parent = h.resc_id::TEXT "
   ++ "WHERE h.resc_net = 'EMPTY_RESC_HOST' ) "
   ++ "INSERT INTO store_resc (id) SELECT resc_id FROM resc_hier")%string.

(** Iterations granted to the recursive query. *)
Definition fuel_for (cat : catalog) : nat := S (List.length (r_resc_main cat)).

End Resolver.

(** The rows of [store_resc (id)]. *)
Definition create_store_resc_table (cat : catalog) (root_resources : list string)
  : outcome (list Z) :=
  let resources_str := Resolver.resources_str root_resources in
  if Text.has_bind_param (Resolver.recursive_query resources_str) then
    Raised StatementError
  else
    match Text.parse_in_list resources_str with
    | Text.InEmpty => Raised (ProgrammingError syntax_error)
    | Text.InOther => Uninterpreted
    | Text.InValues names =>
        match Resolver.resc_hier (r_resc_main cat) (Resolver.fuel_for cat) names with
        | Some hier => Done (map fst hier)
        | None => OutOfFuel
        end
    end.

(** ** [create_proj_coll_table] *)

Module ProjColl.
(** [Table("proj_coll", metadata, Column("proj", String),
    Column("coll_id", BigInteger))] *)
Record t : Type := mk { proj : string; coll_id : Z }.
End ProjColl.

Module Classifier.

(** Zone names are iRODS zone names: letters, digits, [_], [.] and [-].
    Of these [_] is the one-character wildcard of LIKE and SIMILAR TO and
    [.] that of a regular expression; none is an operator of another
    kind, a quote or a colon. *)
Definition zone_char (c : ascii) : bool :=
  Text.is_word c || Ascii.eqb c "."%char || Ascii.eqb c "-"%char.

Fixpoint zone_ok (zone : string) : bool :=
  match zone with
  | String c rest => zone_char c && zone_ok rest
  | EmptyString => true
  end.

Definition shared_root (zone : string) : string :=
  ("/" ++ zone ++ "/home/shared")%string.

(** [coll_name LIKE '/{zone}/home/shared/%'] *)
Definition like_shared (zone coll_name : string) : bool :=
  match Text.match_head "_" (shared_root zone ++ "/") coll_name with
  | Some _ => true
  | None => false
  end.

(** [coll_name SIMILAR TO '/{zone}/home/shared/commons_repo(/%)?'] *)
Definition similar_to_commons_repo (zone coll_name : string) : bool :=
  match Text.match_head "_" (shared_root zone ++ "/commons_repo") coll_name with
  | Some EmptyString => true
  | Some (String c _) => Ascii.eqb c Text.slash
  | None => false
  end.

(** The regular expression [/{zone}/home/shared/([^/]+).*] matched at the
    head of [s]: the text of its group. *)
Definition match_here (zone s : string) : option string :=
  match Text.match_head "." (shared_root zone ++ "/") s with
  | Some rest =>
      match Text.segment rest with
      | EmptyString => None
      | String c seg => Some (String c seg)
      end
  | None => None
  end.

(** [REGEXP_REPLACE(s, '/{zone}/home/shared/([^/]+).*', E'\\1')]: the
    leftmost match, which runs to the end of [s], is replaced by its
    group; without a match [s] is returned. *)
Fixpoint regexp_replace (zone s : string) : string :=
  match match_here zone s with
  | Some seg => seg
  | None =>
      match s with
      | String c rest => String c (regexp_replace zone rest)
      | EmptyString => EmptyString
      end
  end.

(** The WHERE clause of the insert. *)
Definition selected (zone : string) (c : Coll.t) : bool :=
  like_shared zone (Coll.coll_name c)
  && negb (similar_to_commons_repo zone (Coll.coll_name c)).

(** Its SELECT list. *)
Definition row_of (zone : string) (c : Coll.t) : ProjColl.t :=
  ProjColl.mk (regexp_replace zone (Coll.coll_name c)) (Coll.coll_id c).

End Classifier.

(** The rows of [proj_coll (proj, coll_id)]. *)
Definition create_proj_coll_table (cat : catalog) (zone : string)
  : outcome (list ProjColl.t) :=
  if Classifier.zone_ok zone then
    Done (map (Classifier.row_of zone) (filter (Classifier.selected zone) (r_coll_main cat)))
  else Uninterpreted.

(** ** [create_proj_data_table] *)

Module ProjData.
Record t : Type := mk { proj : string; coll_id : Z; data_id : Z; data_size : Z }.
End ProjData.

(** [SELECT c.proj, c.coll_id, d.data_id, d.data_size
     FROM proj_coll AS c JOIN r_data_main AS d ON d.coll_id = c.coll_id
     WHERE d.resc_id IN (SELECT id FROM store_resc)] *)
Definition create_proj_data_table (cat : catalog) (proj_coll : list ProjColl.t)
  (store_resc : list Z) : list ProjData.t :=
  flat_map
    (fun c =>
       map (fun d => ProjData.mk (ProjColl.proj c) (ProjColl.coll_id c)
                       (Data.data_id d) (Data.data_size d))
         (filter (fun d => (Data.coll_id d =? ProjColl.coll_id c)
                           && in_table (Data.resc_id d) store_resc)
            (r_data_main cat)))
    proj_coll.

(** ** [create_pub_obj_table] *)

(** A subquery used as a value: no row is NULL, several rows are an
    error. *)
Definition scalar_subquery {A : Type} (rows : list A) : outcome (option A) :=
  match rows with
  | [] => Done None
  | [x] => Done (Some x)
  | _ :: _ :: _ => Raised (ProgrammingError cardinality_violation)
  end.

(** [SELECT object_id FROM r_objt_access
     WHERE user_id = (SELECT user_id FROM r_user_main WHERE user_name = 'public')] *)
Definition create_pub_obj_table (cat : catalog) : outcome (list Z) :=
  public <- scalar_subquery
              (map User.user_id
                 (filter (fun u => (User.user_name u =? "public")%string) (r_user_main cat))) ;;
  Done match public with
       | Some uid =>
           map Access.object_id
             (filter (fun a => Access.user_id a =? uid) (r_objt_access cat))
       | None => []
       end.

(** ** [create_pub_proj_data_table] *)

Module PubProjData.
Record t : Type := mk { proj : string; data_id : Z; data_size : Z }.
End PubProjData.

(** [WHERE coll_id IN (SELECT id FROM pub_obj) AND data_id IN (SELECT id FROM pub_obj)] *)
Definition both_public (pub_obj : list Z) (r : ProjData.t) : bool :=
  in_table (ProjData.coll_id r) pub_obj && in_table (ProjData.data_id r) pub_obj.

Definition create_pub_proj_data_table (proj_data : list ProjData.t) (pub_obj : list Z)
  : list PubProjData.t :=
  map (fun r => PubProjData.mk (ProjData.proj r) (ProjData.data_id r) (ProjData.data_size r))
    (filter (both_public pub_obj) proj_data).

(** ** The final query of [gen_report] *)

Module Sql.

(** [l LEFT JOIN r ON on]: a row of [l] without a partner is kept once,
    with NULLs for [r]. *)
Definition left_join {A B : Type} (on : A -> B -> bool) (l : list A) (r : list B)
  : list (A * option B) :=
  flat_map
    (fun a =>
       match filter (on a) r with
       | [] => [(a, None)]
       | b :: bs => map (fun b' => (a, Some b')) (b :: bs)
       end)
    l.

(** [SUM]: NULL inputs are skipped, and the sum of no input is NULL. *)
Fixpoint sum (xs : list (option Z)) : option Z :=
  match xs with
  | [] => None
  | None :: rest => sum rest
  | Some x :: rest =>
      match sum rest with
      | Some s => Some (x + s)
      | None => Some x
      end
  end.

(** [SUM] of a column without NULLs over a group, which has a row. *)
Definition total (xs : list Z) : Z := fold_right Z.add 0 xs.

Definition coalesce (x : option Z) (default : Z) : Z :=
  match x with
  | Some v => v
  | None => default
  end.

(** [MAX] on text, by byte order (the C collation). *)
Fixpoint max (xs : list (option string)) : option string :=
  match xs with
  | [] => None
  | None :: rest => max rest
  | Some x :: rest =>
      match max rest with
      | Some m => Some (if (x <=? m)%string then m else x)
      | None => Some x
      end
  end.

Fixpoint insert (x : string) (l : list string) : list string :=
  match l with
  | [] => [x]
  | y :: rest => if (x <=? y)%string then x :: l else y :: insert x rest
  end.

(** Ascending byte order, as ORDER BY and DISTINCT put text under the C
    collation; the query names no collation, and PostgreSQL follows that
    of the database. *)
Definition sort (l : list string) : list string := fold_right insert [] l.

(** The values of GROUP BY on a text column. *)
Definition group_keys (l : list string) : list string := nodup string_dec l.

(** [STRING_AGG(DISTINCT x, sep) FILTER (WHERE x IS NOT NULL)] *)
Definition string_agg_distinct (sep : string) (xs : list (option string)) : option string :=
  match sort (nodup string_dec (flat_map (fun x => match x with Some s => [s] | None => [] end) xs)) with
  | [] => None
  | s :: rest => Some (String.concat sep (s :: rest))
  end.

(** [ROUND((v / 2^30)::NUMERIC, 3)], as a count of thousandths: the
    nearest one, a tie going away from zero, as ROUND on NUMERIC has it.
    The arithmetic is exact here.  PostgreSQL forms the quotient in
    double precision, where a byte count below 2^53 and its quotient by a
    power of two are exact, and the cast back to NUMERIC keeps 15
    significant digits; that cast can move the third decimal only for
    volumes of 10^4 GiB and more, which this model does not follow. *)
Definition round_gib (v : Z) : Z :=
  if 0 <=? v then (2 * (1000 * v) + 2 ^ 30) / (2 * 2 ^ 30)
  else - ((2 * (1000 * - v) + 2 ^ 30) / (2 * 2 ^ 30)).

End Sql.

Module Report.

(** A row of the report; the three volumes are NUMERICs of scale 3, held
    as their count of thousandths of a GiB. *)
Record t : Type :=
  mk { Total : Z; Public : Z; Private : Z;
       Project : string; Creator : option string; Owner : option string }.

(** A row of the subquery [pc]. *)
Record pc_row : Type :=
  mk_pc { pc_proj : string; pc_creator : option string; pc_owner : option string }.

(** A row of the subquery [t]. *)
Record t_row : Type :=
  mk_t { proj : string; tot_vol : Z; pub_vol : Z;
         creator : option string; owner : option string }.

Section Query.

(** The columns [creator] and [owner] of [proj_coll], as the query reads
    them. *)
Variables creator_of owner_of : ProjColl.t -> option string.

Variable proj_coll : list ProjColl.t.
Variable proj_data : list ProjData.t.
Variable pub_proj_data : list PubProjData.t.

(** [SELECT proj, STRING_AGG(DISTINCT creator, '; ') FILTER (WHERE creator IS NOT NULL),
            STRING_AGG(DISTINCT owner, '; ') FILTER (WHERE owner IS NOT NULL)
     FROM proj_coll GROUP BY proj] *)
Definition pc : list pc_row :=
  map (fun g =>
         let rows := filter (fun c => (ProjColl.proj c =? g)%string) proj_coll in
         mk_pc g (Sql.string_agg_distinct "; " (map creator_of rows))
                 (Sql.string_agg_distinct "; " (map owner_of rows)))
    (Sql.group_keys (map ProjColl.proj proj_coll)).

(** [proj_data AS a LEFT JOIN pub_proj_data AS p ON p.data_id = a.data_id
     LEFT JOIN pc ON pc.proj = a.proj] *)
Definition joined : list (ProjData.t * option PubProjData.t * option pc_row) :=
  Sql.left_join (fun ap c => (pc_proj c =? ProjData.proj (fst ap))%string)
    (Sql.left_join (fun a p => PubProjData.data_id p =? ProjData.data_id a)
       proj_data pub_proj_data)
    pc.

Definition a_of (j : ProjData.t * option PubProjData.t * option pc_row) : ProjData.t :=
  fst (fst j).
Definition p_of (j : ProjData.t * option PubProjData.t * option pc_row)
  : option PubProjData.t := snd (fst j).
Definition pc_of (j : ProjData.t * option PubProjData.t * option pc_row)
  : option pc_row := snd j.

(** The rows of [joined] that GROUP BY a.proj puts in the group [g]. *)
Definition group (g : string) : list (ProjData.t * option PubProjData.t * option pc_row) :=
  filter (fun j => (ProjData.proj (a_of j) =? g)%string) joined.

(** [SELECT a.proj, SUM(a.data_size), COALESCE(SUM(p.data_size), 0),
            MAX(pc.creator), MAX(pc.owner) ... GROUP BY a.proj] *)
Definition t_of (g : string) : t_row :=
  let rows := group g in
  mk_t g
    (Sql.total (map (fun j => ProjData.data_size (a_of j)) rows))
    (Sql.coalesce (Sql.sum (map (fun j => option_map PubProjData.data_size (p_of j)) rows)) 0)
    (Sql.max (map (fun j => match pc_of j with Some c => pc_creator c | None => None end) rows))
    (Sql.max (map (fun j => match pc_of j with Some c => pc_owner c | None => None end) rows)).

(** The outer SELECT list. *)
Definition row_of (r : t_row) : t :=
  mk (Sql.round_gib (tot_vol r)) (Sql.round_gib (pub_vol r))
     (Sql.round_gib (tot_vol r - pub_vol r))
     (proj r) (creator r) (owner r).

(** The whole query, ORDER BY proj. *)
Definition final_select : list t :=
  map (fun g => row_of (t_of g))
    (Sql.sort (Sql.group_keys (map (fun j => ProjData.proj (a_of j)) joined))).

End Query.

(** A text column of the temporary table [proj_coll] by its name.  The
    table is created with the columns [proj] and [coll_id], and the insert
    that runs fills these two; [coll_id] is a bigint. *)
Definition proj_coll_text_column (name : string)
  : outcome (ProjColl.t -> option string) :=
  if (name =? "proj")%string then Done (fun r => Some (ProjColl.proj r))
  else if (name =? "coll_id")%string then Uninterpreted
  else Raised (ProgrammingError (undefined_column name)).

(** [pd.read_sql_query(text(query), conn)]: PostgreSQL resolves the
    columns the query names, then runs it. *)
Definition final_query (proj_coll : list ProjColl.t) (proj_data : list ProjData.t)
  (pub_proj_data : list PubProjData.t) : outcome (list t) :=
  creator_of <- proj_coll_text_column "creator" ;;
  owner_of <- proj_coll_text_column "owner" ;;
  Done (final_select creator_of owner_of proj_coll proj_data pub_proj_data).

End Report.

(** ** [gen_report] *)

(** The temporary tables [proj_coll], [proj_data] and [pub_proj_data] as
    steps 1 to 5 of [gen_report] leave them. *)
Definition temp_tables (cat : catalog) (zone : string) (root_resources : list string)
  : outcome (list ProjColl.t * list ProjData.t * list PubProjData.t) :=
  store_resc <- create_store_resc_table cat root_resources ;;
  proj_coll <- create_proj_coll_table cat zone ;;
  let proj_data := create_proj_data_table cat proj_coll store_resc in
  pub_obj <- create_pub_obj_table cat ;;
  let pub_proj_data := create_pub_proj_data_table proj_data pub_obj in
  Done (proj_coll, proj_data, pub_proj_data).

(** Steps 1 to 5, then the final query of step 6. *)
Definition gen_report (cat : catalog) (zone : string) (root_resources : list string)
  : outcome (list Report.t) :=
  tables <- temp_tables cat zone root_resources ;;
  let '(proj_coll, proj_data, pub_proj_data) := tables in
  Report.final_query proj_coll proj_data pub_proj_data.

(** [main], from the zone lookup to the report. *)
Definition pipeline (cat : catalog) (root_resources : list string)
  : outcome (list Report.t) :=
  local_zone <- get_local_zone cat ;;
  gen_report cat local_zone root_resources.

(** ** [ensure_trash_ts.py] *)

Module Trash.

(** [irods.meta.iRODSMeta]: an attribute, its value and its units. *)
Record iRODSMeta : Type := mk { name : string; value : string; units : option string }.

(** A collection or a data object, as the tool uses it: its path and the
    AVUs attached to it in the catalog, behind [.metadata]. *)
Record entry : Type := mk_entry { path : string; metadata : list iRODSMeta }.

(** [.metadata.keys()] *)
Definition keys (md : list iRODSMeta) : list string := map name md.

(** [.metadata[key] = meta]: the AVUs named [key] are removed and [meta]
    is added. *)
Definition setitem (md : list iRODSMeta) (key : string) (meta : iRODSMeta)
  : list iRODSMeta :=
  filter (fun m => negb (name m =? key)%string) md ++ [meta].

Definition trash_timestamp : string := "ipc::trash_timestamp".

(** [iRODSMeta('ipc::trash_timestamp', "0" + str(int(epoch_time)))], with
    [now] for [int(time.time())]. *)
Definition trash_timestamp_meta (now : Z) : iRODSMeta :=
  mk trash_timestamp ("0" ++ Text.text_of_bigint now)%string None.

Definition add_avu (now : Z) (e : entry) : entry :=
  if existsb (String.eqb trash_timestamp) (keys (metadata e)) then e
  else
    let trash_timestamp_meta := trash_timestamp_meta now in
    mk_entry (path e) (setitem (metadata e) (name trash_timestamp_meta) trash_timestamp_meta).

(** The two functions have the same body, one on a collection and one on a
    data object. *)
Definition add_coll_avu (now : Z) (col : entry) : entry := add_avu now col.
Definition add_obj_avu (now : Z) (obj : entry) : entry := add_avu now obj.

End Trash.

(** ** Catalogs of the scenarios of the specification (section 8) *)

Module Scenario.

(** One root [resA] with the leaf [resA-leaf]; the collection
    [/zoneX/home/shared/proj1] of [alice] with one data object of 2^30
    bytes on the leaf; collection and object are public. *)
Definition cat : catalog :=
  {| r_zone_main := [Zone.mk "zoneX" "local"];
     r_resc_main := [Resc.mk 1 "resA" "" "EMPTY_RESC_HOST";
                     Resc.mk 2 "resA-leaf" "1" "leaf.example.org"];
     r_coll_main := [Coll.mk 10 "/zoneX/home/shared/proj1" "alice"];
     r_data_main := [Data.mk 100 10 (2 ^ 30) 2];
     r_objt_access := [Access.mk 10 5; Access.mk 100 5];
     r_user_main := [User.mk 5 "public"; User.mk 6 "alice"] |}.

(** The same, the data object without its public entry. *)
Definition cat_private_object : catalog :=
  {| r_zone_main := r_zone_main cat;
     r_resc_main := r_resc_main cat;
     r_coll_main := r_coll_main cat;
     r_data_main := r_data_main cat;
     r_objt_access := [Access.mk 10 5];
     r_user_main := r_user_main cat |}.

(** Two data objects of 536871 bytes in [proj1], one of them public. *)
Definition cat_halves : catalog :=
  {| r_zone_main := r_zone_main cat;
     r_resc_main := r_resc_main cat;
     r_coll_main := r_coll_main cat;
     r_data_main := [Data.mk 100 10 536871 2; Data.mk 101 10 536871 2];
     r_objt_access := [Access.mk 10 5; Access.mk 100 5];
     r_user_main := r_user_main cat |}.

(** The data object of [cat] with a second copy, on [resA]'s other leaf. *)
Definition cat_replicated : catalog :=
  {| r_zone_main := r_zone_main cat;
     r_resc_main := r_resc_main cat ++ [Resc.mk 3 "resA-leaf2" "1" "leaf2.example.org"];
     r_coll_main := r_coll_main cat;
     r_data_main := [Data.mk 100 10 (2 ^ 30) 2; Data.mk 100 10 (2 ^ 30) 3];
     r_objt_access := r_objt_access cat;
     r_user_main := r_user_main cat |}.

(** Collections next to [proj1]: the reserved one, one below it, and a
    project whose name differs from [commons_repo] in one character. *)
Definition cat_commons : catalog :=
  {| r_zone_main := r_zone_main cat;
     r_resc_main := r_resc_main cat;
     r_coll_main := r_coll_main cat
                    ++ [Coll.mk 11 "/zoneX/home/shared/commons_repo" "bob";
                        Coll.mk 12 "/zoneX/home/shared/commons_repo/x" "bob";
                        Coll.mk 13 "/zoneX/home/shared/commons-repo" "carol";
                        Coll.mk 14 "/zoneX/home/shared/commons-repo/data" "carol";
                        Coll.mk 15 "/zoneX/home/shared" "rods"];
     r_data_main := r_data_main cat ++ [Data.mk 101 12 7 2; Data.mk 102 14 9 2];
     r_objt_access := r_objt_access cat;
     r_user_main := r_user_main cat |}.

(** A resource whose name holds a quote, a comma and a blank. *)
Definition cat_quoted : catalog :=
  {| r_zone_main := r_zone_main cat;
     r_resc_main := r_resc_main cat ++ [Resc.mk 4 "resA', 'resB" "" "other.example.org"];
     r_coll_main := r_coll_main cat;
     r_data_main := r_data_main cat;
     r_objt_access := r_objt_access cat;
     r_user_main := r_user_main cat |}.

(** No accessor: what a column that held only NULLs would give. *)
Definition no_column (c : ProjColl.t) : option string := None.

End Scenario.

(** ** The vocabulary of the statements *)

Module Volume.

(** The rows of [pub_proj_data] the final query joins to the row [a] of
    [proj_data]. *)
Definition partners (pub_proj_data : list PubProjData.t) (a : ProjData.t)
  : list PubProjData.t :=
  filter (fun p => PubProjData.data_id p =? ProjData.data_id a) pub_proj_data.

(** What the row [a] adds to [tot_vol]: its size, once for each row the
    join makes of it. *)
Definition tot_of_row (pub_proj_data : list PubProjData.t) (a : ProjData.t) : Z :=
  match partners pub_proj_data a with
  | [] => ProjData.data_size a
  | _ :: _ => Z.of_nat (List.length (partners pub_proj_data a)) * ProjData.data_size a
  end.

(** What it adds to [pub_vol]: the sizes of its partners. *)
Definition pub_of_row (pub_proj_data : list PubProjData.t) (a : ProjData.t) : Z :=
  Sql.total (map PubProjData.data_size (partners pub_proj_data a)).

(** The rows of a project. *)
Definition of_project (g : string) (proj_data : list ProjData.t) : list ProjData.t :=
  filter (fun a => (ProjData.proj a =? g)%string) proj_data.

(** The rows of [r_data_main] for the data object [x] that lie on a
    resource of [store_resc], in a collection of [ids]. *)
Definition counted (store_resc : list Z) (x : Z) (ids : list Z) (d : Data.t) : bool :=
  (Data.data_id d =? x) && in_table (Data.resc_id d) store_resc
  && in_table (Data.coll_id d) ids.

(** The bytes of a project in rows that are not public. *)
Definition private_bytes (pub_obj : list Z) (proj_data : list ProjData.t) (g : string) : Z :=
  Sql.total (map (fun a => if both_public pub_obj a then 0 else ProjData.data_size a)
               (of_project g proj_data)).

End Volume.

(** ** ASCII text *)

Module Charset.

(** A byte that is a character of ASCII. *)
Definition seven_bit (c : ascii) : bool := (nat_of_ascii c <? 128)%nat.

(** A text in which every character is one byte. *)
Fixpoint ascii_only (s : string) : bool :=
  match s with
  | String c rest => seven_bit c && ascii_only rest
  | EmptyString => true
  end.

End Charset.

(** ** [ensure_trash_ts.py]: the walk over the trash *)

Module Walk.

Import Trash.

(** [irods.collection.iRODSCollection], as [add_trash_timestamp] reads it:
    [.name], the path and the AVUs ([self], what [add_coll_avu] is handed),
    [.subcollections] and [.data_objects]. *)
#[warnings="-register-all"]
Inductive collection : Type :=
  Collection (name : string) (self : entry)
    (subcollections : list collection) (data_objects : list entry).

Definition name (c : collection) : string :=
  let 'Collection n _ _ _ := c in n.
Definition self (c : collection) : entry :=
  let 'Collection _ e _ _ := c in e.
Definition subcollections (c : collection) : list collection :=
  let 'Collection _ _ cs _ := c in cs.
Definition data_objects (c : collection) : list entry :=
  let 'Collection _ _ _ os := c in os.

(** [sess.collections.get(path)]: the collection at [path], or
    [CollectionDoesNotExist]. *)
Definition session : Type := string -> option collection.

Definition has_timestamp (e : entry) : bool :=
  existsb (String.eqb trash_timestamp) (keys (metadata e)).

Section Clock.

(** [int(time.time())] at its n-th call. *)
Variable time : nat -> Z.

(** A computation that reads the clock: from the number of readings made
    so far to its value and the number made after it. *)
Definition clocked (A : Type) : Type := nat -> A * nat.

Definition ret {A : Type} (a : A) : clocked A := fun n => (a, n).

Definition bind {A B : Type} (m : clocked A) (k : A -> clocked B) : clocked B :=
  fun n => let (a, n') := m n in k a n'.

(** [for x in l: f(x)], with what each [x] has become. *)
Fixpoint for_each {A : Type} (f : A -> clocked A) (l : list A) : clocked (list A) :=
  match l with
  | [] => ret []
  | x :: rest => bind (f x) (fun x' => bind (for_each f rest) (fun rest' => ret (x' :: rest')))
  end.

(** A call of [add_coll_avu] or [add_obj_avu]: the clock is read inside
    the [if], when the AVU is missing. *)
Definition call (add_avu : Z -> entry -> entry) (e : entry) : clocked entry :=
  fun n => (add_avu (time n) e, if has_timestamp e then n else S n).

Definition on_collection (f : entry -> clocked entry) (c : collection)
  : clocked collection :=
  bind (f (self c)) (fun e => ret (Collection (name c) e (subcollections c) (data_objects c))).

(** The body of [for user_collections in coll_trash.subcollections]. *)
Definition in_user_collections (user_collections : collection) : clocked collection :=
  bind (for_each (on_collection (call add_coll_avu)) (subcollections user_collections))
    (fun colls =>
  bind (for_each (call add_obj_avu) (data_objects user_collections))
    (fun objs =>
  ret (Collection (name user_collections) (self user_collections) colls objs))).

(** The body of [for coll_trash in coll_in_trash.subcollections]. *)
Definition in_trash (coll_trash : collection) : clocked collection :=
  if (name coll_trash =? "home")%string then
    bind (for_each in_user_collections (subcollections coll_trash))
      (fun users =>
    ret (Collection (name coll_trash) (self coll_trash) users (data_objects coll_trash)))
  else on_collection (call add_coll_avu) coll_trash.

Definition walk (coll_in_trash : collection) : clocked collection :=
  bind (for_each in_trash (subcollections coll_in_trash))
    (fun colls =>
  ret (Collection (name coll_in_trash) (self coll_in_trash) colls (data_objects coll_in_trash))).

(** The collection at [trash_path] as the call leaves it; [None] when
    there is none, after which the function returns. *)
Definition add_trash_timestamp (sess : session) (trash_path : string)
  : clocked (option collection) :=
  match sess trash_path with
  | None => ret None
  | Some coll_in_trash => bind (walk coll_in_trash) (fun t => ret (Some t))
  end.

(** [main]: [environ] is [os.environ], [argv] is [sys.argv], and
    [iRODSSession env] the session that [with iRODSSession(irods_env_file=env)]
    opens.  The first component of the value lists the environment files
    of the sessions the call has opened. *)
Definition main (environ : string -> option string) (expanduser : string -> string)
  (iRODSSession : string -> session) (argv : list string)
  : clocked (list string * option collection) :=
  let env :=
    match environ "IRODS_ENVIRONMENT_FILE" with
    | Some file => expanduser file
    | None => expanduser "~/.irods/irods_environment.json"
    end in
  match argv with
  | _ :: zone :: _ =>
      bind (add_trash_timestamp (iRODSSession env) ("/" ++ zone ++ "/trash"))
        (fun t => ret ([env], t))
  | _ => ret ([], None)
  end.

End Clock.

(** What a call may do to an entry: nothing, or add the AVU of some
    reading of the clock after the AVUs it has, when it has none named
    [ipc::trash_timestamp]. *)
Definition stamped (e e' : entry) : Prop :=
  e' = e
  \/ (has_timestamp e = false
      /\ exists now, e' = mk_entry (path e) (metadata e ++ [trash_timestamp_meta now])).

(** The same collection, but for the AVUs of its own entry. *)
Definition stamped_collection (c c' : collection) : Prop :=
  name c' = name c /\ stamped (self c) (self c')
  /\ subcollections c' = subcollections c /\ data_objects c' = data_objects c.

(** What the walk may do to a user's collection under [home]: stamp the
    collections and the data objects directly in it. *)
Definition user_walked (u u' : collection) : Prop :=
  name u' = name u /\ self u' = self u
  /\ Forall2 stamped_collection (subcollections u) (subcollections u')
  /\ Forall2 stamped (data_objects u) (data_objects u').

(** What it may do to a collection directly in the trash. *)
Definition trash_walked (c c' : collection) : Prop :=
  if (name c =? "home")%string then
    name c' = name c /\ self c' = self c /\ data_objects c' = data_objects c
    /\ Forall2 user_walked (subcollections c) (subcollections c')
  else stamped_collection c c'.

(** The entries the walk is to stamp, below a collection directly in the
    trash. *)
Definition targets (c : collection) : list entry :=
  if (name c =? "home")%string then
    flat_map (fun u => (map self (subcollections u) ++ data_objects u)%list) (subcollections c)
  else [self c].

End Walk.

(** A trash to walk: [home] with the collection of [alice], which holds
    a collection [old] (with a data object in it) and a data object
    [notes.txt]; and [orphan], with a data object in it, stamped by an
    earlier run. *)
Module TrashScenario.

Import Trash Walk.

Definition clock (n : nat) : Z := 1700000000 + Z.of_nat n.

Definition earlier : iRODSMeta := mk "ipc::trash_timestamp" "01600000000" None.

Definition old : collection :=
  Collection "old" (mk_entry "/zoneX/trash/home/alice/old" [])
    [] [mk_entry "/zoneX/trash/home/alice/old/a.dat" []].

Definition alice : collection :=
  Collection "alice" (mk_entry "/zoneX/trash/home/alice" [])
    [old] [mk_entry "/zoneX/trash/home/alice/notes.txt" [mk "colour" "red" None]].

Definition orphan : collection :=
  Collection "orphan" (mk_entry "/zoneX/trash/orphan" [earlier])
    [] [mk_entry "/zoneX/trash/orphan/b.dat" []].

Definition trash : collection :=
  Collection "trash" (mk_entry "/zoneX/trash" [])
    [Collection "home" (mk_entry "/zoneX/trash/home" []) [alice] []; orphan] [].

Definition sess (p : string) : option collection :=
  if (p =? "/zoneX/trash")%string then Some trash else None.

(** The same trash after a walk that starts at the first reading of the
    clock. *)
Definition trash_after : collection :=
  Collection "trash" (mk_entry "/zoneX/trash" [])
    [Collection "home" (mk_entry "/zoneX/trash/home" [])
       [Collection "alice" (mk_entry "/zoneX/trash/home/alice" [])
          [Collection "old"
             (mk_entry "/zoneX/trash/home/alice/old"
                [mk "ipc::trash_timestamp" "01700000000" None])
             [] [mk_entry "/zoneX/trash/home/alice/old/a.dat" []]]
          [mk_entry "/zoneX/trash/home/alice/notes.txt"
             [mk "colour" "red" None; mk "ipc::trash_timestamp" "01700000001" None]]]
       [];
     orphan] [].

Definition sess_after (p : string) : option collection :=
  if (p =? "/zoneX/trash")%string then Some trash_after else None.

End TrashScenario.

(** ** Python around the queries *)

Module Py.

(** The exceptions the code around the queries can raise or catch. *)
Inductive exception : Type :=
| IndexError          (* list index out of range *)
| ValueError          (* a text that cannot be converted *)
| OverflowError       (* timedelta: days out of range *)
| AttributeError      (* an object without the attribute asked for *)
| Database (e : exn)  (* what [get_local_zone] and [gen_report] raise *)
| Other (what : string).

Inductive result (A : Type) : Type :=
| Return (a : A)
| Raise (e : exception).

Arguments Return {A} a.
Arguments Raise {A} e.

Definition bind {A B : Type} (m : result A) (k : A -> result B) : result B :=
  match m with
  | Return a => k a
  | Raise e => Raise e
  end.

(** [for x in l: f(x)], stopped by the first exception. *)
Fixpoint for_each {A B : Type} (f : A -> result B) (l : list A) : result (list B) :=
  match l with
  | [] => Return []
  | x :: rest =>
      bind (f x) (fun y => bind (for_each f rest) (fun ys => Return (y :: ys)))
  end.

End Py.

(** ** [find_recent_json_report] *)

Module Recent.

Import Py.

(** [s.split(sep, 1)[1]]: what follows the first [sep]; the list has one
    element when [s] holds no [sep]. *)
Fixpoint after_first (sep : ascii) (s : string) : result string :=
  match s with
  | EmptyString => Raise IndexError
  | String c rest => if Ascii.eqb c sep then Return rest else after_first sep rest
  end.

(** [s.split(sep)[0]]: what precedes the first [sep], all of [s] when it
    holds none. *)
Fixpoint before_first (sep : ascii) (s : string) : string :=
  match s with
  | EmptyString => EmptyString
  | String c rest => if Ascii.eqb c sep then EmptyString else String c (before_first sep rest)
  end.

(** [date_str = filename.split("_", 1)[1].split(".")[0]] *)
Definition date_str (filename : string) : result string :=
  bind (after_first "_" filename) (fun rest => Return (before_first "." rest)).

(** A [datetime] is held as its count of microseconds, and so is a
    [timedelta]. *)
Definition day : Z := 86400 * 1000000.

(** [timedelta(days=n)], which takes up to 999999999 days either way. *)
Definition timedelta_days (n : Z) : result Z :=
  if Z.abs n <=? 999999999 then Return (n * day) else Raise OverflowError.

(** One step of a stable sort on the keys, greatest first: among equal
    keys the element met first stays first, as [list.sort(reverse=True)]
    has it. *)
Fixpoint insert (x : Z * string) (l : list (Z * string)) : list (Z * string) :=
  match l with
  | [] => [x]
  | y :: rest => if fst x <? fst y then y :: insert x rest else x :: l
  end.

Definition sort (l : list (Z * string)) : list (Z * string) := fold_right insert [] l.

Section Files.

(** [datetime.strptime(text, format)], [None] for its [ValueError]. *)
Variable strptime : string -> string -> option Z.

Definition extract_date (filename : string) : result Z :=
  bind (date_str filename) (fun date_str =>
  match strptime date_str "%Y%m%d_%H%M%S" with
  | Some t => Return t
  | None => Raise ValueError
  end).

(** [json_files] is what [glob] found, [now] is [datetime.now()].
    [sort] calls the key function on every file before it compares. *)
Definition find_recent_json_report (json_files : list string) (now : Z)
  (max_age_days : Z) : result (option string) :=
  match json_files with
  | [] => Return None
  | _ :: _ =>
      bind (for_each (fun f => bind (extract_date f) (fun t => Return (t, f))) json_files)
        (fun keyed =>
      match sort keyed with
      | [] => Raise IndexError
      | (_, most_recent) :: _ =>
          bind (extract_date most_recent) (fun file_mtime =>
          let age := now - file_mtime in
          bind (timedelta_days max_age_days) (fun limit =>
          if age <? limit then Return (Some most_recent) else Return None))
      end)
  end.

End Files.

End Recent.

(** Two reports and a stray file in the data directory of a script
    installed in [/opt/irods-adm]; [strptime] on the texts that occur,
    as microseconds since 1970. *)
Module RecentScenario.

Definition strptime (text format : string) : option Z :=
  if (format =? "%Y%m%d_%H%M%S")%string then
    if (text =? "20250101_000000")%string then Some (1735689600 * 1000000)
    else if (text =? "20250102_120000")%string then Some (1735819200 * 1000000)
    else None
  else None.

Definition first_report : string := "/opt/irods-adm/data/report_20250101_000000.json".
Definition second_report : string := "/opt/irods-adm/data/report_20250102_120000.json".
Definition stray : string := "/opt/irods-adm/data/report_old.json".

(** 2025-01-03 00:00:00 *)
Definition now : Z := 1735862400 * 1000000.

End RecentScenario.

(** ** The resources below the roots *)

Module Hierarchy.

(** A resource of the catalog that bears one of the names [roots], or
    whose parent is a resource below the roots that the catalog marks as
    coordinating ([resc_net] is [EMPTY_RESC_HOST]). *)
Inductive below (cat : catalog) (roots : list string) : Resc.t -> Prop :=
| below_root : forall m,
    In m (r_resc_main cat) -> In (Resc.resc_name m) roots -> below cat roots m
| below_child : forall r m,
    below cat roots r -> In m (r_resc_main cat) ->
    Resc.resc_net r = Resolver.EMPTY_RESC_HOST ->
    Resc.resc_parent m = Text.text_of_bigint (Resc.resc_id r) ->
    below cat roots m.

End Hierarchy.

(** ** [main] of [data-usage-report/main.py] *)

Module Main.

Import Py.

(** What [parser.parse_args()] returns: an option that was not given is
    [None] where it has no default. *)
Record args : Type :=
  mk_args { host : option string; port : option string; user : option string;
            resources : list string; html : bool;
            ldap_server : string; ldap_base : string;
            force_refresh : bool; max_report_age : Z;
            irods_upload_location : string; debug : bool }.

(** [if s:] on a text. *)
Definition truthy (s : string) : bool :=
  match s with
  | EmptyString => false
  | String _ _ => true
  end.

(** [x if x else y] on an optional text. *)
Definition or_else (x y : option string) : option string :=
  match x with
  | Some s => if truthy s then x else y
  | None => y
  end.

(** [f"{x}"] for an optional text. *)
Definition str (x : option string) : string :=
  match x with
  | Some s => s
  | None => "None"
  end.

Definition create_connection_string (host port user : option string) (dbname : string)
  : string :=
  "postgresql://" ++ str user ++ "@" ++ str host ++ ":" ++ str port ++ "/" ++ dbname.

(** [os.environ[name] = value] *)
Definition setenv (environ : string -> option string) (name value : string)
  : string -> option string :=
  fun n => if (n =? name)%string then Some value else environ n.

(** [if arg: os.environ[name] = arg] *)
Definition export (environ : string -> option string) (name : string) (arg : option string)
  : string -> option string :=
  match arg with
  | Some s => if truthy s then setenv environ name s else environ
  | None => environ
  end.

(** Where a [print] inside [with redirect_stdout(program_output)] ends:
    on the terminal, or in the [StringIO] that only the handler of
    [except Exception] prints. *)
Inductive device : Type := terminal | buffer.

(** What a run does outside itself, in the order it does it.  Of what it
    prints, the report table is kept. *)
Inductive effect (frame : Type) : Type :=
| putenv (name value : string)
| engine (conn_string : string)             (* create_engine(conn_string) *)
| to_json (filename : string) (report_df : frame)
| wrote_html (filename html_output : string)
| uploaded (filename location : string)     (* collections.create and data_objects.put *)
| printed (report_df : frame) (on : device).

Arguments putenv {frame} name value.
Arguments engine {frame} conn_string.
Arguments to_json {frame} filename report_df.
Arguments wrote_html {frame} filename html_output.
Arguments uploaded {frame} filename location.
Arguments printed {frame} report_df on.

(** How a run ends: [main] returns, [sys.exit(status)], an exception that
    leaves [main], or SQL that is outside the fragment interpreted
    here. *)
Inductive ending : Type :=
| returned
| exit (status : Z)
| uncaught (e : exception)
| uninterpreted.

(** A step of the run: it returns, raises, or is SQL not interpreted. *)
Inductive step (A : Type) : Type :=
| Ok (a : A)
| Failed (e : exception)
| Unknown.

Arguments Ok {A} a.
Arguments Failed {A} e.
Arguments Unknown {A}.

Definition of_result {A : Type} (r : result A) : step A :=
  match r with
  | Return a => Ok a
  | Raise e => Failed e
  end.

Definition of_outcome {A : Type} (o : outcome A) : step A :=
  match o with
  | Done a => Ok a
  | Raised e => Failed (Database e)
  | Uninterpreted => Unknown
  | OutOfFuel => Unknown
  end.

(** What the run meets: [frame] is [pd.DataFrame]. *)
Record world (frame : Type) : Type :=
  mk_world {
    SCRIPT_DIR : string;
    environ : string -> option string;          (* os.environ *)
    glob : list string;          (* glob.glob(f"{SCRIPT_DIR}/data/report_*.json") *)
    now : Z;                                    (* datetime.now() *)
    strptime : string -> string -> option Z;    (* datetime.strptime *)
    read_json : string -> result frame;         (* pd.read_json *)
    database : string -> result catalog;
      (* the catalog behind [create_engine(conn_string)], or what
         [create_engine] or the connection raises *)
    DataFrame : list Report.t -> frame;         (* of [pd.read_sql_query] *)
    json_stamp : string;     (* pd.Timestamp.now().strftime('%Y%m%d_%H%M%S'), first call *)
    html_stamp : string;                        (* second call *)
    write_json : string -> frame -> result unit;    (* report_df.to_json *)
    format_html_report : frame -> string -> string -> result string;
    write_html : string -> string -> result unit;   (* open(..., "w") and f.write *)
    upload : string -> string -> result unit;
      (* iRODSSession, collections.create and data_objects.put *)
    stdout_getvalue : bool                      (* sys.stdout has [getvalue] *)
  }.

Arguments SCRIPT_DIR {frame} w.
Arguments environ {frame} w.
Arguments glob {frame} w.
Arguments now {frame} w.
Arguments strptime {frame} w.
Arguments read_json {frame} w.
Arguments database {frame} w.
Arguments DataFrame {frame} w.
Arguments json_stamp {frame} w.
Arguments html_stamp {frame} w.
Arguments write_json {frame} w.
Arguments format_html_report {frame} w.
Arguments write_html {frame} w.
Arguments upload {frame} w.
Arguments stdout_getvalue {frame} w.

Section Run.

Context {frame : Type}.
Variable w : world frame.
Variable a : args.

(** [program_output]: [sys.stdout] in debug mode, a [StringIO] if not. *)
Definition program_output : device := if debug a then terminal else buffer.

(** [report_df] after the look for a recent report. *)
Definition recent_report_df : result (option frame) :=
  if force_refresh a then Return None
  else
    bind (Recent.find_recent_json_report (strptime w) (glob w) (now w) (max_report_age a))
      (fun recent_report =>
    match recent_report with
    | Some file =>
        if truthy file then
          match read_json w file with
          | Return report_df => Return (Some report_df)
          | Raise ValueError => Return None
          | Raise e => Raise e
          end
        else Return None
    | None => Return None
    end).

(** [os.environ] after the three [if args.x: os.environ[...] = args.x]. *)
Definition environ' : string -> option string :=
  export (export (export (environ w) "PGHOST" (host a)) "PGPORT" (port a))
    "PGUSER" (user a).

Definition exports : list (effect frame) :=
  (match host a with
   | Some s => if truthy s then [putenv "PGHOST" s] else []
   | None => []
   end
   ++ match port a with
      | Some s => if truthy s then [putenv "PGPORT" s] else []
      | None => []
      end
   ++ match user a with
      | Some s => if truthy s then [putenv "PGUSER" s] else []
      | None => []
      end)%list.

Definition conn_string : string :=
  create_connection_string
    (or_else (host a) (environ' "PGHOST"))
    (or_else (port a) (environ' "PGPORT"))
    (or_else (user a) (environ' "PGUSER"))
    "ICAT".

Definition report_filename : string :=
  SCRIPT_DIR w ++ "/data/report_" ++ json_stamp w ++ ".json".

Definition html_filename : string :=
  SCRIPT_DIR w ++ "/reports/report_" ++ html_stamp w ++ ".html".

(** The branch [if report_df is None]: a new report. *)
Definition generate : list (effect frame) * step frame :=
  let before := (exports ++ [engine conn_string])%list in
  match database w conn_string with
  | Raise e => (before, Failed e)
  | Return cat =>
      match of_outcome (get_local_zone cat) with
      | Ok local_zone =>
          match of_outcome (gen_report cat local_zone (resources a)) with
          | Ok rows =>
              let report_df := DataFrame w rows in
              match write_json w report_filename report_df with
              | Return _ => ((before ++ [to_json report_filename report_df])%list, Ok report_df)
              | Raise e => (before, Failed e)
              end
          | Failed e => (before, Failed e)
          | Unknown => (before, Unknown)
          end
      | Failed e => (before, Failed e)
      | Unknown => (before, Unknown)
      end
  end.

(** The branch [if args.html] and its [else]. *)
Definition output (report_df : frame) : list (effect frame) * step unit :=
  if html a then
    match format_html_report w report_df (ldap_server a) (ldap_base a) with
    | Raise e => ([], Failed e)
    | Return html_output =>
        match write_html w html_filename html_output with
        | Raise e => ([], Failed e)
        | Return _ =>
            if truthy (irods_upload_location a) then
              match upload w html_filename (irods_upload_location a) with
              | Raise e => ([wrote_html html_filename html_output], Failed e)
              | Return _ =>
                  ([wrote_html html_filename html_output;
                    uploaded html_filename (irods_upload_location a)], Ok tt)
              end
            else ([wrote_html html_filename html_output], Ok tt)
        end
    end
  else ([printed report_df program_output], Ok tt).

(** The body of [try]. *)
Definition body : list (effect frame) * step unit :=
  match recent_report_df with
  | Raise e => ([], Failed e)
  | Return (Some report_df) => output report_df
  | Return None =>
      match generate with
      | (effects, Ok report_df) =>
          let (more, s) := output report_df in ((effects ++ more)%list, s)
      | (effects, Failed e) => (effects, Failed e)
      | (effects, Unknown) => (effects, Unknown)
      end
  end.

(** [except Exception]: the handler prints [program_output.getvalue()],
    which [sys.stdout] may not have, before it comes to [sys.exit(1)]. *)
Definition handler : ending :=
  match program_output with
  | buffer => exit 1
  | terminal => if stdout_getvalue w then exit 1 else uncaught AttributeError
  end.

(** [main] from the arguments [a] that [parser.parse_args()] has
    returned. *)
Definition main : list (effect frame) * ending :=
  match body with
  | (effects, Ok _) => (effects, returned)
  | (effects, Failed _) => (effects, handler)
  | (effects, Unknown) => (effects, uninterpreted)
  end.

End Run.

(** [parser.parse_args()], which [main] calls before its [try]: it
    returns the arguments, or ends the process itself, with status 2 on
    a command line the parser does not take and with status 0 on
    [--help]. *)
Inductive parse_args : Type :=
| parsed (a : args)
| usage_error
| help.

(** [main] from the command line. *)
Definition from_command_line {frame : Type} (w : world frame) (p : parse_args)
  : list (effect frame) * ending :=
  match p with
  | parsed a => main w a
  | usage_error => ([], exit 2)
  | help => ([], exit 0)
  end.

(** The arguments but for [-H], [-P], [-U] and the root resources. *)
Definition presentation (a : args)
  : bool * string * string * bool * Z * string * bool :=
  (html a, ldap_server a, ldap_base a, force_refresh a, max_report_age a,
   irods_upload_location a, debug a).

End Main.

(** A run of the report tool: the catalog of the scenario behind every
    connection string, the report of twelve hours ago in the data
    directory, and a terminal for [sys.stdout]. *)
Module MainScenario.

Import Py Main.

Definition cached : list Report.t := [Report.mk 1000 1000 0 "proj1" None None].

Definition world : Main.world (list Report.t) :=
  {| SCRIPT_DIR := "/opt/irods-adm";
     environ := fun n => if (n =? "PGHOST")%string then Some "icat.example.org" else None;
     glob := [RecentScenario.second_report];
     now := RecentScenario.now;
     strptime := RecentScenario.strptime;
     read_json := fun file => Return cached;
     database := fun conn_string => Return Scenario.cat;
     DataFrame := fun rows => rows;
     json_stamp := "20250103_000000";
     html_stamp := "20250103_000001";
     write_json := fun file report_df => Return tt;
     format_html_report := fun report_df ldap_server ldap_base => Return "<html></html>";
     write_html := fun file html_output => Return tt;
     upload := fun file location => Return tt;
     stdout_getvalue := false |}.

(** [main.py resA] and [main.py -H other.example.org resB], options at
    their defaults. *)
Definition resA : args :=
  mk_args None None None ["resA"] false
    "ldap://ldap.iplantcollaborative.org" "dc=iplantcollaborative,dc=org"
    false 2 "/iplant/home/shared/CyVerse_DSStats/data-products/project-data-usage" false.

Definition resB : args :=
  mk_args (Some "other.example.org") None None ["resB"] false
    "ldap://ldap.iplantcollaborative.org" "dc=iplantcollaborative,dc=org"
    false 2 "/iplant/home/shared/CyVerse_DSStats/data-products/project-data-usage" false.

End MainScenario.

(** ** [get_ldap_user_info] *)

Module Ldap.

Import Py.

(** The calls of python-ldap the function makes. *)
Inductive call : Type :=
| initialize (uri : string)
| set_option
| search_s (base : string) (filterstr : string)
| unbind.

(** The attributes of an entry: each name with its values, a value held
    as what [.decode("utf-8")] makes of it. *)
Definition attrs : Type := list (string * list (result string)).

(** The directory behind a server: what [initialize] raises, if it
    does, and what [search_s] returns or raises. *)
Record directory : Type :=
  { on_initialize : string -> result unit;
    on_search : string -> string -> string -> result (list (string * attrs)) }.

(** [attrs.get(key)], with [None] as the empty list, which is as false. *)
Fixpoint get (a : attrs) (key : string) : list (result string) :=
  match a with
  | [] => []
  | (k, values) :: rest => if (k =? key)%string then values else get rest key
  end.

(** [attrs.get(key, [b""])[0].decode("utf-8") if attrs.get(key) else ""] *)
Definition first_value (a : attrs) (key : string) : result string :=
  match get a key with
  | v :: _ => v
  | [] => Return ""
  end.

Record info : Type :=
  mk_info { fullname : string; email : string; title : string;
            department : string; username : string; organization : string }.

(** The dictionary of the [return], its values read in their order. *)
Definition info_of (a : attrs) : result info :=
  bind (first_value a "cn") (fun fullname =>
  bind (first_value a "mail") (fun email =>
  bind (first_value a "title") (fun title =>
  bind (first_value a "departmentNumber") (fun department =>
  bind (first_value a "uid") (fun username =>
  bind (first_value a "o") (fun organization =>
  Return (mk_info fullname email title department username organization))))))).

(** What the function returns and the calls it has made.  An exception
    of the [try] is printed and [None] is returned. *)
Definition get_ldap_user_info (ldap : directory) (username ldap_server ldap_base : string)
  : option info * list call :=
  match username with
  | EmptyString => (None, [])
  | String _ _ =>
      match on_initialize ldap ldap_server with
      | Raise _ => (None, [initialize ldap_server])
      | Return _ =>
          let search_filter := "(uid=" ++ username ++ ")" in
          let calls := [initialize ldap_server; set_option;
                        search_s ldap_base search_filter] in
          match on_search ldap ldap_server ldap_base search_filter with
          | Raise _ => (None, calls)
          | Return [] => (None, (calls ++ [unbind])%list)
          | Return ((_, a) :: _) =>
              match info_of a with
              | Return i => (Some i, calls)
              | Raise _ => (None, calls)
              end
          end
      end
  end.

End Ldap.

(** ** The owners of a row in [format_html_report] *)

Module Owners.

Import Py Ldap.

(** [cell.split("; ")] *)
Fixpoint split (cell : string) : list string :=
  match cell with
  | EmptyString => [EmptyString]
  | String c rest =>
      let go_on :=
        match split rest with
        | piece :: pieces => String c piece :: pieces
        | [] => [String c EmptyString]
        end in
      if Ascii.eqb c ";" then
        match rest with
        | String c' rest' => if Ascii.eqb c' " " then EmptyString :: split rest' else go_on
        | EmptyString => go_on
        end
      else go_on
  end.

(** [str.isspace] on ASCII. *)
Definition is_space (c : ascii) : bool :=
  let n := nat_of_ascii c in
  (((9 <=? n) && (n <=? 13)) || ((28 <=? n) && (n <=? 32)))%nat.

Fixpoint lstrip (s : string) : string :=
  match s with
  | String c rest => if is_space c then lstrip rest else s
  | EmptyString => EmptyString
  end.

Fixpoint rstrip (s : string) : string :=
  match s with
  | String c rest =>
      match rstrip rest with
      | EmptyString => if is_space c then EmptyString else String c EmptyString
      | String c' rest' => String c (String c' rest')
      end
  | EmptyString => EmptyString
  end.

(** [owner.strip()] *)
Definition strip (s : string) : string := lstrip (rstrip s).

(** The minimal information for a user without LDAP data. *)
Definition without_ldap (owner : string) : info :=
  mk_info owner "" "" "" owner "".

(** The loop [for owner in owners], with the calls it makes. *)
Fixpoint fetch (ldap : directory) (ldap_server ldap_base : string) (owners : list string)
  : list info * list call :=
  match owners with
  | [] => ([], [])
  | owner :: rest =>
      let owner := strip owner in
      let (user_info, calls) := get_ldap_user_info ldap owner ldap_server ldap_base in
      let (infos, more) := fetch ldap ldap_server ldap_base rest in
      (match user_info with
       | Some i => i
       | None => without_ldap owner
       end :: infos, (calls ++ more)%list)
  end.

(** [owner_infos] for the cell [row["Owner"]], when it is not empty. *)
Definition owner_infos (ldap : directory) (ldap_server ldap_base : string) (cell : string)
  : list info * list call :=
  fetch ldap ldap_server ldap_base (split cell).

(** ["; ".join(fullnames)] *)
Definition summary_line (owner_infos : list info) : string :=
  String.concat "; " (map fullname owner_infos).

(** [info["username"] == info["fullname"]], the test for the line
    [No detailed information available]. *)
Definition no_details (i : info) : bool := (username i =? fullname i)%string.

End Owners.

(** The run of [MainScenario] with [--force-refresh], and with [--debug]
    too; a directory that knows [alice], and one that is down. *)
Module RunScenario.

Import Py Main Ldap.

Definition fresh : args :=
  mk_args None None None ["resA"] false
    "ldap://ldap.iplantcollaborative.org" "dc=iplantcollaborative,dc=org"
    true 2 "/iplant/home/shared/CyVerse_DSStats/data-products/project-data-usage" false.

Definition fresh_debug : args :=
  mk_args None None None ["resA"] false
    "ldap://ldap.iplantcollaborative.org" "dc=iplantcollaborative,dc=org"
    true 2 "/iplant/home/shared/CyVerse_DSStats/data-products/project-data-usage" true.

Definition alice : attrs :=
  [("cn", [Return "Alice Liddell"]); ("uid", [Return "alice"]);
   ("mail", [Return "alice@example.org"; Return "al@example.org"])].

Definition directory : Ldap.directory :=
  {| on_initialize := fun uri => Return tt;
     on_search := fun uri base filterstr =>
       if (filterstr =? "(uid=alice)")%string
       then Return [("uid=alice,ou=People,dc=example,dc=org", alice)]
       else Return [] |}.

Definition down : Ldap.directory :=
  {| on_initialize := fun uri => Return tt;
     on_search := fun uri base filterstr => Raise (Other "SERVER_DOWN") |}.

End RunScenario.

(* ================================================================== *)
(** * Part II: properties *)
(* ================================================================== *)

Open Scope list_scope.

(** Case analysis on the stage an outcome comes from. *)
Ltac stage m := destruct m eqn:?; simpl; try discriminate; try congruence.

(** ** Lists and strings *)

Section ListFacts.

Context {A : Type}.

Lemma existsb_In_string : forall (x : string) (l : list string),
  existsb (String.eqb x) l = true <-> In x l.
Proof.
  intros x l. rewrite existsb_exists. split.
  - intros [y [Hy Heq]]. apply String.eqb_eq in Heq. now subst.
  - intros H. exists x. split; [assumption | apply String.eqb_refl].
Qed.

Lemma in_table_In : forall (x : Z) (t : list Z), in_table x t = true <-> In x t.
Proof.
  intros x t. unfold in_table. rewrite existsb_exists. split.
  - intros [y [Hy Heq]]. apply Z.eqb_eq in Heq. now subst.
  - intros H. exists x. split; [assumption | apply Z.eqb_refl].
Qed.

Lemma filter_all : forall (f : A -> bool) (l : list A),
  (forall x, In x l -> f x = true) -> filter f l = l.
Proof.
  intros f l. induction l as [|a l IH]; intros H; simpl; [reflexivity|].
  rewrite (H a (or_introl eq_refl)). f_equal. apply IH. intros x Hx. apply H. now right.
Qed.

Lemma filter_none : forall (f : A -> bool) (l : list A),
  (forall x, In x l -> f x = false) -> filter f l = [].
Proof.
  intros f l. induction l as [|a l IH]; intros H; simpl; [reflexivity|].
  rewrite (H a (or_introl eq_refl)). apply IH. intros x Hx. apply H. now right.
Qed.

End ListFacts.

(** ** The trash tool *)

Section TrashFacts.

Import Trash.

Lemma has_timestamp_In : forall md,
  existsb (String.eqb trash_timestamp) (keys md) = true
  <-> In trash_timestamp (keys md).
Proof. intros md. apply existsb_In_string. Qed.

Lemma setitem_fresh : forall md meta,
  ~ In (name meta) (keys md) -> setitem md (name meta) meta = md ++ [meta].
Proof.
  intros md meta H. unfold setitem. f_equal. apply filter_all.
  intros m Hm. apply negb_true_iff, String.eqb_neq. intros Heq.
  apply H. unfold keys. rewrite <- Heq. now apply in_map.
Qed.

Lemma add_avu_present : forall now e,
  In trash_timestamp (keys (metadata e)) -> add_avu now e = e.
Proof.
  intros now e H. unfold add_avu. apply has_timestamp_In in H. now rewrite H.
Qed.

Lemma add_avu_absent : forall now e,
  ~ In trash_timestamp (keys (metadata e)) ->
  add_avu now e = mk_entry (path e) (metadata e ++ [trash_timestamp_meta now]).
Proof.
  intros now e H. unfold add_avu.
  destruct (existsb (String.eqb trash_timestamp) (keys (metadata e))) eqn:E.
  - apply has_timestamp_In in E. contradiction.
  - f_equal. now apply setitem_fresh.
Qed.

Lemma add_avu_has_timestamp : forall now e,
  In trash_timestamp (keys (metadata (add_avu now e))).
Proof.
  intros now e.
  destruct (in_dec string_dec trash_timestamp (keys (metadata e))) as [H|H].
  - now rewrite add_avu_present.
  - rewrite add_avu_absent by assumption. simpl. unfold keys.
    rewrite map_app. apply in_or_app. right. now left.
Qed.

End TrashFacts.

(** C10. [add_coll_avu] and [add_obj_avu] attach [ipc::trash_timestamp]
    only to an entry without an attribute of that name (an entry that has
    one is returned as it is, an entry that has none gets the one new AVU
    after those it has), and a second application, at any later time,
    changes nothing: the metadata, and so the timestamp written first,
    stay. *)
Theorem add_avu_idempotent : forall (t1 t2 : Z) (e : Trash.entry),
  Trash.add_coll_avu t2 (Trash.add_coll_avu t1 e) = Trash.add_coll_avu t1 e
  /\ Trash.add_obj_avu t2 (Trash.add_obj_avu t1 e) = Trash.add_obj_avu t1 e
  /\ (In Trash.trash_timestamp (Trash.keys (Trash.metadata e)) ->
      Trash.add_coll_avu t1 e = e /\ Trash.add_obj_avu t1 e = e)
  /\ (~ In Trash.trash_timestamp (Trash.keys (Trash.metadata e)) ->
      Trash.metadata (Trash.add_coll_avu t1 e)
      = (Trash.metadata e ++ [Trash.mk "ipc::trash_timestamp"
                                ("0" ++ Text.text_of_bigint t1)%string None])%list
      /\ Trash.add_obj_avu t1 e = Trash.add_coll_avu t1 e).
Proof.
  intros t1 t2 e. unfold Trash.add_coll_avu, Trash.add_obj_avu.
  repeat split.
  - apply add_avu_present, add_avu_has_timestamp.
  - apply add_avu_present, add_avu_has_timestamp.
  - now apply add_avu_present.
  - now apply add_avu_present.
  - rewrite add_avu_absent by assumption. reflexivity.
Qed.

(** ** Failures of the pipeline *)

Lemma exn_class_not_InvalidArgument : forall e, exn_class e <> "InvalidArgument".
Proof. intros [c| |]; simpl; discriminate. Qed.

Lemma empty_roots_syntax_error : forall cat,
  create_store_resc_table cat [] = Raised (ProgrammingError syntax_error).
Proof. intros cat. reflexivity. Qed.

Lemma no_local_zone : forall cat,
  (forall z, In z (r_zone_main cat) -> Zone.zone_type_name z <> "local") ->
  get_local_zone cat = Raised TypeError.
Proof.
  intros cat H. unfold get_local_zone. rewrite filter_none; [reflexivity|].
  intros z Hz. apply String.eqb_neq. now apply H.
Qed.

Lemma final_query_undefined_column : forall proj_coll proj_data pub_proj_data,
  Report.final_query proj_coll proj_data pub_proj_data
  = Raised (ProgrammingError (undefined_column "creator")).
Proof. reflexivity. Qed.

Lemma gen_report_not_done : forall cat zone roots rows,
  gen_report cat zone roots <> Done rows.
Proof.
  intros cat zone roots rows. unfold gen_report.
  stage (temp_tables cat zone roots).
  destruct a as [[proj_coll proj_data] pub_proj_data]. discriminate.
Qed.

(** C7, counterexample.  With no root resource the pipeline raises
    [ProgrammingError], and with no local zone [TypeError]: neither is an
    [InvalidArgument]. *)
Lemma empty_roots_not_InvalidArgument :
  (exists e, gen_report Scenario.cat "zoneX" [] = Raised e
             /\ exn_class e = "ProgrammingError"
             /\ exn_class e <> "InvalidArgument")
  /\ (exists e, pipeline {| r_zone_main := []; r_resc_main := [];
                           r_coll_main := []; r_data_main := [];
                           r_objt_access := []; r_user_main := [] |} ["resA"]
                = Raised e
                /\ exn_class e = "TypeError"
                /\ exn_class e <> "InvalidArgument").
Proof.
  split.
  - exists (ProgrammingError syntax_error). repeat split. discriminate.
  - exists TypeError. repeat split. discriminate.
Qed.

(** C7, as amended.  With an empty list of root resources [gen_report]
    raises the [ProgrammingError] of the syntax error PostgreSQL finds in
    [IN ()], before any table is filled; when the catalog has no local
    zone the pipeline raises [TypeError] at the zone lookup, whatever the
    roots; either way no report is returned, and no exception of the
    program is an [InvalidArgument]. *)
Theorem empty_roots_or_no_zone_raise : forall (cat : catalog) (zone : string),
  gen_report cat zone [] = Raised (ProgrammingError syntax_error)
  /\ ((forall z, In z (r_zone_main cat) -> Zone.zone_type_name z <> "local") ->
      forall roots, pipeline cat roots = Raised TypeError)
  /\ (forall roots rows, gen_report cat zone roots <> Done rows)
  /\ (forall e, exn_class e <> "InvalidArgument").
Proof.
  intros cat zone. repeat split.
  - intros H roots. unfold pipeline. now rewrite no_local_zone.
  - intros roots rows. apply gen_report_not_done.
  - apply exn_class_not_InvalidArgument.
Qed.

(** C2, the code at the scenario of the specification.  The final query
    reads the columns [creator] and [owner] of [proj_coll], a table that
    has the columns [proj] and [coll_id] only: PostgreSQL rejects the
    query, and [gen_report] returns no row for any catalog, zone and
    roots. *)
Theorem gen_report_undefined_creator :
  gen_report Scenario.cat "zoneX" ["resA"]
  = Raised (ProgrammingError (undefined_column "creator"))
  /\ (forall cat zone roots rows, gen_report cat zone roots <> Done rows)
  /\ (forall proj_coll proj_data pub_proj_data,
        Report.final_query proj_coll proj_data pub_proj_data
        = Raised (ProgrammingError (undefined_column "creator"))).
Proof.
  split; [reflexivity | split].
  - apply gen_report_not_done.
  - apply final_query_undefined_column.
Qed.

(** ** The public-access filter *)

Section PublicFilter.

Variable cat : catalog.

Let is_public (u : User.t) : bool := (User.user_name u =? "public")%string.

Lemma pub_obj_member : forall pub_obj,
  create_pub_obj_table cat = Done pub_obj ->
  forall id, In id pub_obj <->
    exists a u, In a (r_objt_access cat) /\ In u (r_user_main cat)
                /\ User.user_name u = "public"
                /\ Access.user_id a = User.user_id u
                /\ Access.object_id a = id.
Proof.
  intros pub_obj. unfold create_pub_obj_table.
  assert (Hmem : forall uid,
            In uid (map User.user_id (filter is_public (r_user_main cat)))
            <-> exists u, In u (r_user_main cat) /\ User.user_name u = "public"
                          /\ User.user_id u = uid).
  { intros uid. rewrite in_map_iff. split.
    - intros [u [Hid Hu]]. apply filter_In in Hu as [Hu Hp].
      exists u. repeat split; try assumption. now apply String.eqb_eq.
    - intros [u [Hu [Hp Hid]]]. exists u. split; [assumption|].
      apply filter_In. split; [assumption|]. now apply String.eqb_eq. }
  fold is_public.
  destruct (map User.user_id (filter is_public (r_user_main cat))) as [|uid [|uid' rest]];
    simpl; intros Hdone; inversion Hdone; subst; clear Hdone; intros id.
  - split; [intros []|].
    intros [a [u [_ [Hu [Hp _]]]]].
    destruct (proj2 (Hmem (User.user_id u))) as [].
    exists u. now repeat split.
  - rewrite in_map_iff. split.
    + intros [a [Hid Ha]]. apply filter_In in Ha as [Ha Huid].
      apply Z.eqb_eq in Huid.
      destruct (proj1 (Hmem uid) (or_introl eq_refl)) as [u [Hu [Hp Hu']]].
      exists a, u. repeat split; try assumption. congruence.
    + intros [a [u [Ha [Hu [Hp [Hau Hid]]]]]]. exists a. split; [assumption|].
      apply filter_In. split; [assumption|]. apply Z.eqb_eq.
      destruct (proj2 (Hmem (User.user_id u))) as [E|[]].
      * exists u. now repeat split.
      * congruence.
Qed.

End PublicFilter.

Lemma total_app : forall l1 l2, Sql.total (l1 ++ l2) = Sql.total l1 + Sql.total l2.
Proof.
  intros l1 l2. unfold Sql.total. induction l1 as [|x l1 IH]; simpl; [reflexivity|].
  rewrite IH. lia.
Qed.

Lemma pub_proj_data_member : forall proj_data pub_obj t,
  In t (create_pub_proj_data_table proj_data pub_obj) <->
  exists r, In r proj_data
            /\ t = PubProjData.mk (ProjData.proj r) (ProjData.data_id r) (ProjData.data_size r)
            /\ In (ProjData.coll_id r) pub_obj /\ In (ProjData.data_id r) pub_obj.
Proof.
  intros proj_data pub_obj t. unfold create_pub_proj_data_table.
  rewrite in_map_iff. split.
  - intros [r [Ht Hr]]. apply filter_In in Hr as [Hr Hb].
    unfold both_public in Hb. apply andb_true_iff in Hb as [Hc Hd].
    exists r. repeat split; [assumption | now symmetry | now apply in_table_In
                            | now apply in_table_In].
  - intros [r [Hr [Ht [Hc Hd]]]]. exists r. split; [now symmetry|].
    apply filter_In. split; [assumption|]. unfold both_public.
    apply andb_true_iff. split; now apply in_table_In.
Qed.

Lemma pub_proj_data_volume : forall proj_data pub_obj g,
  Sql.total (map PubProjData.data_size
               (filter (fun p => (PubProjData.proj p =? g)%string)
                  (create_pub_proj_data_table proj_data pub_obj)))
  = Sql.total (map (fun r => if both_public pub_obj r then ProjData.data_size r else 0)
                 (Volume.of_project g proj_data)).
Proof.
  intros proj_data pub_obj g. unfold create_pub_proj_data_table, Volume.of_project.
  induction proj_data as [|r l IH]; simpl; [reflexivity|].
  destruct (both_public pub_obj r) eqn:Hb; simpl;
    destruct (ProjData.proj r =? g)%string eqn:Hg; simpl;
    rewrite ?Hb; unfold Sql.total in *; simpl; lia.
Qed.

(** C1.  The public-access set holds exactly the identifiers with an
    access entry of the user named [public]; a row of [proj_data] reaches
    [pub_proj_data] exactly when its collection identifier and its data
    identifier are both in that set; and the bytes a project has in
    [pub_proj_data] are the sizes of its rows with both identifiers in the
    set, a row with only one of them there adding nothing. *)
Theorem public_needs_collection_and_object :
  forall (cat : catalog) (proj_data : list ProjData.t) (pub_obj : list Z),
  create_pub_obj_table cat = Done pub_obj ->
  (forall id, In id pub_obj <->
     exists a u, In a (r_objt_access cat) /\ In u (r_user_main cat)
                 /\ User.user_name u = "public"
                 /\ Access.user_id a = User.user_id u
                 /\ Access.object_id a = id)
  /\ (forall t, In t (create_pub_proj_data_table proj_data pub_obj) <->
        exists r, In r proj_data
                  /\ t = PubProjData.mk (ProjData.proj r) (ProjData.data_id r)
                           (ProjData.data_size r)
                  /\ In (ProjData.coll_id r) pub_obj /\ In (ProjData.data_id r) pub_obj)
  /\ (forall g,
        Sql.total (map PubProjData.data_size
                     (filter (fun p => (PubProjData.proj p =? g)%string)
                        (create_pub_proj_data_table proj_data pub_obj)))
        = Sql.total (map (fun r => if in_table (ProjData.coll_id r) pub_obj
                                      && in_table (ProjData.data_id r) pub_obj
                                   then ProjData.data_size r else 0)
                       (Volume.of_project g proj_data))).
Proof.
  intros cat proj_data pub_obj Hpub. split; [|split].
  - now apply pub_obj_member.
  - intros t. apply pub_proj_data_member.
  - intros g. apply pub_proj_data_volume.
Qed.

(** C1 at the scenario whose data object has lost its public entry: the
    collection alone is public, and the project has no public byte. *)
Lemma public_needs_collection_and_object_witness :
  create_pub_obj_table Scenario.cat_private_object = Done [10]
  /\ Sql.total (map PubProjData.data_size
                  (filter (fun p => (PubProjData.proj p =? "proj1")%string)
                     (create_pub_proj_data_table
                        [ProjData.mk "proj1" 10 100 (2 ^ 30)] [10])))
     = 0.
Proof.
  split; [reflexivity|].
  rewrite (proj2 (proj2 (public_needs_collection_and_object
                           Scenario.cat_private_object
                           [ProjData.mk "proj1" 10 100 (2 ^ 30)] [10] eq_refl))).
  reflexivity.
Defined.

(** ** The final query: what its sums add up *)

Section LeftJoin.

Context {A B : Type}.
Variable on : A -> B -> bool.

Lemma left_join_app : forall (l1 l2 : list A) (r : list B),
  Sql.left_join on (l1 ++ l2) r = Sql.left_join on l1 r ++ Sql.left_join on l2 r.
Proof. intros. unfold Sql.left_join. apply flat_map_app. Qed.

Lemma left_join_cons : forall (a : A) (l : list A) (r : list B),
  Sql.left_join on (a :: l) r = Sql.left_join on [a] r ++ Sql.left_join on l r.
Proof. intros. apply (left_join_app [a] l). Qed.

(** Every row of a block comes from the row that made it. *)
Lemma left_join_one_fst : forall (a : A) (r : list B) x,
  In x (Sql.left_join on [a] r) -> fst x = a.
Proof.
  intros a r x. unfold Sql.left_join. simpl. rewrite app_nil_r.
  destruct (filter (on a) r) as [|b bs].
  - intros [<-|[]]. reflexivity.
  - intros [<-|H]; [reflexivity|].
    apply in_map_iff in H as [b' [<- _]]. reflexivity.
Qed.

Lemma left_join_one_nonempty : forall (a : A) (r : list B),
  Sql.left_join on [a] r <> [].
Proof.
  intros a r. unfold Sql.left_join. simpl. rewrite app_nil_r.
  destruct (filter (on a) r); discriminate.
Qed.

(** A join with at most one partner for each row neither drops nor
    repeats a row. *)
Lemma left_join_fst : forall (l : list A) (r : list B),
  (forall a, In a l -> (List.length (filter (on a) r) <= 1)%nat) ->
  map fst (Sql.left_join on l r) = l.
Proof.
  intros l r. induction l as [|a l IH]; intros H; [reflexivity|].
  rewrite left_join_cons, map_app, IH by (intros; apply H; now right).
  specialize (H a (or_introl eq_refl)).
  unfold Sql.left_join. simpl. rewrite app_nil_r.
  destruct (filter (on a) r) as [|b [|b' bs]]; simpl in *; try reflexivity. lia.
Qed.

Lemma left_join_filter_fst : forall (f : A -> bool) (l : list A) (r : list B),
  filter (fun x => f (fst x)) (Sql.left_join on l r)
  = Sql.left_join on (filter f l) r.
Proof.
  intros f l r. induction l as [|a l IH]; [reflexivity|].
  rewrite left_join_cons, filter_app, IH. simpl.
  destruct (f a) eqn:Hf.
  - rewrite (left_join_cons a). f_equal. apply filter_all.
    intros x Hx. now rewrite (left_join_one_fst _ _ _ Hx).
  - rewrite filter_none; [reflexivity|].
    intros x Hx. now rewrite (left_join_one_fst _ _ _ Hx).
Qed.

Lemma left_join_fst_In : forall (l : list A) (r : list B) (a : A),
  In a (map fst (Sql.left_join on l r)) <-> In a l.
Proof.
  intros l r a. induction l as [|a' l IH]; [simpl; tauto|].
  rewrite left_join_cons, map_app, in_app_iff, IH. split.
  - intros [H|H]; [|now apply in_cons].
    apply in_map_iff in H as [x [<- Hx]].
    apply left_join_one_fst in Hx. rewrite Hx. apply in_eq.
  - intros H. destruct (in_inv H) as [->|H']; [left | now right].
    destruct (Sql.left_join on [a] r) as [|x xs] eqn:E.
    + now apply left_join_one_nonempty in E.
    + assert (Hx : In x (Sql.left_join on [a] r)) by (rewrite E; apply in_eq).
      apply left_join_one_fst in Hx. subst a. apply in_eq.
Qed.

End LeftJoin.

Lemma map_filter_fst : forall {A B : Type} (f : A -> bool) (l : list (A * B)),
  map fst (filter (fun x => f (fst x)) l) = filter f (map fst l).
Proof.
  intros A B f l. induction l as [|x l IH]; simpl; [reflexivity|].
  destruct (f (fst x)); simpl; now rewrite IH.
Qed.

Lemma filter_eqb_NoDup : forall (g : string) (l : list string),
  NoDup l -> (List.length (filter (fun k => (k =? g)%string) l) <= 1)%nat.
Proof.
  intros g l H. induction H as [|k l Hk Hl IH]; simpl; [lia|].
  destruct (k =? g)%string eqn:E; [|assumption].
  apply String.eqb_eq in E. subst k. simpl.
  rewrite filter_none; [simpl; lia|].
  intros x Hx. apply String.eqb_neq. intros ->. contradiction.
Qed.

Lemma insert_In : forall x y l, In x (Sql.insert y l) <-> x = y \/ In x l.
Proof.
  intros x y l. induction l as [|z l IH]; simpl.
  - split; intros [H|H]; auto.
  - destruct (y <=? z)%string; simpl; [|rewrite IH]; intuition.
Qed.

Lemma sort_In : forall x l, In x (Sql.sort l) <-> In x l.
Proof.
  intros x l. unfold Sql.sort. induction l as [|y l IH]; simpl; [tauto|].
  rewrite insert_In, IH. intuition.
Qed.

Lemma total_cons : forall x l, Sql.total (x :: l) = x + Sql.total l.
Proof. reflexivity. Qed.

Lemma total_const : forall {A : Type} (c : Z) (l : list A),
  Sql.total (map (fun _ => c) l) = Z.of_nat (List.length l) * c.
Proof.
  intros A c l. unfold Sql.total. induction l as [|x l IH]; [reflexivity|].
  cbn [map fold_right List.length]. rewrite IH. lia.
Qed.

Lemma coalesce_sum : forall xs,
  Sql.coalesce (Sql.sum xs) 0
  = Sql.total (map (fun x => match x with Some v => v | None => 0 end) xs).
Proof.
  induction xs as [|[v|] xs IH]; simpl; [reflexivity| |assumption].
  unfold Sql.total in *. simpl. rewrite <- IH.
  destruct (Sql.sum xs); simpl; lia.
Qed.

Lemma filter_map_comm : forall {A B : Type} (f : B -> bool) (F : A -> B) (l : list A),
  filter f (map F l) = map F (filter (fun x => f (F x)) l).
Proof.
  intros A B f F l. induction l as [|x l IH]; simpl; [reflexivity|].
  destruct (f (F x)); simpl; now rewrite IH.
Qed.

Section FinalQuery.

Variables creator_of owner_of : ProjColl.t -> option string.
Variable proj_coll : list ProjColl.t.
Variable proj_data : list ProjData.t.
Variable pub_proj_data : list PubProjData.t.

Let on_p (a : ProjData.t) (p : PubProjData.t) : bool :=
  PubProjData.data_id p =? ProjData.data_id a.

(** GROUP BY proj leaves [pc] one row for a project. *)
Lemma pc_one_per_project : forall g,
  (List.length (filter (fun c => (Report.pc_proj c =? g)%string)
                  (Report.pc creator_of owner_of proj_coll)) <= 1)%nat.
Proof.
  intros g. unfold Report.pc. rewrite filter_map_comm, length_map. simpl.
  apply filter_eqb_NoDup. unfold Sql.group_keys. apply NoDup_nodup.
Qed.

(** So the join with [pc] keeps the rows of the first join as they are. *)
Lemma joined_fst :
  map fst (Report.joined creator_of owner_of proj_coll proj_data pub_proj_data)
  = Sql.left_join on_p proj_data pub_proj_data.
Proof.
  unfold Report.joined. apply left_join_fst. intros ap _. apply pc_one_per_project.
Qed.

Lemma group_fst : forall g,
  map fst (Report.group creator_of owner_of proj_coll proj_data pub_proj_data g)
  = Sql.left_join on_p (Volume.of_project g proj_data) pub_proj_data.
Proof.
  intros g. unfold Report.group, Report.a_of.
  rewrite (map_filter_fst (fun x => (ProjData.proj (fst x) =? g)%string)), joined_fst.
  apply (left_join_filter_fst on_p (fun a => (ProjData.proj a =? g)%string)).
Qed.

Lemma block_tot : forall l,
  Sql.total (map (fun x => ProjData.data_size (fst x)) (Sql.left_join on_p l pub_proj_data))
  = Sql.total (map (Volume.tot_of_row pub_proj_data) l).
Proof.
  induction l as [|a l IH]; [reflexivity|].
  rewrite left_join_cons, map_app, total_app, IH.
  change (map (Volume.tot_of_row pub_proj_data) (a :: l))
    with ([Volume.tot_of_row pub_proj_data a] ++ map (Volume.tot_of_row pub_proj_data) l).
  rewrite total_app. f_equal.
  unfold Sql.left_join, Volume.tot_of_row, Volume.partners. simpl. rewrite app_nil_r.
  fold (on_p a).
  destruct (filter (on_p a) pub_proj_data) as [|b bs] eqn:E.
  - reflexivity.
  - cbn [map]. rewrite !total_cons, map_map. cbn [fst].
    rewrite (total_const (ProjData.data_size a) bs). cbn [List.length Sql.total fold_right].
    lia.
Qed.

Lemma block_pub : forall l,
  Sql.coalesce
    (Sql.sum (map (fun x => option_map PubProjData.data_size (snd x))
                (Sql.left_join on_p l pub_proj_data))) 0
  = Sql.total (map (Volume.pub_of_row pub_proj_data) l).
Proof.
  intros l. rewrite coalesce_sum, map_map.
  induction l as [|a l IH]; [reflexivity|].
  rewrite left_join_cons, map_app, total_app, IH.
  change (map (Volume.pub_of_row pub_proj_data) (a :: l))
    with ([Volume.pub_of_row pub_proj_data a] ++ map (Volume.pub_of_row pub_proj_data) l).
  rewrite total_app. f_equal.
  unfold Sql.left_join, Volume.pub_of_row, Volume.partners. simpl. rewrite app_nil_r.
  fold (on_p a).
  destruct (filter (on_p a) pub_proj_data) as [|b bs] eqn:E.
  - reflexivity.
  - cbn [map]. rewrite !total_cons, !map_map. cbn [snd option_map].
    cbn [Sql.total fold_right]. rewrite Z.add_0_r. reflexivity.
Qed.

(** [tot_vol] of a project: each of its rows, once for each partner the
    join gives it, or once when it has none. *)
Lemma tot_vol_formula : forall g,
  Report.tot_vol (Report.t_of creator_of owner_of proj_coll proj_data pub_proj_data g)
  = Sql.total (map (Volume.tot_of_row pub_proj_data) (Volume.of_project g proj_data)).
Proof.
  intros g. unfold Report.t_of. simpl.
  rewrite <- block_tot, <- group_fst, map_map. reflexivity.
Qed.

(** [pub_vol] of a project: the partners of its rows. *)
Lemma pub_vol_formula : forall g,
  Report.pub_vol (Report.t_of creator_of owner_of proj_coll proj_data pub_proj_data g)
  = Sql.total (map (Volume.pub_of_row pub_proj_data) (Volume.of_project g proj_data)).
Proof.
  intros g. unfold Report.t_of. simpl.
  rewrite <- block_pub, <- group_fst, map_map. reflexivity.
Qed.

(** The rows of the report are the projects of [proj_data]. *)
Lemma final_select_rows : forall row,
  In row (Report.final_select creator_of owner_of proj_coll proj_data pub_proj_data) <->
  In (Report.Project row) (map ProjData.proj proj_data)
  /\ row = Report.row_of
             (Report.t_of creator_of owner_of proj_coll proj_data pub_proj_data
                (Report.Project row)).
Proof.
  intros row. unfold Report.final_select. rewrite in_map_iff.
  assert (Hkeys : forall g,
    In g (Sql.sort (Sql.group_keys
            (map (fun j => ProjData.proj (Report.a_of j))
               (Report.joined creator_of owner_of proj_coll proj_data pub_proj_data))))
    <-> In g (map ProjData.proj proj_data)).
  { intros g. rewrite sort_In. unfold Sql.group_keys. rewrite nodup_In.
    unfold Report.a_of.
    rewrite <- (map_map fst (fun x => ProjData.proj (fst x))), joined_fst.
    rewrite <- (map_map fst ProjData.proj).
    rewrite !in_map_iff. split; intros [a [Hg Ha]]; exists a; (split; [assumption|]).
    - now apply (left_join_fst_In on_p) in Ha.
    - now apply (left_join_fst_In on_p). }
  split.
  - intros [g [Hrow Hg]]. subst row. simpl. split; [now apply Hkeys | reflexivity].
  - intros [Hg Hrow]. exists (Report.Project row). split; [now symmetry | now apply Hkeys].
Qed.

End FinalQuery.

(** ** The volumes of the report *)

Lemma round_gib_0 : Sql.round_gib 0 = 0.
Proof. reflexivity. Qed.

(** C8, the code on the example of the claim: one public data object of
    2^30 bytes.  The temporary tables hold it, in [proj_data] and in
    [pub_proj_data]; the final query, which reads the columns [creator]
    and [owner] of [proj_coll], is rejected, and the run raises where the
    claim has the row Total 1.000, Public 1.000, Private 0.000: no volume
    is reported, on this input or on another. *)
Theorem gib_example_reports_no_volume :
  get_local_zone Scenario.cat = Done "zoneX"
  /\ temp_tables Scenario.cat "zoneX" ["resA"]
     = Done ([ProjColl.mk "proj1" 10], [ProjData.mk "proj1" 10 100 (2 ^ 30)],
             [PubProjData.mk "proj1" 100 (2 ^ 30)])
  /\ pipeline Scenario.cat ["resA"]
     = Raised (ProgrammingError (undefined_column "creator"))
  /\ (forall cat roots rows, pipeline cat roots <> Done rows).
Proof.
  split; [reflexivity|]. split; [reflexivity|]. split; [reflexivity|].
  intros cat roots rows H. unfold pipeline in H.
  destruct (get_local_zone cat) as [zone| | |]; try discriminate.
  exact (gen_report_not_done _ _ _ _ H).
Qed.

(** ** Sums over lists *)

Section Sums.

Context {A : Type}.

Lemma total_map_add : forall (f g : A -> Z) (l : list A),
  Sql.total (map (fun x => f x + g x) l) = Sql.total (map f l) + Sql.total (map g l).
Proof.
  intros f g l. induction l as [|x l IH]; [reflexivity|].
  cbn [map]. rewrite !total_cons, IH. lia.
Qed.

Lemma total_map_sub : forall (f g : A -> Z) (l : list A),
  Sql.total (map (fun x => f x - g x) l) = Sql.total (map f l) - Sql.total (map g l).
Proof.
  intros f g l. induction l as [|x l IH]; [reflexivity|].
  cbn [map]. rewrite !total_cons, IH. lia.
Qed.

Lemma total_map_ext : forall (f g : A -> Z) (l : list A),
  (forall x, In x l -> f x = g x) -> Sql.total (map f l) = Sql.total (map g l).
Proof. intros f g l H. f_equal. now apply map_ext_in. Qed.

Lemma total_map_zero : forall (f : A -> Z) (l : list A),
  (forall x, In x l -> f x = 0) -> Sql.total (map f l) = 0.
Proof.
  intros f l H. induction l as [|x l IH]; [reflexivity|].
  cbn [map]. rewrite total_cons, H, IH; [reflexivity| |apply in_eq].
  intros y Hy. apply H. now apply in_cons.
Qed.

Lemma total_map_nonneg : forall (f : A -> Z) (l : list A),
  (forall x, In x l -> 0 <= f x) -> 0 <= Sql.total (map f l).
Proof.
  intros f l H. induction l as [|x l IH]; [reflexivity|].
  cbn [map]. rewrite total_cons.
  pose proof (H x (in_eq _ _)).
  assert (0 <= Sql.total (map f l)) by (apply IH; intros y Hy; apply H; now apply in_cons).
  lia.
Qed.

(** A sum over the rows a filter keeps, as a sum over all rows. *)
Lemma total_filter : forall (p : A -> bool) (f : A -> Z) (l : list A),
  Sql.total (map f (filter p l)) = Sql.total (map (fun x => if p x then f x else 0) l).
Proof.
  intros p f l. induction l as [|x l IH]; [reflexivity|].
  cbn [map filter]. destruct (p x); cbn [map]; rewrite !total_cons, IH; lia.
Qed.

(** Rows outside the support of [f] do not count. *)
Lemma total_support : forall (p : A -> bool) (f : A -> Z) (l : list A),
  (forall x, In x l -> p x = false -> f x = 0) ->
  Sql.total (map f l) = Sql.total (map f (filter p l)).
Proof.
  intros p f l H. rewrite total_filter. apply total_map_ext.
  intros x Hx. destruct (p x) eqn:E; [reflexivity | now apply H].
Qed.

(** A double sum of an antisymmetric function vanishes. *)
Lemma total_antisymmetric : forall (h : A -> A -> Z) (l : list A),
  (forall a b, In a l -> In b l -> h a b = - h b a) ->
  Sql.total (map (fun a => Sql.total (map (h a) l)) l) = 0.
Proof.
  intros h l. induction l as [|x l IH]; intros H; [reflexivity|].
  cbn [map]. rewrite !total_cons.
  rewrite (total_map_ext (fun a => Sql.total (h a x :: map (h a) l))
             (fun a => h a x + Sql.total (map (h a) l)))
    by (intros; apply total_cons).
  rewrite total_map_add, IH
    by (intros a b Ha Hb; apply H; now apply in_cons).
  assert (Hxx : h x x = 0) by (pose proof (H x x (in_eq _ _) (in_eq _ _)); lia).
  assert (Hcross : Sql.total (map (h x) l) + Sql.total (map (fun a => h a x) l) = 0).
  { rewrite <- total_map_add. apply total_map_zero.
    intros b Hb. pose proof (H x b (in_eq _ _) (in_cons _ _ _ Hb)). lia. }
  lia.
Qed.

Lemma filter_filter_implied : forall (f g : A -> bool) (l : list A),
  (forall x, In x l -> f x = true -> g x = true) ->
  filter f (filter g l) = filter f l.
Proof.
  intros f g l H. induction l as [|x l IH]; [reflexivity|].
  assert (IH' : filter f (filter g l) = filter f l)
    by (apply IH; intros y Hy; apply H; now apply in_cons).
  cbn [filter]. destruct (g x) eqn:Eg; cbn [filter]; rewrite IH'; [reflexivity|].
  destruct (f x) eqn:Ef; [|reflexivity].
  rewrite (H x (in_eq _ _) Ef) in Eg. discriminate.
Qed.

Lemma filter_filter_excluded : forall (f g : A -> bool) (l : list A),
  (forall x, In x l -> f x = true -> g x = false) ->
  filter f (filter g l) = [].
Proof.
  intros f g l H. apply filter_none. intros x Hx.
  apply filter_In in Hx as [Hx Hg].
  destruct (f x) eqn:Ef; [|reflexivity].
  rewrite (H x Hx Ef) in Hg. discriminate.
Qed.

End Sums.

(** ** Public and private bytes of a project *)

Section Partition.

Variable proj_data : list ProjData.t.
Variable pub_obj : list Z.

Let pub_proj_data := create_pub_proj_data_table proj_data pub_obj.
Let public := both_public pub_obj.

(** The copies of a data object lie in one collection of one project. *)
Hypothesis same_object : forall a b,
  In a proj_data -> In b proj_data -> ProjData.data_id a = ProjData.data_id b ->
  ProjData.coll_id a = ProjData.coll_id b /\ ProjData.proj a = ProjData.proj b.

Hypothesis sizes : forall a, In a proj_data -> 0 <= ProjData.data_size a.

(** The rows of [proj_data] for the data object of [a]. *)
Let copies (a : ProjData.t) : list ProjData.t :=
  filter (fun b => ProjData.data_id b =? ProjData.data_id a) proj_data.

Lemma public_same_object : forall a b,
  In a proj_data -> In b proj_data -> ProjData.data_id b = ProjData.data_id a ->
  public b = public a.
Proof.
  intros a b Ha Hb Hid. unfold public, both_public.
  destruct (same_object b a Hb Ha Hid) as [Hc _]. now rewrite Hc, Hid.
Qed.

Lemma partners_public : forall a, In a proj_data -> public a = true ->
  Volume.partners pub_proj_data a
  = map (fun r => PubProjData.mk (ProjData.proj r) (ProjData.data_id r)
                    (ProjData.data_size r)) (copies a).
Proof.
  intros a Ha Hp. unfold Volume.partners, pub_proj_data, create_pub_proj_data_table.
  rewrite filter_map_comm. cbn [PubProjData.data_id]. f_equal.
  apply filter_filter_implied. intros b Hb Hid. apply Z.eqb_eq in Hid.
  fold public. now rewrite (public_same_object a b).
Qed.

Lemma partners_private : forall a, In a proj_data -> public a = false ->
  Volume.partners pub_proj_data a = [].
Proof.
  intros a Ha Hp. unfold Volume.partners, pub_proj_data, create_pub_proj_data_table.
  rewrite filter_map_comm. cbn [PubProjData.data_id].
  rewrite filter_filter_excluded; [reflexivity|].
  intros b Hb Hid. apply Z.eqb_eq in Hid.
  fold public. now rewrite (public_same_object a b).
Qed.

Lemma copies_self : forall a, In a proj_data -> In a (copies a).
Proof.
  intros a Ha. apply filter_In. split; [assumption | apply Z.eqb_refl].
Qed.

(** What a row adds to [tot_vol] beyond what it adds to [pub_vol]. *)
Lemma row_difference : forall a, In a proj_data ->
  Volume.tot_of_row pub_proj_data a - Volume.pub_of_row pub_proj_data a
  = (if public a then 0 else ProjData.data_size a)
    + Sql.total
        (map (fun b => if public a && (ProjData.data_id b =? ProjData.data_id a)
                       then ProjData.data_size a - ProjData.data_size b else 0)
           proj_data).
Proof.
  intros a Ha. unfold Volume.tot_of_row, Volume.pub_of_row.
  destruct (public a) eqn:Hp.
  - rewrite (partners_public a Ha Hp). cbn [andb].
    rewrite <- (total_filter (fun b => ProjData.data_id b =? ProjData.data_id a)
                  (fun b => ProjData.data_size a - ProjData.data_size b)).
    fold (copies a). rewrite total_map_sub, total_const, map_map, length_map.
    cbn [PubProjData.data_size].
    destruct (copies a) as [|b bs] eqn:E.
    + pose proof (copies_self a Ha) as H. rewrite E in H. destruct H.
    + cbn [map]. rewrite Z.add_0_l. reflexivity.
  - rewrite (partners_private a Ha Hp). cbn [andb map].
    rewrite total_map_zero by reflexivity. cbn [Sql.total fold_right]. lia.
Qed.

Lemma pub_of_row_nonneg : forall a, In a proj_data ->
  0 <= Volume.pub_of_row pub_proj_data a.
Proof.
  intros a Ha. unfold Volume.pub_of_row. apply total_map_nonneg.
  intros p Hp. unfold Volume.partners in Hp. apply filter_In in Hp as [Hp _].
  apply pub_proj_data_member in Hp as [r [Hr [-> _]]]. now apply sizes.
Qed.

Lemma pub_of_row_private : forall a, In a proj_data -> public a = false ->
  Volume.pub_of_row pub_proj_data a = 0.
Proof.
  intros a Ha Hp. unfold Volume.pub_of_row. now rewrite partners_private.
Qed.

(** [tot_vol - pub_vol] of a project is its private bytes: the copies of
    a public object, joined with one another, cancel. *)
Lemma volume_difference : forall g,
  Sql.total (map (Volume.tot_of_row pub_proj_data) (Volume.of_project g proj_data))
  - Sql.total (map (Volume.pub_of_row pub_proj_data) (Volume.of_project g proj_data))
  = Volume.private_bytes pub_obj proj_data g.
Proof.
  intros g. unfold Volume.private_bytes. fold public.
  set (Y := Volume.of_project g proj_data).
  assert (HY : forall a, In a Y -> In a proj_data /\ ProjData.proj a = g).
  { intros a Ha. apply filter_In in Ha as [Ha Hg]. split; [assumption|].
    now apply String.eqb_eq. }
  set (h := fun a b => if public a && (ProjData.data_id b =? ProjData.data_id a)
                       then ProjData.data_size a - ProjData.data_size b else 0).
  rewrite <- total_map_sub.
  rewrite (total_map_ext _
             (fun a => (if public a then 0 else ProjData.data_size a)
                       + Sql.total (map (h a) Y))).
  - rewrite total_map_add, total_antisymmetric; [lia|].
    intros a b Ha Hb. unfold h.
    destruct (HY a Ha) as [Ha' _]. destruct (HY b Hb) as [Hb' _].
    rewrite (Z.eqb_sym (ProjData.data_id a) (ProjData.data_id b)).
    destruct (ProjData.data_id b =? ProjData.data_id a) eqn:E.
    + apply Z.eqb_eq in E. rewrite (public_same_object a b Ha' Hb' E).
      destruct (public a); cbn [andb]; lia.
    + rewrite !andb_false_r. reflexivity.
  - intros a Ha. destruct (HY a Ha) as [Ha' Hg].
    rewrite (row_difference a Ha'). f_equal. fold (h a).
    apply (total_support (fun b => (ProjData.proj b =? g)%string)).
    intros b Hb Hpb. unfold h.
    destruct (ProjData.data_id b =? ProjData.data_id a) eqn:E;
      [|now rewrite andb_false_r].
    apply Z.eqb_eq in E. destruct (same_object b a Hb Ha' E) as [_ Hproj].
    apply String.eqb_neq in Hpb. congruence.
Qed.

Lemma private_bytes_nonneg : forall g, 0 <= Volume.private_bytes pub_obj proj_data g.
Proof.
  intros g. unfold Volume.private_bytes. fold public. apply total_map_nonneg.
  intros a Ha. apply filter_In in Ha as [Ha _].
  destruct (public a); [lia | now apply sizes].
Qed.

Lemma pub_vol_nonneg : forall g,
  0 <= Sql.total (map (Volume.pub_of_row pub_proj_data) (Volume.of_project g proj_data)).
Proof.
  intros g. apply total_map_nonneg. intros a Ha. apply filter_In in Ha as [Ha _].
  now apply pub_of_row_nonneg.
Qed.

End Partition.

(** ** From the catalog to the temporary tables *)

Lemma NoDup_map_inj : forall {A B : Type} (f : A -> B) (l : list A),
  NoDup (map f l) -> forall a b, In a l -> In b l -> f a = f b -> a = b.
Proof.
  intros A B f l. induction l as [|x l IH]; intros H a b Ha Hb Hf; [destruct Ha|].
  cbn [map] in H. inversion H as [|? ? Hx Hl]; subst.
  destruct Ha as [->|Ha], Hb as [->|Hb]; try reflexivity.
  - exfalso. apply Hx. rewrite Hf. now apply in_map.
  - exfalso. apply Hx. rewrite <- Hf. now apply in_map.
  - now apply IH.
Qed.

Lemma NoDup_map_filter : forall {A B : Type} (f : A -> B) (p : A -> bool) (l : list A),
  NoDup (map f l) -> NoDup (map f (filter p l)).
Proof.
  intros A B f p l. induction l as [|x l IH]; intros H; [constructor|].
  cbn [map] in H. inversion H as [|? ? Hx Hl]; subst. cbn [filter].
  destruct (p x); [|now apply IH]. cbn [map]. constructor; [|now apply IH].
  intros Hin. apply Hx. apply in_map_iff in Hin as [y [Hy Hin]].
  apply filter_In in Hin as [Hin _]. rewrite <- Hy. now apply in_map.
Qed.

Section Tables.

Variable cat : catalog.
Variable zone : string.

Lemma proj_coll_rows : forall proj_coll,
  create_proj_coll_table cat zone = Done proj_coll ->
  Classifier.zone_ok zone = true
  /\ proj_coll = map (Classifier.row_of zone)
                   (filter (Classifier.selected zone) (r_coll_main cat)).
Proof.
  intros proj_coll. unfold create_proj_coll_table.
  destruct (Classifier.zone_ok zone); [|discriminate].
  intros H. inversion H. now split.
Qed.

(** A collection has one row in [proj_coll] at most. *)
Lemma proj_coll_unique : forall proj_coll,
  create_proj_coll_table cat zone = Done proj_coll ->
  NoDup (map Coll.coll_id (r_coll_main cat)) ->
  NoDup (map ProjColl.coll_id proj_coll).
Proof.
  intros proj_coll Hpc Hids. apply proj_coll_rows in Hpc as [_ ->].
  rewrite map_map. cbn [Classifier.row_of ProjColl.coll_id].
  now apply NoDup_map_filter.
Qed.

Lemma proj_data_member : forall proj_coll store_resc a,
  In a (create_proj_data_table cat proj_coll store_resc) <->
  exists c d, In c proj_coll /\ In d (r_data_main cat)
              /\ Data.coll_id d = ProjColl.coll_id c
              /\ In (Data.resc_id d) store_resc
              /\ a = ProjData.mk (ProjColl.proj c) (ProjColl.coll_id c)
                       (Data.data_id d) (Data.data_size d).
Proof.
  intros proj_coll store_resc a. unfold create_proj_data_table.
  rewrite in_flat_map. split.
  - intros [c [Hc Ha]]. apply in_map_iff in Ha as [d [Ha Hd]].
    apply filter_In in Hd as [Hd Hsel]. apply andb_true_iff in Hsel as [Hcoll Hresc].
    exists c, d. repeat split; try assumption.
    + now apply Z.eqb_eq.
    + now apply in_table_In.
    + now symmetry.
  - intros [c [d [Hc [Hd [Hcoll [Hresc Ha]]]]]]. exists c. split; [assumption|].
    apply in_map_iff. exists d. split; [now symmetry|].
    apply filter_In. split; [assumption|]. apply andb_true_iff. split.
    + now apply Z.eqb_eq.
    + now apply in_table_In.
Qed.

(** With collection identifiers unique, and the copies of a data object
    in one collection, the rows of [proj_data] for one data object share
    their collection and their project. *)
Lemma proj_data_same_object : forall proj_coll store_resc,
  NoDup (map ProjColl.coll_id proj_coll) ->
  (forall d1 d2, In d1 (r_data_main cat) -> In d2 (r_data_main cat) ->
                 Data.data_id d1 = Data.data_id d2 -> Data.coll_id d1 = Data.coll_id d2) ->
  forall a b,
  In a (create_proj_data_table cat proj_coll store_resc) ->
  In b (create_proj_data_table cat proj_coll store_resc) ->
  ProjData.data_id a = ProjData.data_id b ->
  ProjData.coll_id a = ProjData.coll_id b /\ ProjData.proj a = ProjData.proj b.
Proof.
  intros proj_coll store_resc Hids Hdata a b Ha Hb Hid.
  apply proj_data_member in Ha as [c [d [Hc [Hd [Hcd [_ ->]]]]]].
  apply proj_data_member in Hb as [c' [d' [Hc' [Hd' [Hcd' [_ ->]]]]]].
  cbn [ProjData.data_id ProjData.coll_id ProjData.proj] in *.
  assert (Hcc : c = c').
  { apply (NoDup_map_inj ProjColl.coll_id proj_coll Hids); try assumption.
    rewrite <- Hcd, <- Hcd'. now apply Hdata. }
  subst c'. now split.
Qed.

Lemma proj_data_sizes : forall proj_coll store_resc,
  (forall d, In d (r_data_main cat) -> 0 <= Data.data_size d) ->
  forall a, In a (create_proj_data_table cat proj_coll store_resc) ->
  0 <= ProjData.data_size a.
Proof.
  intros proj_coll store_resc Hsize a Ha.
  apply proj_data_member in Ha as [c [d [_ [Hd [_ [_ ->]]]]]]. now apply Hsize.
Qed.

Lemma temp_tables_done : forall roots proj_coll proj_data pub_proj_data,
  temp_tables cat zone roots = Done (proj_coll, proj_data, pub_proj_data) ->
  exists store_resc pub_obj,
    create_store_resc_table cat roots = Done store_resc
    /\ create_proj_coll_table cat zone = Done proj_coll
    /\ create_pub_obj_table cat = Done pub_obj
    /\ proj_data = create_proj_data_table cat proj_coll store_resc
    /\ pub_proj_data = create_pub_proj_data_table proj_data pub_obj.
Proof.
  intros roots proj_coll proj_data pub_proj_data. unfold temp_tables.
  stage (create_store_resc_table cat roots).
  stage (create_proj_coll_table cat zone).
  stage (create_pub_obj_table cat).
  intros H. inversion H; subst. eexists _, _. repeat split.
Qed.

End Tables.

(** ** Total, Public and Private *)

(** C3, the code on a project whose only data object does not pass the
    public filter (the collection is public, the object is not).  The
    temporary tables hold the object in [proj_data] and nothing in
    [pub_proj_data]; the final query is rejected and the run raises,
    where the claim has the project in the report with Public 0 and
    Private equal to Total: the project gets no row, and there is no
    report on any input. *)
Theorem private_project_reports_no_volume :
  create_pub_obj_table Scenario.cat_private_object = Done [10]
  /\ temp_tables Scenario.cat_private_object "zoneX" ["resA"]
     = Done ([ProjColl.mk "proj1" 10], [ProjData.mk "proj1" 10 100 (2 ^ 30)], [])
  /\ pipeline Scenario.cat_private_object ["resA"]
     = Raised (ProgrammingError (undefined_column "creator"))
  /\ (forall cat roots rows, pipeline cat roots <> Done rows).
Proof.
  split; [reflexivity|]. split; [reflexivity|]. split; [reflexivity|].
  intros cat roots rows H. unfold pipeline in H.
  destruct (get_local_zone cat) as [zone| | |]; try discriminate.
  exact (gen_report_not_done _ _ _ _ H).
Qed.

(** ** The rows of [proj_data] *)

Section Counting.

Context {A : Type}.

Lemma filter_filter_and : forall (f g : A -> bool) (l : list A),
  filter f (filter g l) = filter (fun x => f x && g x) l.
Proof.
  intros f g l. induction l as [|x l IH]; [reflexivity|].
  cbn [filter]. destruct (g x); cbn [filter]; rewrite IH.
  - now rewrite andb_true_r.
  - now rewrite andb_false_r.
Qed.

Lemma length_filter_split : forall (p q r : A -> bool) (l : list A),
  (forall x, In x l -> r x = p x || q x) ->
  (forall x, In x l -> p x = true -> q x = false) ->
  List.length (filter r l)
  = (List.length (filter p l) + List.length (filter q l))%nat.
Proof.
  intros p q r l. induction l as [|x l IH]; intros Hr Hex; [reflexivity|].
  assert (IH' : List.length (filter r l)
                = (List.length (filter p l) + List.length (filter q l))%nat).
  { apply IH; intros y Hy; [apply Hr | apply Hex]; now apply in_cons. }
  cbn [filter]. rewrite (Hr x (in_eq _ _)).
  destruct (p x) eqn:Ep.
  - rewrite (Hex x (in_eq _ _) Ep). cbn [orb List.length]. lia.
  - destruct (q x); cbn [orb List.length]; lia.
Qed.

End Counting.

Section Aggregator.

Variable cat : catalog.
Variable store_resc : list Z.

Let counted := Volume.counted store_resc.

Lemma proj_data_cons : forall c proj_coll,
  create_proj_data_table cat (c :: proj_coll) store_resc
  = create_proj_data_table cat [c] store_resc
    ++ create_proj_data_table cat proj_coll store_resc.
Proof.
  intros c proj_coll. unfold create_proj_data_table. cbn [flat_map].
  now rewrite app_nil_r.
Qed.

(** [proj_data] has one row for each counted row of [r_data_main]. *)
Lemma proj_data_count : forall (x : Z) (proj_coll : list ProjColl.t),
  NoDup (map ProjColl.coll_id proj_coll) ->
  List.length (filter (fun a => ProjData.data_id a =? x)
                 (create_proj_data_table cat proj_coll store_resc))
  = List.length (filter (counted x (map ProjColl.coll_id proj_coll)) (r_data_main cat)).
Proof.
  intros x proj_coll. induction proj_coll as [|c proj_coll IH]; intros Hnd.
  - cbn [map create_proj_data_table flat_map filter List.length].
    rewrite filter_none; [reflexivity|].
    intros d _. unfold counted, Volume.counted. cbn [in_table existsb]. apply andb_false_r.
  - cbn [map] in Hnd. inversion Hnd as [|? ? Hc Hrest]; subst.
    rewrite proj_data_cons, filter_app, length_app, (IH Hrest). clear IH.
    unfold create_proj_data_table at 1. cbn [flat_map]. rewrite app_nil_r.
    rewrite filter_map_comm, length_map. cbn [ProjData.data_id].
    rewrite filter_filter_and. symmetry.
    apply length_filter_split.
    + intros d _. unfold counted, Volume.counted. cbn [map in_table existsb].
      fold (in_table (Data.coll_id d) (map ProjColl.coll_id proj_coll)).
      destruct (Data.data_id d =? x), (in_table (Data.resc_id d) store_resc),
        (Data.coll_id d =? ProjColl.coll_id c),
        (in_table (Data.coll_id d) (map ProjColl.coll_id proj_coll)); reflexivity.
    + intros d _ Hd. unfold counted, Volume.counted.
      apply andb_true_iff in Hd as [_ Hd]. apply andb_true_iff in Hd as [Hd _].
      apply Z.eqb_eq in Hd.
      destruct (in_table (Data.coll_id d) (map ProjColl.coll_id proj_coll)) eqn:E;
        [|apply andb_false_r].
      apply in_table_In in E. rewrite Hd in E. contradiction.
Qed.

End Aggregator.

(** C5, counterexample.  A data object with a copy on each of two
    resolved resources has two rows in [proj_data]: its identifier
    contributes twice to the project. *)
Lemma replicated_object_counted_twice :
  create_store_resc_table Scenario.cat_replicated ["resA"] = Done [1; 2; 3]
  /\ create_proj_coll_table Scenario.cat_replicated "zoneX" = Done [ProjColl.mk "proj1" 10]
  /\ map ProjData.data_id
       (create_proj_data_table Scenario.cat_replicated [ProjColl.mk "proj1" 10] [1; 2; 3])
     = [100; 100].
Proof. repeat split. Qed.

(** C5, as amended.  Every row of [proj_data] is made of a row of
    [proj_coll] and a row of [r_data_main] in that collection whose
    [resc_id] is in [store_resc]; and with collection identifiers unique,
    [proj_data] has exactly one row for each row of [r_data_main] that
    lies on a resolved resource in a classified collection: a data object
    is counted once for each of its copies there, once when it has one. *)
Theorem proj_data_on_resolved_resources :
  forall (cat : catalog) (zone : string) (store_resc : list Z)
         (proj_coll : list ProjColl.t),
  create_proj_coll_table cat zone = Done proj_coll ->
  NoDup (map Coll.coll_id (r_coll_main cat)) ->
  (forall a, In a (create_proj_data_table cat proj_coll store_resc) ->
     exists c d, In c proj_coll /\ In d (r_data_main cat)
                 /\ Data.coll_id d = ProjColl.coll_id c
                 /\ In (Data.resc_id d) store_resc
                 /\ a = ProjData.mk (ProjColl.proj c) (ProjColl.coll_id c)
                          (Data.data_id d) (Data.data_size d))
  /\ (forall x,
        List.length (filter (fun a => ProjData.data_id a =? x)
                       (create_proj_data_table cat proj_coll store_resc))
        = List.length (filter (Volume.counted store_resc x
                                 (map ProjColl.coll_id proj_coll))
                         (r_data_main cat))).
Proof.
  intros cat zone store_resc proj_coll Hpc Hcolls. split.
  - intros a Ha. now apply proj_data_member.
  - intros x. apply proj_data_count. now apply (proj_coll_unique cat zone).
Qed.

(** C5 at the scenario of the specification: one copy, one row. *)
Lemma proj_data_on_resolved_resources_witness :
  create_proj_coll_table Scenario.cat "zoneX" = Done [ProjColl.mk "proj1" 10]
  /\ NoDup (map Coll.coll_id (r_coll_main Scenario.cat))
  /\ List.length (filter (fun a => ProjData.data_id a =? 100)
                    (create_proj_data_table Scenario.cat [ProjColl.mk "proj1" 10] [1; 2]))
     = 1%nat.
Proof.
  assert (Hcolls : NoDup (map Coll.coll_id (r_coll_main Scenario.cat)))
    by (repeat constructor; simpl; tauto).
  split; [reflexivity|]. split; [exact Hcolls|].
  rewrite (proj2 (proj_data_on_resolved_resources Scenario.cat "zoneX" [1; 2]
                    [ProjColl.mk "proj1" 10] eq_refl Hcolls) 100).
  reflexivity.
Defined.

(** ** The text of the seed query *)

Section TextFacts.

Import Text.

Lemma append_assoc : forall a b c : string,
  ((a ++ b) ++ c = a ++ (b ++ c))%string.
Proof.
  intros a b c. induction a as [|x a IH]; simpl; [reflexivity | now rewrite IH].
Qed.

Lemma length_append : forall a b : string,
  String.length (a ++ b) = (String.length a + String.length b)%nat.
Proof.
  intros a b. induction a as [|x a IH]; simpl; [reflexivity | now rewrite IH].
Qed.

Lemma contains_append : forall c a b,
  contains c (a ++ b) = contains c a || contains c b.
Proof.
  intros c a b. induction a as [|x a IH]; simpl; [reflexivity|].
  now rewrite IH, orb_assoc.
Qed.

(** A constant without a quote is read back as it was written. *)
Lemma string_constant_plain : forall n rest,
  contains quote n = false ->
  match rest with String c _ => Ascii.eqb c quote = false | EmptyString => True end ->
  string_constant (n ++ String quote rest) = Some (n, rest).
Proof.
  intros n rest. induction n as [|x n IH]; intros Hn Hrest.
  - cbn [append string_constant]. rewrite Ascii.eqb_refl.
    destruct rest as [|c rest']; [reflexivity|]. now rewrite Hrest.
  - cbn [contains] in Hn. apply orb_false_iff in Hn as [Hx Hn].
    cbn [append string_constant]. rewrite Hx, (IH Hn Hrest). reflexivity.
Qed.

(** The text before a colon-free stretch does not matter after it. *)
Lemma bind_param_no_colon : forall m rest prev,
  contains colon m = false ->
  exists prev', bind_param_from prev (m ++ rest) = bind_param_from prev' rest.
Proof.
  intros m rest. induction m as [|x m IH]; intros prev Hm.
  - exists prev. reflexivity.
  - cbn [contains] in Hm. apply orb_false_iff in Hm as [Hx Hm].
    destruct (IH (Some x) Hm) as [prev' Hprev'].
    exists prev'. cbn [append bind_param_from]. rewrite Hx. exact Hprev'.
Qed.

End TextFacts.

Section SeedQuery.

Import Text.

Lemma resources_str_cons : forall n ns,
  Resolver.resources_str (n :: ns)
  = (String quote (n ++ String quote
       match ns with
       | [] => EmptyString
       | _ :: _ => String "," (String " " (Resolver.resources_str ns))
       end))%string.
Proof.
  intros n ns. unfold Resolver.resources_str. cbn [map String.concat].
  destruct ns as [|n' ns]; cbn [map append]; rewrite ?append_assoc; reflexivity.
Qed.

Lemma resources_str_length : forall names,
  (List.length names <= String.length (Resolver.resources_str names))%nat.
Proof.
  induction names as [|n ns IH]; [simpl; lia|].
  rewrite resources_str_cons. cbn [List.length String.length].
  rewrite length_append. destruct ns; cbn [String.length List.length] in *; lia.
Qed.

Lemma resources_str_no_colon : forall names,
  (forall n, In n names -> plain n) ->
  contains colon (Resolver.resources_str names) = false.
Proof.
  induction names as [|n ns IH]; intros H; [reflexivity|].
  rewrite resources_str_cons. cbn [contains]. rewrite contains_append.
  destruct (H n (in_eq _ _)) as [_ Hn]. rewrite Hn. cbn [contains orb].
  destruct ns as [|n' ns]; [reflexivity|]. cbn [contains orb].
  apply IH. intros m Hm. apply H. now apply in_cons.
Qed.

Lemma skip_blanks_quote : forall s, skip_blanks (String quote s) = String quote s.
Proof. reflexivity. Qed.

Lemma skip_blanks_comma : forall s, skip_blanks (String "," s) = String "," s.
Proof. reflexivity. Qed.

Lemma skip_blanks_blank : forall s, skip_blanks (String " " s) = skip_blanks s.
Proof. reflexivity. Qed.

(** The list between the parentheses is read back as the list of names. *)
Lemma constant_list_names : forall names fuel,
  names <> [] -> (forall n, In n names -> plain n) ->
  (List.length names <= fuel)%nat ->
  constant_list fuel (Resolver.resources_str names) = Some names.
Proof.
  induction names as [|n ns IH]; intros fuel Hne H Hfuel; [contradiction|].
  destruct fuel as [|k]; [cbn [List.length] in Hfuel; lia|].
  rewrite resources_str_cons. cbn [constant_list].
  rewrite skip_blanks_quote, Ascii.eqb_refl.
  destruct (H n (in_eq _ _)) as [Hq _].
  destruct ns as [|n' ns].
  - rewrite (string_constant_plain n EmptyString Hq I). reflexivity.
  - rewrite (string_constant_plain n _ Hq) by reflexivity.
    rewrite skip_blanks_comma, Ascii.eqb_refl.
    assert (Hrec : constant_list k (String " " (Resolver.resources_str (n' :: ns)))
                   = Some (n' :: ns)).
    { destruct k as [|k']; [cbn [List.length] in Hfuel; lia|].
      specialize (IH (S k') ltac:(discriminate)
                    (fun m Hm => H m (in_cons _ _ _ Hm))
                    ltac:(cbn [List.length] in *; lia)).
      cbn [constant_list] in IH |- *. rewrite skip_blanks_blank. exact IH. }
    rewrite Hrec. reflexivity.
Qed.

Lemma parse_in_list_names : forall names,
  names <> [] -> (forall n, In n names -> plain n) ->
  parse_in_list (Resolver.resources_str names) = InValues names.
Proof.
  intros names Hne H. unfold parse_in_list.
  rewrite constant_list_names; try assumption.
  - destruct names as [|n ns]; [contradiction|].
    rewrite resources_str_cons. reflexivity.
  - pose proof (resources_str_length names). lia.
Qed.

Lemma no_bind_param : forall names,
  (forall n, In n names -> plain n) ->
  has_bind_param (Resolver.recursive_query (Resolver.resources_str names)) = false.
Proof.
  intros names H. unfold has_bind_param, Resolver.recursive_query.
  pose proof (resources_str_no_colon names H) as Hstr.
  repeat match goal with
         | |- bind_param_from ?p (?a ++ ?r) = false =>
             let p' := fresh "p" in
             destruct (bind_param_no_colon a r p ltac:(first [exact Hstr | reflexivity]))
               as [p' ->]
         end.
  match goal with |- bind_param_from ?p _ = false => destruct p; reflexivity end.
Qed.

End SeedQuery.

Lemma create_store_resc_table_plain : forall cat names,
  names <> [] -> (forall n, In n names -> Text.plain n) ->
  create_store_resc_table cat names
  = match Resolver.resc_hier (r_resc_main cat) (Resolver.fuel_for cat) names with
    | Some hier => Done (map fst hier)
    | None => OutOfFuel
    end.
Proof.
  intros cat names Hne H. unfold create_store_resc_table.
  now rewrite no_bind_param, parse_in_list_names.
Qed.

(** C9, counterexample.  Lists of names without a quote for which the
    query matches no resource at all: the empty list (PostgreSQL rejects
    [IN ()]) and a name in which [text] finds a bind parameter. *)
Lemma quote_free_names_rejected :
  create_store_resc_table Scenario.cat [] = Raised (ProgrammingError syntax_error)
  /\ Text.contains Text.quote "resA :leaf" = false
  /\ Text.has_bind_param
       (Resolver.recursive_query (Resolver.resources_str ["resA :leaf"])) = true
  /\ create_store_resc_table Scenario.cat ["resA :leaf"] = Raised StatementError.
Proof. repeat split. Qed.

(** C9, as amended.  Each root name is written between single quotes in
    the text of the query.  For a list that is not empty, of names with
    neither a quote nor a colon, [text] finds no bind parameter, the list
    between the parentheses of [IN] is read as these names, each a
    constant, and the seed of the query is the resources bearing one of
    them.  A name with a quote is not read as one constant:
    [resA', 'resB] is read as the two names [resA] and [resB]. *)
Theorem seed_query_reads_plain_names :
  forall (cat : catalog) (names : list string),
  names <> [] -> (forall n, In n names -> Text.plain n) ->
  Text.has_bind_param (Resolver.recursive_query (Resolver.resources_str names)) = false
  /\ Text.parse_in_list (Resolver.resources_str names) = Text.InValues names
  /\ create_store_resc_table cat names
     = match Resolver.resc_hier (r_resc_main cat) (Resolver.fuel_for cat) names with
       | Some hier => Done (map fst hier)
       | None => OutOfFuel
       end
  /\ (forall h, In h (Resolver.seed (r_resc_main cat) names) <->
        exists m, In m (r_resc_main cat) /\ In (Resc.resc_name m) names
                  /\ h = (Resc.resc_id m, Resc.resc_net m))
  /\ (Text.contains Text.quote "resA', 'resB" = true
      /\ Resolver.resources_str ["resA', 'resB"] = "'resA', 'resB'"
      /\ Text.parse_in_list (Resolver.resources_str ["resA', 'resB"])
         = Text.InValues ["resA"; "resB"]).
Proof.
  intros cat names Hne H. split; [now apply no_bind_param|].
  split; [now apply parse_in_list_names|].
  split; [now apply create_store_resc_table_plain|].
  split; [|repeat split].
  intros h. unfold Resolver.seed. rewrite in_map_iff. split.
  - intros [m [Hh Hm]]. apply filter_In in Hm as [Hm Hn].
    apply existsb_In_string in Hn. exists m. now repeat split.
  - intros [m [Hm [Hn ->]]]. exists m. split; [reflexivity|].
    apply filter_In. split; [assumption | now apply existsb_In_string].
Qed.

(** C9 at the root of the scenario. *)
Lemma seed_query_reads_plain_names_witness :
  ["resA"] <> []
  /\ Text.parse_in_list (Resolver.resources_str ["resA"]) = Text.InValues ["resA"]
  /\ create_store_resc_table Scenario.cat ["resA"] = Done [1; 2].
Proof.
  assert (Hne : ["resA"] <> []) by discriminate.
  assert (Hplain : forall n, In n ["resA"] -> Text.plain n)
    by (intros n [<-|[]]; split; reflexivity).
  destruct (seed_query_reads_plain_names Scenario.cat ["resA"] Hne Hplain)
    as [_ [Hparse [Hrun _]]].
  exact (conj Hne (conj Hparse Hrun)).
Defined.

(** ** The recursive query *)

Section Closure.

Import Resolver.

Variable resc : list Resc.t.

(** Every row the query can ever hold. *)
Let universe : list hier_row := map row_of resc.

Lemma seed_universe : forall names, incl (seed resc names) universe.
Proof.
  intros names h Hh. unfold seed in Hh. apply in_map_iff in Hh as [m [<- Hm]].
  apply filter_In in Hm as [Hm _]. now apply in_map.
Qed.

Lemma children_universe : forall h, incl (children resc h) universe.
Proof.
  intros h x Hx. unfold children in Hx.
  destruct (snd h =? EMPTY_RESC_HOST)%string; [|destruct Hx].
  apply in_map_iff in Hx as [m [<- Hm]].
  apply filter_In in Hm as [Hm _]. now apply in_map.
Qed.

Lemma recursive_term_universe : forall working, incl (recursive_term resc working) universe.
Proof.
  intros working x Hx. unfold recursive_term in Hx.
  apply in_flat_map in Hx as [h [_ Hx]]. now apply (children_universe h).
Qed.

Lemma unseen_true : forall result h, unseen result h = true <-> ~ In h result.
Proof.
  intros result h. unfold unseen.
  destruct (in_dec hier_row_dec h result); split; intros; try tauto; discriminate.
Qed.

(** The rows one round adds. *)
Let fresh (result working : list hier_row) : list hier_row :=
  nodup hier_row_dec (filter (unseen result) (recursive_term resc working)).

Lemma fresh_In : forall result working x,
  In x (fresh result working) <->
  In x (recursive_term resc working) /\ ~ In x result.
Proof.
  intros result working x. unfold fresh.
  now rewrite nodup_In, filter_In, unseen_true.
Qed.

Lemma iterate_step : forall k result h working,
  iterate resc (S k) result (h :: working)
  = iterate resc k (result ++ fresh result (h :: working)) (fresh result (h :: working)).
Proof. reflexivity. Qed.

Lemma NoDup_append : forall (l1 l2 : list hier_row),
  NoDup l1 -> NoDup l2 -> (forall x, In x l2 -> ~ In x l1) -> NoDup (l1 ++ l2).
Proof.
  intros l1 l2 H1 H2 Hdis. induction H1 as [|x l1 Hx H1 IH]; [assumption|].
  cbn [app]. constructor.
  - intros Hin. apply in_app_or in Hin as [Hin|Hin]; [contradiction|].
    apply (Hdis x Hin). apply in_eq.
  - apply IH. intros y Hy Hin. apply (Hdis y Hy). now apply in_cons.
Qed.

(** The query ends: every round but the last adds a row of the universe
    that the result did not have. *)
Lemma iterate_ends : forall fuel result working,
  NoDup result -> incl result universe ->
  (List.length universe < fuel + List.length result)%nat ->
  exists final, iterate resc fuel result working = Some final.
Proof.
  induction fuel as [|k IH]; intros result working Hnd Hincl Hfuel.
  - pose proof (NoDup_incl_length Hnd Hincl). lia.
  - destruct working as [|h working]; [now exists result|].
    rewrite iterate_step. set (new := fresh result (h :: working)).
    destruct new as [|x new'] eqn:Enew.
    + exists (result ++ []). destruct k; reflexivity.
    + rewrite <- Enew. apply IH.
      * apply NoDup_append; [assumption | apply NoDup_nodup |].
        intros y Hy. now apply fresh_In in Hy.
      * intros y Hy. apply in_app_or in Hy as [Hy|Hy]; [now apply Hincl|].
        apply fresh_In in Hy as [Hy _]. now apply (recursive_term_universe (h :: working)).
      * rewrite length_app. subst new. rewrite Enew. cbn [List.length]. lia.
Qed.

(** What the query returns holds the rows it started from and the
    children of each of its rows. *)
Lemma iterate_closed : forall fuel result working final,
  iterate resc fuel result working = Some final ->
  incl working result -> closed_but resc result working ->
  incl result final /\ (forall h, In h final -> incl (children resc h) final).
Proof.
  induction fuel as [|k IH]; intros result working final Hrun Hwork Hclosed.
  - destruct working as [|h working]; [|discriminate].
    inversion Hrun; subst. split; [apply incl_refl|].
    intros h Hh. apply Hclosed; [assumption | intros []].
  - destruct working as [|h working].
    + inversion Hrun; subst. split; [apply incl_refl|].
      intros h Hh. apply Hclosed; [assumption | intros []].
    + rewrite iterate_step in Hrun.
      apply IH in Hrun as [Hincl Hfinal].
      * split; [|assumption]. intros x Hx. apply Hincl. apply in_or_app. now left.
      * intros x Hx. apply in_or_app. now right.
      * intros x Hx Hnew y Hy.
        apply in_app_or in Hx as [Hx|Hx]; [|contradiction].
        destruct (in_dec hier_row_dec x (h :: working)) as [Hw|Hw].
        -- destruct (in_dec hier_row_dec y result) as [Hr|Hr];
             apply in_or_app; [now left | right].
           apply fresh_In. split; [|assumption].
           unfold recursive_term. apply in_flat_map. now exists x.
        -- apply in_or_app. left. now apply (Hclosed x Hx Hw).
Qed.

(** More rounds than the query needs change nothing. *)
Lemma iterate_more_fuel : forall fuel result working final,
  iterate resc fuel result working = Some final ->
  forall fuel', (fuel <= fuel')%nat -> iterate resc fuel' result working = Some final.
Proof.
  induction fuel as [|k IH]; intros result working final Hrun fuel' Hle.
  - destruct working; [|discriminate]. destruct fuel'; exact Hrun.
  - destruct working as [|h working]; [destruct fuel'; exact Hrun|].
    destruct fuel' as [|k']; [lia|].
    rewrite iterate_step in *. apply (IH _ _ _ Hrun). lia.
Qed.

Lemma resc_hier_ends : forall names,
  exists hier, resc_hier resc (S (List.length resc)) names = Some hier.
Proof.
  intros names. unfold resc_hier. apply iterate_ends.
  - apply NoDup_nodup.
  - intros h Hh. apply nodup_In in Hh. now apply (seed_universe names).
  - unfold universe. rewrite length_map. lia.
Qed.

Lemma resc_hier_closed : forall fuel names hier,
  resc_hier resc fuel names = Some hier ->
  incl (seed resc names) hier /\ (forall h, In h hier -> incl (children resc h) hier).
Proof.
  intros fuel names hier Hrun. unfold resc_hier in Hrun.
  apply iterate_closed in Hrun as [Hseed Hclosed].
  - split; [|assumption]. intros h Hh. apply Hseed. now apply nodup_In.
  - apply incl_refl.
  - intros h Hh Hnot. contradiction.
Qed.

(** A row of the result is a row of some resource. *)
Lemma iterate_universe : forall fuel result working final,
  iterate resc fuel result working = Some final ->
  incl result universe -> incl final universe.
Proof.
  induction fuel as [|k IH]; intros result working final Hrun Hincl.
  - destruct working; [|discriminate]. now inversion Hrun; subst.
  - destruct working as [|h working]; [now inversion Hrun; subst|].
    rewrite iterate_step in Hrun. apply (IH _ _ _ Hrun).
    intros y Hy. apply in_app_or in Hy as [Hy|Hy]; [now apply Hincl|].
    apply fresh_In in Hy as [Hy _]. now apply (recursive_term_universe (h :: working)).
Qed.

Lemma resc_hier_universe : forall fuel names hier,
  resc_hier resc fuel names = Some hier -> incl hier universe.
Proof.
  intros fuel names hier Hrun. unfold resc_hier in Hrun.
  apply (iterate_universe _ _ _ _ Hrun).
  intros h Hh. apply nodup_In in Hh. now apply (seed_universe names).
Qed.

End Closure.

Lemma seed_unknown_name : forall resc n names,
  (forall m, In m resc -> Resc.resc_name m <> n) ->
  Resolver.seed resc (n :: names) = Resolver.seed resc names.
Proof.
  intros resc n names H. unfold Resolver.seed. f_equal. apply filter_ext_in.
  intros m Hm. cbn [existsb].
  destruct (Resc.resc_name m =? n)%string eqn:E; [|reflexivity].
  apply String.eqb_eq in E. now apply H in Hm.
Qed.

(** C4, counterexample.  The root name [resA', 'resB] is the name of a
    resource of the catalog, the query is accepted, and the resolved set
    does not hold that resource. *)
Lemma quoted_root_not_resolved :
  In (Resc.mk 4 "resA', 'resB" "" "other.example.org") (r_resc_main Scenario.cat_quoted)
  /\ In (Resc.resc_name (Resc.mk 4 "resA', 'resB" "" "other.example.org"))
        ["resA', 'resB"]
  /\ create_store_resc_table Scenario.cat_quoted ["resA', 'resB"] = Done [1; 2]
  /\ ~ In (Resc.resc_id (Resc.mk 4 "resA', 'resB" "" "other.example.org")) [1; 2].
Proof.
  repeat split.
  - simpl. tauto.
  - now left.
  - simpl. intros [H|[H|[]]]; discriminate.
Qed.

(** C4, as amended.  For a list of root names that is not empty, each
    without a quote or a colon, and a catalog whose resource identifiers
    are unique, the resolver returns a set; the set holds every resource
    whose name is in the list; a name no resource bears adds nothing; with
    a member whose network attribute is [EMPTY_RESC_HOST] the set holds
    every resource whose parent that member is; and the query has reached
    its fixed point within the rounds it is given: more rounds return the
    same rows. *)
Theorem resolved_set_closed :
  forall (cat : catalog) (roots : list string),
  roots <> [] -> (forall n, In n roots -> Text.plain n) ->
  NoDup (map Resc.resc_id (r_resc_main cat)) ->
  exists store_resc,
    create_store_resc_table cat roots = Done store_resc
    /\ (forall m, In m (r_resc_main cat) -> In (Resc.resc_name m) roots ->
                  In (Resc.resc_id m) store_resc)
    /\ (forall n, Text.plain n ->
                  (forall m, In m (r_resc_main cat) -> Resc.resc_name m <> n) ->
                  create_store_resc_table cat (n :: roots) = Done store_resc)
    /\ (forall r m, In r (r_resc_main cat) -> In m (r_resc_main cat) ->
                    In (Resc.resc_id r) store_resc ->
                    Resc.resc_net r = "EMPTY_RESC_HOST" ->
                    Resc.resc_parent m = Text.text_of_bigint (Resc.resc_id r) ->
                    In (Resc.resc_id m) store_resc)
    /\ (forall fuel, (Resolver.fuel_for cat <= fuel)%nat ->
          exists hier, Resolver.resc_hier (r_resc_main cat) fuel roots = Some hier
                       /\ map fst hier = store_resc).
Proof.
  intros cat roots Hne Hplain Hids.
  destruct (resc_hier_ends (r_resc_main cat) roots) as [hier Hrun].
  fold (Resolver.fuel_for cat) in Hrun.
  destruct (resc_hier_closed _ _ _ _ Hrun) as [Hseed Hclosed].
  exists (map fst hier). split; [|split; [|split; [|split]]].
  - rewrite create_store_resc_table_plain by assumption. now rewrite Hrun.
  - intros m Hm Hname.
    change (Resc.resc_id m) with (fst (Resolver.row_of m)). apply in_map, Hseed.
    unfold Resolver.seed. apply in_map, filter_In.
    split; [assumption | now apply existsb_In_string].
  - intros n Hn Hunknown.
    rewrite create_store_resc_table_plain.
    + unfold Resolver.resc_hier in *. rewrite seed_unknown_name by assumption.
      now rewrite Hrun.
    + discriminate.
    + intros n' [<-|Hn']; [assumption | now apply Hplain].
  - intros r m Hr Hm Hmember Hnet Hparent.
    apply in_map_iff in Hmember as [h [Hfst Hh]].
    pose proof (resc_hier_universe _ _ _ _ Hrun h Hh) as Hu.
    apply in_map_iff in Hu as [r' [Hrow Hr']].
    assert (r' = r).
    { apply (NoDup_map_inj Resc.resc_id _ Hids); try assumption.
      rewrite <- Hfst, <- Hrow. reflexivity. }
    subst r' h.
    change (Resc.resc_id m) with (fst (Resolver.row_of m)). apply in_map.
    apply (Hclosed (Resolver.row_of r) Hh).
    unfold Resolver.children, Resolver.row_of. cbn [fst snd].
    rewrite Hnet. cbn. apply in_map_iff. exists m. split; [reflexivity|].
    apply filter_In. split; [assumption|]. now apply String.eqb_eq.
  - intros fuel Hfuel. exists hier. split; [|reflexivity].
    unfold Resolver.resc_hier in *. now apply (iterate_more_fuel _ _ _ _ _ Hrun).
Qed.

(** C4 at the scenario of the specification. *)
Lemma resolved_set_closed_witness :
  ["resA"] <> []
  /\ NoDup (map Resc.resc_id (r_resc_main Scenario.cat))
  /\ exists store_resc,
       create_store_resc_table Scenario.cat ["resA"] = Done store_resc
       /\ In 1 store_resc /\ In 2 store_resc.
Proof.
  assert (Hne : ["resA"] <> []) by discriminate.
  assert (Hplain : forall n, In n ["resA"] -> Text.plain n)
    by (intros n [<-|[]]; split; reflexivity).
  assert (Hids : NoDup (map Resc.resc_id (r_resc_main Scenario.cat))).
  { repeat constructor; simpl; intuition discriminate. }
  split; [exact Hne|]. split; [exact Hids|].
  destruct (resolved_set_closed Scenario.cat ["resA"] Hne Hplain Hids)
    as [store_resc [Hrun [Hroots [_ [Hchildren _]]]]].
  exists store_resc. split; [exact Hrun|].
  assert (H1 : In 1 store_resc).
  { apply (Hroots (Resc.mk 1 "resA" "" "EMPTY_RESC_HOST")); simpl; tauto. }
  split; [exact H1|].
  apply (Hchildren (Resc.mk 1 "resA" "" "EMPTY_RESC_HOST")
           (Resc.mk 2 "resA-leaf" "1" "leaf.example.org")); simpl; tauto.
Defined.

(** ** The classifier *)

Section Patterns.

Import Text.

Lemma match_head_self : forall any pat s,
  match_head any pat (pat ++ s) = Some s.
Proof.
  intros any pat s. induction pat as [|p pat IH]; [reflexivity|].
  cbn [append match_head]. now rewrite Ascii.eqb_refl, orb_true_r.
Qed.

Lemma match_head_short : forall any pat s,
  (String.length s < String.length pat)%nat -> match_head any pat s = None.
Proof.
  intros any pat. induction pat as [|p pat IH]; intros s Hlen.
  - cbn [String.length] in Hlen. lia.
  - destruct s as [|c s]; [reflexivity|]. cbn [match_head].
    destruct (Ascii.eqb p any || Ascii.eqb p c); [|reflexivity].
    apply IH. cbn [String.length] in Hlen. lia.
Qed.

Lemma segment_first : forall seg rest,
  contains slash seg = false ->
  match rest with String c _ => c = slash | EmptyString => True end ->
  segment (seg ++ rest) = seg.
Proof.
  intros seg rest. induction seg as [|x seg IH]; intros Hseg Hrest.
  - cbn [append]. destruct rest as [|c rest']; [reflexivity|].
    subst c. cbn [segment]. now rewrite Ascii.eqb_refl.
  - cbn [contains] in Hseg. apply orb_false_iff in Hseg as [Hx Hseg].
    cbn [append segment]. rewrite Hx. f_equal. now apply IH.
Qed.

Lemma regexp_replace_unfold : forall zone s,
  Classifier.regexp_replace zone s
  = match Classifier.match_here zone s with
    | Some seg => seg
    | None =>
        match s with
        | String c rest => String c (Classifier.regexp_replace zone rest)
        | EmptyString => EmptyString
        end
    end.
Proof. intros zone s. destruct s; reflexivity. Qed.

End Patterns.

(** C6, the code on a project named [commons-repo].  In SIMILAR TO the
    [_] of [commons_repo] stands for any one character, so the project
    [/zoneX/home/shared/commons-repo] and the collection below it are
    left out with the reserved ones: of the six collections under the
    shared root only that of [proj1] is classified. *)
Theorem commons_repo_underscore_is_a_wildcard :
  create_proj_coll_table Scenario.cat_commons "zoneX" = Done [ProjColl.mk "proj1" 10]
  /\ Classifier.similar_to_commons_repo "zoneX" "/zoneX/home/shared/commons-repo" = true
  /\ Classifier.selected "zoneX" (Coll.mk 13 "/zoneX/home/shared/commons-repo" "carol")
     = false
  /\ Classifier.selected "zoneX" (Coll.mk 14 "/zoneX/home/shared/commons-repo/data" "carol")
     = false
  /\ create_proj_data_table Scenario.cat_commons [ProjColl.mk "proj1" 10] [1; 2]
     = [ProjData.mk "proj1" 10 100 (2 ^ 30)].
Proof. repeat split. Qed.

(** X1. The part of C6 that holds, for a zone name of letters, digits,
    [_], [.] and [-] and a collection name of ASCII text.  A collection
    that is the reserved path or lies below it is not selected, nor is
    the shared root itself; and a collection below the root whose path
    SIMILAR TO does not take for a reserved one gets the first segment
    below the root as its project. *)
Theorem classifier_first_segment :
  forall (zone : string) (c : Coll.t) (seg rest : string),
  Classifier.zone_ok zone = true ->
  Charset.ascii_only (Coll.coll_name c) = true ->
  match rest with String x _ => x = Text.slash | EmptyString => True end ->
  (Coll.coll_name c = (Classifier.shared_root zone ++ "/commons_repo" ++ rest)%string ->
   Classifier.selected zone c = false)
  /\ (Coll.coll_name c = Classifier.shared_root zone -> Classifier.selected zone c = false)
  /\ (Coll.coll_name c = (Classifier.shared_root zone ++ "/" ++ seg ++ rest)%string ->
      seg <> EmptyString -> Text.contains Text.slash seg = false ->
      Classifier.similar_to_commons_repo zone (Coll.coll_name c) = false ->
      Classifier.selected zone c = true
      /\ Classifier.row_of zone c = ProjColl.mk seg (Coll.coll_id c)).
Proof.
  intros zone c seg rest _ _ Hrest. split; [|split].
  - intros Hname. unfold Classifier.selected, Classifier.similar_to_commons_repo.
    rewrite Hname, <- append_assoc, match_head_self.
    destruct rest as [|x rest']; [apply andb_false_r|].
    subst x. rewrite Ascii.eqb_refl. apply andb_false_r.
  - intros Hname. unfold Classifier.selected, Classifier.like_shared.
    rewrite Hname, match_head_short; [reflexivity|].
    rewrite length_append. cbn [String.length]. lia.
  - intros Hname Hseg Hslash Hsimilar.
    unfold Classifier.selected, Classifier.row_of, Classifier.like_shared.
    rewrite Hsimilar. rewrite Hname, <- append_assoc, match_head_self. split; [reflexivity|].
    f_equal. rewrite regexp_replace_unfold. unfold Classifier.match_here.
    rewrite match_head_self, (segment_first seg rest Hslash Hrest).
    destruct seg; [contradiction | reflexivity].
Qed.

(** X1 at the project of the scenario. *)
Lemma classifier_first_segment_witness :
  Classifier.zone_ok "zoneX" = true
  /\ Charset.ascii_only "/zoneX/home/shared/proj1" = true
  /\ Classifier.selected "zoneX" (Coll.mk 10 "/zoneX/home/shared/proj1" "alice") = true
  /\ Classifier.row_of "zoneX" (Coll.mk 10 "/zoneX/home/shared/proj1" "alice")
     = ProjColl.mk "proj1" 10.
Proof.
  split; [reflexivity|]. split; [reflexivity|].
  apply (proj2 (proj2 (classifier_first_segment "zoneX"
                         (Coll.mk 10 "/zoneX/home/shared/proj1" "alice")
                         "proj1" EmptyString eq_refl eq_refl I)));
    try reflexivity. discriminate.
Defined.

(** ** The walk over the trash *)

Section WalkFacts.

Import Trash Walk.

Variable time : nat -> Z.

Lemma call_present : forall e n,
  has_timestamp e = true ->
  call time add_coll_avu e n = (e, n) /\ call time add_obj_avu e n = (e, n).
Proof.
  intros e n H. unfold call, add_coll_avu, add_obj_avu. rewrite H.
  unfold has_timestamp in H. apply has_timestamp_In in H.
  rewrite (add_avu_present _ _ H). split; reflexivity.
Qed.

Lemma call_absent : forall e n,
  has_timestamp e = false ->
  call time add_coll_avu e n
  = (mk_entry (path e) (metadata e ++ [trash_timestamp_meta (time n)]), S n)
  /\ call time add_obj_avu e n = call time add_coll_avu e n.
Proof.
  intros e n H. unfold call, add_coll_avu, add_obj_avu. rewrite H.
  rewrite add_avu_absent; [split; reflexivity|].
  intro Hin. apply has_timestamp_In in Hin. unfold has_timestamp in H. congruence.
Qed.

Lemma call_stamped : forall e n,
  stamped e (fst (call time add_coll_avu e n))
  /\ stamped e (fst (call time add_obj_avu e n)).
Proof.
  intros e n. destruct (has_timestamp e) eqn:H.
  - destruct (call_present e n H) as [-> ->]. split; left; reflexivity.
  - destruct (call_absent e n H) as [Hc ->]. rewrite Hc.
    split; right; (split; [exact H | exists (time n); reflexivity]).
Qed.

Lemma call_has_timestamp : forall e n,
  has_timestamp (fst (call time add_coll_avu e n)) = true
  /\ has_timestamp (fst (call time add_obj_avu e n)) = true.
Proof.
  intros e n. unfold call, add_coll_avu, add_obj_avu, has_timestamp. cbn [fst].
  split; apply has_timestamp_In, add_avu_has_timestamp.
Qed.

Lemma for_each_Forall2 : forall {A : Type} (R : A -> A -> Prop) (f : A -> clocked A),
  (forall x n, R x (fst (f x n))) ->
  forall l n, Forall2 R l (fst (for_each f l n)).
Proof.
  intros A R f H l. induction l as [|x l IH]; intro n; cbn.
  - constructor.
  - unfold Walk.bind. specialize (H x n). destruct (f x n) as [x' n1].
    specialize (IH n1). destruct (for_each f l n1) as [l' n2]. cbn in *.
    constructor; assumption.
Qed.

Lemma for_each_Forall : forall {A : Type} (P : A -> Prop) (f : A -> clocked A),
  (forall x n, P (fst (f x n))) ->
  forall l n, Forall P (fst (for_each f l n)).
Proof.
  intros A P f H l. induction l as [|x l IH]; intro n; cbn.
  - constructor.
  - unfold Walk.bind. specialize (H x n). destruct (f x n) as [x' n1].
    specialize (IH n1). destruct (for_each f l n1) as [l' n2]. cbn in *.
    constructor; assumption.
Qed.

Lemma for_each_fixed : forall {A : Type} (f : A -> clocked A) (l : list A),
  (forall x, In x l -> forall n, f x n = (x, n)) ->
  forall n, for_each f l n = (l, n).
Proof.
  intros A f l. induction l as [|x l IH]; intros H n; cbn.
  - reflexivity.
  - unfold Walk.bind. rewrite (H x (in_eq _ _)).
    rewrite IH by (intros y Hy; apply H, in_cons, Hy). reflexivity.
Qed.

Lemma collection_eta : forall c,
  Collection (name c) (self c) (subcollections c) (data_objects c) = c.
Proof. intros []. reflexivity. Qed.

Lemma on_collection_stamped : forall c n,
  stamped_collection c (fst (on_collection (call time add_coll_avu) c n)).
Proof.
  intros c n. unfold on_collection, Walk.bind.
  pose proof (proj1 (call_stamped (self c) n)) as H.
  destruct (call time add_coll_avu (self c) n) as [e n1]. cbn in *.
  repeat split; assumption.
Qed.

Lemma on_collection_has_timestamp : forall c n,
  has_timestamp (self (fst (on_collection (call time add_coll_avu) c n))) = true.
Proof.
  intros c n. unfold on_collection, Walk.bind.
  pose proof (proj1 (call_has_timestamp (self c) n)) as H.
  destruct (call time add_coll_avu (self c) n) as [e n1]. exact H.
Qed.

Lemma on_collection_fixed : forall c n,
  has_timestamp (self c) = true ->
  on_collection (call time add_coll_avu) c n = (c, n).
Proof.
  intros c n H. unfold on_collection, Walk.bind.
  rewrite (proj1 (call_present _ n H)). cbn. now rewrite collection_eta.
Qed.

Lemma in_user_collections_walked : forall u n,
  user_walked u (fst (in_user_collections time u n)).
Proof.
  intros u n. unfold in_user_collections, Walk.bind.
  pose proof (for_each_Forall2 stamped_collection _ on_collection_stamped
                (subcollections u) n) as Hc.
  destruct (for_each _ (subcollections u) n) as [colls n1].
  pose proof (for_each_Forall2 stamped (call time add_obj_avu)
                (fun e k => proj2 (call_stamped e k)) (data_objects u) n1) as Ho.
  destruct (for_each _ (data_objects u) n1) as [objs n2]. cbn in *.
  repeat split; assumption.
Qed.

Lemma in_user_collections_has_timestamp : forall u n,
  Forall (fun e => has_timestamp e = true)
    (map self (subcollections (fst (in_user_collections time u n)))
     ++ data_objects (fst (in_user_collections time u n))).
Proof.
  intros u n. unfold in_user_collections, Walk.bind.
  pose proof (for_each_Forall (fun c => has_timestamp (self c) = true) _
                on_collection_has_timestamp (subcollections u) n) as Hc.
  destruct (for_each _ (subcollections u) n) as [colls n1].
  pose proof (for_each_Forall (fun e => has_timestamp e = true) (call time add_obj_avu)
                (fun e k => proj2 (call_has_timestamp e k)) (data_objects u) n1) as Ho.
  destruct (for_each _ (data_objects u) n1) as [objs n2]. cbn in *.
  apply Forall_app. split; [|exact Ho].
  apply Forall_map. exact Hc.
Qed.

Lemma in_user_collections_fixed : forall u n,
  Forall (fun e => has_timestamp e = true) (map self (subcollections u) ++ data_objects u) ->
  in_user_collections time u n = (u, n).
Proof.
  intros u n H. apply Forall_app in H. destruct H as [Hc Ho].
  rewrite Forall_map in Hc. rewrite Forall_forall in Hc, Ho.
  unfold in_user_collections, Walk.bind.
  rewrite for_each_fixed by (intros c Hin k; apply on_collection_fixed, Hc, Hin).
  rewrite for_each_fixed by (intros e Hin k; apply (call_present e k), Ho, Hin).
  cbn. now rewrite collection_eta.
Qed.

Lemma in_trash_walked : forall c n, trash_walked c (fst (in_trash time c n)).
Proof.
  intros c n. unfold trash_walked, in_trash.
  destruct (name c =? "home")%string.
  - unfold Walk.bind.
    pose proof (for_each_Forall2 user_walked _ in_user_collections_walked
                  (subcollections c) n) as H.
    destruct (for_each _ (subcollections c) n) as [users n1]. cbn in *.
    repeat split; assumption.
  - apply on_collection_stamped.
Qed.

Lemma in_trash_has_timestamp : forall c n,
  Forall (fun e => has_timestamp e = true) (targets (fst (in_trash time c n))).
Proof.
  intros c n. unfold in_trash.
  destruct (name c =? "home")%string eqn:Hname.
  - unfold Walk.bind.
    pose proof (for_each_Forall
                  (fun u => Forall (fun e => has_timestamp e = true)
                              (map self (subcollections u) ++ data_objects u))
                  _ in_user_collections_has_timestamp (subcollections c) n) as H.
    destruct (for_each _ (subcollections c) n) as [users n1]. cbn in *.
    unfold targets. cbn. rewrite Hname.
    induction H as [|u us Hu _ IH]; cbn.
    + constructor.
    + apply Forall_app. split; assumption.
  - pose proof (on_collection_has_timestamp c n) as H.
    pose proof (on_collection_stamped c n) as [Hn _].
    unfold targets. rewrite Hn, Hname. constructor; [exact H | constructor].
Qed.

Lemma in_trash_fixed : forall c n,
  Forall (fun e => has_timestamp e = true) (targets c) ->
  in_trash time c n = (c, n).
Proof.
  intros c n H. unfold targets in H. unfold in_trash.
  destruct (name c =? "home")%string.
  - unfold Walk.bind. rewrite for_each_fixed.
    + cbn. now rewrite collection_eta.
    + intros u Hin k. apply in_user_collections_fixed.
      rewrite Forall_forall in *. intros e He. apply H.
      apply in_flat_map. exists u. split; assumption.
  - apply on_collection_fixed. now inversion H.
Qed.

Lemma walk_walked : forall t n,
  name (fst (walk time t n)) = name t
  /\ self (fst (walk time t n)) = self t
  /\ data_objects (fst (walk time t n)) = data_objects t
  /\ Forall2 trash_walked (subcollections t) (subcollections (fst (walk time t n)))
  /\ Forall (fun c => Forall (fun e => has_timestamp e = true) (targets c))
       (subcollections (fst (walk time t n))).
Proof.
  intros t n. unfold walk, Walk.bind.
  pose proof (for_each_Forall2 trash_walked _ in_trash_walked (subcollections t) n) as H.
  pose proof (for_each_Forall
                (fun c => Forall (fun e => has_timestamp e = true) (targets c))
                (in_trash time) in_trash_has_timestamp (subcollections t) n) as H'.
  destruct (for_each _ (subcollections t) n) as [colls n1]. cbn in *.
  repeat split; assumption.
Qed.

Lemma walk_fixed : forall t n,
  Forall (fun c => Forall (fun e => has_timestamp e = true) (targets c)) (subcollections t) ->
  walk time t n = (t, n).
Proof.
  intros t n H. unfold walk, Walk.bind. rewrite for_each_fixed.
  - cbn. now rewrite collection_eta.
  - intros c Hin k. apply in_trash_fixed. rewrite Forall_forall in H. apply H, Hin.
Qed.

End WalkFacts.

(** X2. [add_trash_timestamp] leaves every entry it is to stamp (each
    collection directly in the trash but [home], and each collection and
    data object directly in a user's collection under [home]) with an
    AVU named [ipc::trash_timestamp]; run again on what it left, at any
    time, it reads no clock and changes nothing. *)
Theorem add_trash_timestamp_idempotent :
  forall (time time' : nat -> Z) (sess sess' : Walk.session) (trash_path : string)
         (n n' : nat) (t : Walk.collection),
  fst (Walk.add_trash_timestamp time sess trash_path n) = Some t ->
  sess' trash_path = Some t ->
  Forall (fun c => Forall (fun e => Walk.has_timestamp e = true) (Walk.targets c))
    (Walk.subcollections t)
  /\ Walk.add_trash_timestamp time' sess' trash_path n' = (Some t, n').
Proof.
  intros time time' sess sess' trash_path n n' t Hrun Hsess'.
  unfold Walk.add_trash_timestamp in Hrun.
  destruct (sess trash_path) as [t0|]; [|discriminate].
  unfold Walk.bind in Hrun.
  pose proof (walk_walked time t0 n) as [_ [_ [_ [_ Hdone]]]].
  destruct (Walk.walk time t0 n) as [t1 n1]. cbn in *.
  injection Hrun as <-. split; [exact Hdone|].
  unfold Walk.add_trash_timestamp. rewrite Hsess'.
  unfold Walk.bind. rewrite walk_fixed by exact Hdone. reflexivity.
Qed.

(** X3. What [add_trash_timestamp] leaves alone.  The trash collection
    itself, its data objects, [home] and the users' collections under it
    keep their AVUs; a collection that is stamped keeps its name, its
    sub-collections and its data objects as they were (what lies in a
    collection such as [orphan], or deeper in a user's trash, gets no
    AVU); and an entry that is stamped keeps the AVUs it had, the new one
    coming after them. *)
Theorem add_trash_timestamp_frame :
  forall (time : nat -> Z) (sess : Walk.session) (trash_path : string)
         (n : nat) (t0 t : Walk.collection),
  sess trash_path = Some t0 ->
  fst (Walk.add_trash_timestamp time sess trash_path n) = Some t ->
  Walk.name t = Walk.name t0 /\ Walk.self t = Walk.self t0
  /\ Walk.data_objects t = Walk.data_objects t0
  /\ Forall2 Walk.trash_walked (Walk.subcollections t0) (Walk.subcollections t).
Proof.
  intros time sess trash_path n t0 t Hsess Hrun.
  unfold Walk.add_trash_timestamp in Hrun. rewrite Hsess in Hrun.
  unfold Walk.bind in Hrun.
  pose proof (walk_walked time t0 n) as [Hn [Hs [Ho [Hw _]]]].
  destruct (Walk.walk time t0 n) as [t1 n1]. cbn in *.
  injection Hrun as <-. repeat split; assumption.
Qed.

(** X4. [main] of [ensure_trash_ts.py].  Without a zone argument it
    opens no session and changes nothing.  With one it opens one session,
    on the file [IRODS_ENVIRONMENT_FILE] names (or the default file), and
    what it does there is [add_trash_timestamp] on the collection
    [/<zone>/trash] for the first argument: a trash it has walked has
    every entry to stamp with the AVU. *)
Theorem main_walks_zone_trash :
  forall (time : nat -> Z) (environ : string -> option string)
         (expanduser : string -> string) (iRODSSession : string -> Walk.session)
         (argv : list string) (n : nat),
  let env := expanduser match environ "IRODS_ENVIRONMENT_FILE" with
                        | Some file => file
                        | None => "~/.irods/irods_environment.json"
                        end in
  ((List.length argv < 2)%nat ->
   Walk.main time environ expanduser iRODSSession argv n = (([], None), n))
  /\ (forall zone, nth_error argv 1 = Some zone ->
        fst (fst (Walk.main time environ expanduser iRODSSession argv n)) = [env]
        /\ snd (fst (Walk.main time environ expanduser iRODSSession argv n))
           = fst (Walk.add_trash_timestamp time (iRODSSession env)
                    ("/" ++ zone ++ "/trash")%string n)
        /\ snd (Walk.main time environ expanduser iRODSSession argv n)
           = snd (Walk.add_trash_timestamp time (iRODSSession env)
                    ("/" ++ zone ++ "/trash")%string n))
  /\ (forall t,
        snd (fst (Walk.main time environ expanduser iRODSSession argv n)) = Some t ->
        exists zone t0,
          nth_error argv 1 = Some zone
          /\ iRODSSession env ("/" ++ zone ++ "/trash")%string = Some t0
          /\ Forall2 Walk.trash_walked (Walk.subcollections t0) (Walk.subcollections t)
          /\ Forall (fun c => Forall (fun e => Walk.has_timestamp e = true)
                                (Walk.targets c))
               (Walk.subcollections t)).
Proof.
  intros time environ expanduser iRODSSession argv n env.
  assert (Henv : match environ "IRODS_ENVIRONMENT_FILE" with
                 | Some file => expanduser file
                 | None => expanduser "~/.irods/irods_environment.json"
                 end = env).
  { subst env. destruct (environ "IRODS_ENVIRONMENT_FILE"); reflexivity. }
  split; [|split].
  - intro Hlen. destruct argv as [|a [|b rest]]; cbn in Hlen; try lia; reflexivity.
  - intros zone Hzone. destruct argv as [|a [|z rest]]; try discriminate.
    cbn in Hzone. injection Hzone as ->.
    unfold Walk.main. rewrite Henv. unfold Walk.bind.
    destruct (Walk.add_trash_timestamp time (iRODSSession env) _ n) as [t n1].
    repeat split.
  - intros t Hrun. destruct argv as [|a [|zone rest]]; try discriminate.
    unfold Walk.main in Hrun. rewrite Henv in Hrun.
    unfold Walk.add_trash_timestamp in Hrun.
    destruct (iRODSSession env ("/" ++ zone ++ "/trash")%string) as [t0|] eqn:Hsess;
      [|discriminate].
    unfold Walk.bind in Hrun.
    pose proof (walk_walked time t0 n) as [_ [_ [_ [Hw Hdone]]]].
    destruct (Walk.walk time t0 n) as [t1 n1]. cbn in Hrun. injection Hrun as <-.
    exists zone, t0. repeat split; assumption.
Qed.

(** X5. The value of the AVU, ["0" + str(int(epoch_time))], read as a
    decimal number is the time it was made from, for a time that is not
    negative; for a negative time it is no number. *)
Theorem trash_timestamp_reads_back : forall now : Z,
  (0 <= now ->
   option_map Z.of_int
     (NilZero.int_of_string (Trash.value (Trash.trash_timestamp_meta now))) = Some now)
  /\ (now < 0 ->
      NilZero.int_of_string (Trash.value (Trash.trash_timestamp_meta now)) = None).
Proof.
  intro now. split; [intro Hnow | intro Hneg].
  2: { unfold Trash.trash_timestamp_meta, Text.text_of_bigint. cbn [Trash.value].
       destruct now as [|p|p]; try lia.
       cbn [Z.to_int NilZero.string_of_int].
       change ("0" ++ String "-" (NilZero.string_of_uint (Pos.to_uint p)))%string
         with (String "0" (String "-" (NilZero.string_of_uint (Pos.to_uint p)))).
       unfold NilZero.int_of_string, NilZero.uint_of_string.
       change (Ascii.eqb "0" "-") with false. cbv iota.
       cbn [NilEmpty.uint_of_string].
       destruct (NilEmpty.uint_of_string _); reflexivity. } unfold Trash.trash_timestamp_meta, Text.text_of_bigint. cbn [Trash.value].
  destruct (Z.to_int now) as [d|d] eqn:Hd.
  - cbn [NilZero.string_of_int].
    change ("0" ++ NilZero.string_of_uint d)%string with (String "0" (NilZero.string_of_uint d)).
    unfold NilZero.int_of_string.
    change (Ascii.eqb "0" "-") with false. cbv iota.
    unfold NilZero.uint_of_string.
    cbn [NilEmpty.uint_of_string].
    assert (Hs : NilEmpty.uint_of_string (NilZero.string_of_uint d)
                 = Some match d with Decimal.Nil => Decimal.D0 Decimal.Nil | _ => d end).
    { unfold NilZero.string_of_uint. destruct d; try apply NilEmpty.usu. reflexivity. }
    rewrite Hs. cbn.
    f_equal. rewrite <- (DecimalZ.of_to now), Hd.
    destruct d; reflexivity.
  - exfalso. destruct now; cbn in Hd; try discriminate. lia.
Qed.


(** X2 on the trash of the scenario: the first walk stamps [old] and
    [notes.txt] and leaves [orphan] with the timestamp it had; a walk a
    day later changes nothing. *)
Lemma add_trash_timestamp_idempotent_witness :
  fst (Walk.add_trash_timestamp TrashScenario.clock TrashScenario.sess "/zoneX/trash" 0%nat)
  = Some TrashScenario.trash_after
  /\ TrashScenario.sess_after "/zoneX/trash" = Some TrashScenario.trash_after
  /\ Walk.add_trash_timestamp (fun n => 1700086400 + Z.of_nat n)
       TrashScenario.sess_after "/zoneX/trash" 0%nat
     = (Some TrashScenario.trash_after, 0%nat).
Proof.
  split; [reflexivity | split; [reflexivity |]].
  apply (proj2 (add_trash_timestamp_idempotent
                  TrashScenario.clock (fun n => 1700086400 + Z.of_nat n)
                  TrashScenario.sess TrashScenario.sess_after "/zoneX/trash" 0%nat 0%nat
                  TrashScenario.trash_after eq_refl eq_refl)).
Defined.

(** X3 on the trash of the scenario: the data object in [old] and the one
    in [orphan] have no AVU after the walk. *)
Lemma add_trash_timestamp_frame_witness :
  TrashScenario.sess "/zoneX/trash" = Some TrashScenario.trash
  /\ Walk.data_objects TrashScenario.trash_after = Walk.data_objects TrashScenario.trash
  /\ Forall2 Walk.trash_walked (Walk.subcollections TrashScenario.trash)
       (Walk.subcollections TrashScenario.trash_after).
Proof.
  split; [reflexivity|].
  destruct (add_trash_timestamp_frame TrashScenario.clock TrashScenario.sess
              "/zoneX/trash" 0%nat TrashScenario.trash TrashScenario.trash_after
              eq_refl eq_refl) as [_ [_ [Ho Hw]]].
  split; assumption.
Defined.

(** ** The recent report *)

Section RecentFacts.

Import Py Recent.

Lemma after_first_split : forall sep a rest,
  Text.contains sep a = false ->
  after_first sep (a ++ String sep rest) = Return rest.
Proof.
  intros sep a rest. induction a as [|c a IH]; cbn; intro H.
  - now rewrite Ascii.eqb_refl.
  - apply orb_false_iff in H. destruct H as [-> H]. now apply IH.
Qed.

Lemma after_first_none : forall sep s,
  Text.contains sep s = false -> after_first sep s = Raise IndexError.
Proof.
  intros sep s. induction s as [|c s IH]; cbn; intro H; [reflexivity|].
  apply orb_false_iff in H. destruct H as [-> H]. now apply IH.
Qed.

Lemma before_first_split : forall sep a rest,
  Text.contains sep a = false ->
  before_first sep (a ++ String sep rest) = a.
Proof.
  intros sep a rest. induction a as [|c a IH]; cbn; intro H.
  - now rewrite Ascii.eqb_refl.
  - apply orb_false_iff in H. destruct H as [-> H]. now rewrite IH.
Qed.

Lemma date_str_split : forall a b ext,
  Text.contains "_" a = false -> Text.contains "." b = false ->
  date_str (a ++ String "_" (b ++ String "." ext)) = Return b.
Proof.
  intros a b ext Ha Hb. unfold date_str.
  rewrite after_first_split by exact Ha. cbn. now rewrite before_first_split.
Qed.

Variable strptime : string -> string -> option Z.

Let keyed (f : string) : result (Z * string) :=
  Py.bind (extract_date strptime f) (fun t => Return (t, f)).

Lemma for_each_keyed : forall files ks,
  for_each keyed files = Return ks ->
  map snd ks = files
  /\ Forall (fun k => extract_date strptime (snd k) = Return (fst k)) ks.
Proof.
  induction files as [|f files IH]; cbn; intros ks H.
  - injection H as <-. split; constructor.
  - unfold keyed at 1 in H. destruct (extract_date strptime f) as [t|e] eqn:Hf; cbn in H;
      [|discriminate].
    destruct (for_each keyed files) as [ks'|e]; cbn in H; [|discriminate].
    injection H as <-. destruct (IH ks' eq_refl) as [Hm Hall].
    split; cbn; [now rewrite Hm | constructor; assumption].
Qed.

Lemma for_each_keyed_all : forall files,
  (forall f, In f files -> exists t, extract_date strptime f = Return t) ->
  exists ks, for_each keyed files = Return ks.
Proof.
  induction files as [|f files IH]; intro H; cbn.
  - eexists; reflexivity.
  - destruct (H f (in_eq _ _)) as [t Ht]. unfold keyed at 1. rewrite Ht. cbn.
    destruct IH as [ks ->]; [intros g Hg; apply H, in_cons, Hg|].
    cbn. eexists; reflexivity.
Qed.

Lemma for_each_keyed_first_failure : forall l1 f l2 e,
  (forall g, In g l1 -> exists t, extract_date strptime g = Return t) ->
  extract_date strptime f = Raise e ->
  for_each keyed (l1 ++ f :: l2) = Raise e.
Proof.
  induction l1 as [|g l1 IH]; intros f l2 e Hall Hf; cbn.
  - unfold keyed. now rewrite Hf.
  - destruct (Hall g (in_eq _ _)) as [t Ht]. unfold keyed at 1. rewrite Ht. cbn.
    rewrite (IH f l2 e); [reflexivity | | exact Hf].
    intros h Hh. apply Hall, in_cons, Hh.
Qed.

(** The head of the sorted list: the first element with the greatest
    key. *)
Lemma sort_head : forall x l,
  exists l1 k l2,
    x :: l = l1 ++ k :: l2
    /\ (exists tail, sort (x :: l) = k :: tail)
    /\ (forall y, In y l1 -> fst y < fst k)
    /\ (forall y, In y l2 -> fst y <= fst k).
Proof.
  intros x l. revert x. induction l as [|y l IH]; intro x.
  - exists [], x, []. cbn. repeat split; try (eexists; reflexivity); intros ? [].
  - destruct (IH y) as (l1 & k & l2 & Heq & [tail Hs] & H1 & H2).
    change (sort (x :: y :: l)) with (insert x (sort (y :: l))). rewrite Hs. cbn [insert].
    destruct (fst x <? fst k) eqn:Hlt.
    + apply Z.ltb_lt in Hlt. exists (x :: l1), k, l2. rewrite Heq.
      repeat split; try (eexists; reflexivity); [|exact H2].
      intros z [<-|Hz]; [exact Hlt | apply H1, Hz].
    + apply Z.ltb_ge in Hlt. exists [], x, (y :: l).
      repeat split; try (eexists; reflexivity); [intros ? []|].
      intros z Hz. rewrite Heq in Hz. apply in_app_iff in Hz.
      destruct Hz as [Hz|[<-|Hz]];
        [specialize (H1 z Hz) | | specialize (H2 z Hz)]; lia.
Qed.

Lemma find_recent_unfold : forall f files now max_age_days ks,
  for_each keyed (f :: files) = Return ks ->
  find_recent_json_report strptime (f :: files) now max_age_days
  = match sort ks with
    | [] => Raise IndexError
    | (_, most_recent) :: _ =>
        Py.bind (extract_date strptime most_recent) (fun file_mtime =>
        Py.bind (timedelta_days max_age_days) (fun limit =>
        if now - file_mtime <? limit then Return (Some most_recent) else Return None))
    end.
Proof.
  intros f files now max_age_days ks H. unfold find_recent_json_report.
  fold keyed. rewrite H. reflexivity.
Qed.

(** What the function comes to when every file name gives a date. *)
Lemma find_recent_result : forall files now max_age_days ks,
  files <> [] -> for_each keyed files = Return ks ->
  exists l1 f t l2,
    files = l1 ++ f :: l2
    /\ extract_date strptime f = Return t
    /\ (forall g u, In g l1 -> extract_date strptime g = Return u -> u < t)
    /\ (forall g u, In g l2 -> extract_date strptime g = Return u -> u <= t)
    /\ find_recent_json_report strptime files now max_age_days
       = Py.bind (timedelta_days max_age_days) (fun limit =>
         if now - t <? limit then Return (Some f) else Return None).
Proof.
  intros files now max_age_days ks Hne Hks.
  destruct files as [|f0 files]; [contradiction|].
  rewrite (find_recent_unfold _ _ _ _ _ Hks).
  destruct (for_each_keyed _ _ Hks) as [Hmap Hall].
  destruct ks as [|k0 ks]; [discriminate|].
  destruct (sort_head k0 ks) as (k1 & k & k2 & Heq & [tail Hs] & H1 & H2).
  rewrite Hs. destruct k as [t f].
  rewrite Heq in Hmap, Hall.
  rewrite map_app in Hmap. cbn in Hmap.
  apply Forall_app in Hall. destruct Hall as [Hall1 Hall2].
  inversion Hall2 as [|? ? Hf Hall3]; subst. cbn in Hf.
  exists (map snd k1), f, t, (map snd k2).
  split; [now rewrite Hmap|]. split; [exact Hf|].
  rewrite Forall_forall in Hall1, Hall3.
  split; [|split].
  - intros g u Hg Hu. apply in_map_iff in Hg. destruct Hg as [y [<- Hy]].
    specialize (Hall1 y Hy). rewrite Hall1 in Hu. injection Hu as <-.
    exact (H1 y Hy).
  - intros g u Hg Hu. apply in_map_iff in Hg. destruct Hg as [y [<- Hy]].
    specialize (Hall3 y Hy). rewrite Hall3 in Hu. injection Hu as <-.
    exact (H2 y Hy).
  - rewrite Hf. reflexivity.
Qed.

End RecentFacts.


Lemma before_first_stop : forall sep a rest,
  Recent.before_first sep (a ++ String sep rest) = Recent.before_first sep a.
Proof.
  intros sep a rest. induction a as [|c a IH]; cbn.
  - now rewrite Ascii.eqb_refl.
  - destruct (Ascii.eqb c sep); [reflexivity | now rewrite IH].
Qed.

(** X6. [extract_date] reads the text between the first underscore of the
    whole path and the next dot.  For a report
    [<dir>/data/report_<stamp>.json] that is the stamp when [dir] holds no
    underscore; when [dir] holds one, the text starts in [dir], and is
    longer than the stamp when no dot follows there.  [strptime] decides
    on that text. *)
Theorem extract_date_reads_after_first_underscore :
  forall (strptime : string -> string -> option Z) (stamp : string),
  Text.contains "." stamp = false ->
  (forall dir, Text.contains "_" dir = false ->
     Recent.date_str (dir ++ "/data/report_" ++ stamp ++ ".json") = Py.Return stamp
     /\ Recent.extract_date strptime (dir ++ "/data/report_" ++ stamp ++ ".json")
        = match strptime stamp "%Y%m%d_%H%M%S" with
          | Some t => Py.Return t
          | None => Py.Raise Py.ValueError
          end)%string
  /\ (forall a b, Text.contains "_" a = false -> Text.contains "." b = false ->
        Recent.date_str (a ++ "_" ++ b ++ "/data/report_" ++ stamp ++ ".json")
        = Py.Return (b ++ "/data/report_" ++ stamp)
        /\ (b ++ "/data/report_" ++ stamp <> stamp)
        /\ Recent.extract_date strptime
             (a ++ "_" ++ b ++ "/data/report_" ++ stamp ++ ".json")
           = match strptime (b ++ "/data/report_" ++ stamp) "%Y%m%d_%H%M%S" with
             | Some t => Py.Return t
             | None => Py.Raise Py.ValueError
             end)%string
  /\ (forall name, Text.contains "_" name = false ->
        Recent.extract_date strptime name = Py.Raise Py.IndexError).
Proof.
  intros strptime stamp Hstamp. split; [|split].
  - intros dir Hdir.
    assert (H : Recent.date_str (dir ++ "/data/report_" ++ stamp ++ ".json")%string
                = Py.Return stamp).
    { replace (dir ++ "/data/report_" ++ stamp ++ ".json")%string
        with ((dir ++ "/data/report") ++ String "_" (stamp ++ String "." "json"))%string
        by (rewrite append_assoc; reflexivity).
      apply date_str_split; [|exact Hstamp].
      rewrite contains_append, Hdir. reflexivity. }
    split; [exact H|]. unfold Recent.extract_date. rewrite H. reflexivity.
  - intros a b Ha Hb.
    assert (H : Recent.date_str (a ++ "_" ++ b ++ "/data/report_" ++ stamp ++ ".json")%string
                = Py.Return (b ++ "/data/report_" ++ stamp)%string).
    { change (a ++ "_" ++ b ++ "/data/report_" ++ stamp ++ ".json")%string
        with (a ++ String "_" (b ++ "/data/report_" ++ stamp ++ String "." "json"))%string.
      unfold Recent.date_str. rewrite after_first_split by exact Ha. cbn [Py.bind].
      f_equal.
      replace (b ++ "/data/report_" ++ stamp ++ String "." "json")%string
        with ((b ++ "/data/report_" ++ stamp) ++ String "." "json")%string
        by (rewrite !append_assoc; reflexivity).
      apply before_first_split.
      rewrite !contains_append, Hb, Hstamp. reflexivity. }
    split; [exact H|]. split.
    + intro Heq. apply (f_equal String.length) in Heq.
      rewrite !length_append in Heq. cbn in Heq. lia.
    + unfold Recent.extract_date. rewrite H. reflexivity.
  - intros name Hname. unfold Recent.extract_date, Recent.date_str.
    rewrite after_first_none by exact Hname. reflexivity.
Qed.

(** X6 on the reports of the scenario: installed in [/opt/irods-adm] the
    stamp is read, installed in [/opt/irods_adm] the text handed to
    [strptime] is [adm/data/report_20250101_000000]. *)
Lemma extract_date_reads_after_first_underscore_witness :
  Recent.extract_date RecentScenario.strptime RecentScenario.first_report
  = Py.Return (1735689600 * 1000000)
  /\ Recent.date_str "/opt/irods_adm/data/report_20250101_000000.json"
     = Py.Return "adm/data/report_20250101_000000"
  /\ Recent.extract_date RecentScenario.strptime
       "/opt/irods_adm/data/report_20250101_000000.json"
     = Py.Raise Py.ValueError.
Proof.
  destruct (extract_date_reads_after_first_underscore RecentScenario.strptime
              "20250101_000000" eq_refl) as [H1 [H2 _]].
  split; [exact (proj2 (H1 "/opt/irods-adm" eq_refl))|].
  destruct (H2 "/opt/irods" "adm" eq_refl eq_refl) as [Hd [_ He]].
  split; [exact Hd | exact He].
Defined.

(** X7. When every file name gives a date, and there is a file,
    [find_recent_json_report] looks at the file with the latest date, the
    first such in the order of the listing, and at no other: it returns
    that file if its date is less than [max_age_days] days before now,
    and [None] if not. *)
Theorem find_recent_newest :
  forall (strptime : string -> string -> option Z) (json_files : list string)
         (now max_age_days : Z),
  json_files <> [] ->
  (forall f, In f json_files -> exists t, Recent.extract_date strptime f = Py.Return t) ->
  Z.abs max_age_days <= 999999999 ->
  exists l1 f t l2,
    json_files = l1 ++ f :: l2
    /\ Recent.extract_date strptime f = Py.Return t
    /\ (forall g u, In g l1 -> Recent.extract_date strptime g = Py.Return u -> u < t)
    /\ (forall g u, In g l2 -> Recent.extract_date strptime g = Py.Return u -> u <= t)
    /\ Recent.find_recent_json_report strptime json_files now max_age_days
       = Py.Return (if now - t <? max_age_days * (86400 * 1000000) then Some f else None).
Proof.
  intros strptime files now max_age Hne Hall Hmax.
  destruct (for_each_keyed_all strptime files Hall) as [ks Hks].
  destruct (find_recent_result strptime files now max_age ks Hne Hks)
    as (l1 & f & t & l2 & Heq & Hf & H1 & H2 & Hres).
  exists l1, f, t, l2. repeat split; try assumption.
  rewrite Hres. unfold Recent.timedelta_days.
  apply Z.leb_le in Hmax. rewrite Hmax. cbn [Py.bind]. unfold Recent.day.
  destruct (now - t <? max_age * (86400 * 1000000)); reflexivity.
Qed.

(** X7 on the two reports of the scenario, with the default two days:
    the second report, twelve hours old, is the one found. *)
Lemma find_recent_newest_witness :
  Recent.find_recent_json_report RecentScenario.strptime
    [RecentScenario.first_report; RecentScenario.second_report] RecentScenario.now 2
  = Py.Return (Some RecentScenario.second_report)
  /\ exists l1 f t l2,
       [RecentScenario.first_report; RecentScenario.second_report] = l1 ++ f :: l2
       /\ Recent.extract_date RecentScenario.strptime f = Py.Return t
       /\ (forall g u, In g l1 ->
             Recent.extract_date RecentScenario.strptime g = Py.Return u -> u < t)
       /\ (forall g u, In g l2 ->
             Recent.extract_date RecentScenario.strptime g = Py.Return u -> u <= t)
       /\ Recent.find_recent_json_report RecentScenario.strptime
            [RecentScenario.first_report; RecentScenario.second_report]
            RecentScenario.now 2
          = Py.Return (if RecentScenario.now - t <? 2 * (86400 * 1000000)
                       then Some f else None).
Proof.
  split; [reflexivity|].
  apply (find_recent_newest RecentScenario.strptime
           [RecentScenario.first_report; RecentScenario.second_report]
           RecentScenario.now 2).
  - discriminate.
  - intros f [<-|[<-|[]]]; eexists; reflexivity.
  - cbn. lia.
Defined.

(** X8. One file name that gives no date makes [find_recent_json_report]
    raise, whatever the other files are: the exception is that of the
    first such file in the listing. *)
Theorem find_recent_stray_file :
  forall (strptime : string -> string -> option Z) (l1 l2 : list string) (f : string)
         (e : Py.exception) (now max_age_days : Z),
  (forall g, In g l1 -> exists t, Recent.extract_date strptime g = Py.Return t) ->
  Recent.extract_date strptime f = Py.Raise e ->
  Recent.find_recent_json_report strptime (l1 ++ f :: l2) now max_age_days = Py.Raise e.
Proof.
  intros strptime l1 l2 f e now max_age Hall Hf.
  pose proof (for_each_keyed_first_failure strptime l1 f l2 e Hall Hf) as H.
  unfold Recent.find_recent_json_report.
  destruct (l1 ++ f :: l2) eqn:Hl; [destruct l1; discriminate|].
  rewrite H. reflexivity.
Qed.

(** X8 on the scenario: with [report_old.json] beside it the report of
    twelve hours ago is not found. *)
Lemma find_recent_stray_file_witness :
  Recent.find_recent_json_report RecentScenario.strptime
    [RecentScenario.second_report; RecentScenario.stray; RecentScenario.first_report]
    RecentScenario.now 2
  = Py.Raise Py.ValueError.
Proof.
  apply (find_recent_stray_file RecentScenario.strptime [RecentScenario.second_report]
           [RecentScenario.first_report] RecentScenario.stray Py.ValueError).
  - intros g [<-|[]]. eexists; reflexivity.
  - reflexivity.
Defined.

(** X9. A file that [find_recent_json_report] returns is one of the
    listing, every file of the listing has a date and none a later one,
    and the file's date lies less than [max_age_days] days before now, a
    date after now among them: with [max_age_days] at 0 or below only such
    a file is returned. *)
Theorem find_recent_sound :
  forall (strptime : string -> string -> option Z) (json_files : list string)
         (now max_age_days : Z) (f : string),
  Recent.find_recent_json_report strptime json_files now max_age_days
  = Py.Return (Some f) ->
  In f json_files
  /\ exists t,
       Recent.extract_date strptime f = Py.Return t
       /\ (forall g, In g json_files ->
             exists u, Recent.extract_date strptime g = Py.Return u /\ u <= t)
       /\ now - t < max_age_days * (86400 * 1000000)
       /\ (max_age_days <= 0 -> now < t).
Proof.
  intros strptime files now max_age f Hres.
  destruct files as [|f0 files]; [discriminate|].
  destruct (Py.for_each
              (fun f => Py.bind (Recent.extract_date strptime f) (fun t => Py.Return (t, f)))
              (f0 :: files)) as [ks|e] eqn:Hks.
  2: { unfold Recent.find_recent_json_report in Hres. rewrite Hks in Hres. discriminate. }
  destruct (find_recent_result strptime (f0 :: files) now max_age ks
              ltac:(discriminate) Hks)
    as (l1 & f' & t & l2 & Heq & Hf & H1 & H2 & Hfind).
  rewrite Hfind in Hres. unfold Recent.timedelta_days in Hres.
  destruct (Z.abs max_age <=? 999999999); [|discriminate]. cbn [Py.bind] in Hres.
  destruct (now - t <? max_age * Recent.day) eqn:Hage; [|discriminate].
  injection Hres as ->. apply Z.ltb_lt in Hage. unfold Recent.day in Hage.
  split; [rewrite Heq; apply in_elt|].
  exists t. split; [exact Hf|]. split; [|split; [exact Hage | intro; nia]].
  destruct (for_each_keyed strptime _ _ Hks) as [Hmap Hall].
  intros g Hg. rewrite <- Hmap in Hg. apply in_map_iff in Hg.
  destruct Hg as [k [<- Hk]]. rewrite Forall_forall in Hall.
  exists (fst k). split; [apply Hall, Hk|].
  assert (Hin : In (snd k) (l1 ++ f :: l2)).
  { rewrite <- Heq, <- Hmap. apply in_map, Hk. }
  apply in_app_iff in Hin. destruct Hin as [Hin|[Hin|Hin]].
  - specialize (H1 _ _ Hin (Hall k Hk)). lia.
  - rewrite Hin in Hf. rewrite (Hall k Hk) in Hf. injection Hf as ->. lia.
  - exact (H2 _ _ Hin (Hall k Hk)).
Qed.

(** X9 on the scenario. *)
Lemma find_recent_sound_witness :
  In RecentScenario.second_report
    [RecentScenario.first_report; RecentScenario.second_report]
  /\ exists t,
       Recent.extract_date RecentScenario.strptime RecentScenario.second_report
       = Py.Return t
       /\ RecentScenario.now - t < 2 * (86400 * 1000000).
Proof.
  destruct (find_recent_sound RecentScenario.strptime
              [RecentScenario.first_report; RecentScenario.second_report]
              RecentScenario.now 2 RecentScenario.second_report eq_refl)
    as [Hin [t [Ht [_ [Hage _]]]]].
  split; [exact Hin|]. exists t. split; assumption.
Defined.

(** ** The shape of the report *)

Section Ordering.

Lemma insert_NoDup : forall x l, ~ In x l -> NoDup l -> NoDup (Sql.insert x l).
Proof.
  intros x l. induction l as [|y l IH]; cbn; intros Hx Hl.
  - constructor; [intros [] | constructor].
  - destruct (x <=? y)%string.
    + constructor; assumption.
    + inversion Hl as [|? ? Hy Hl']; subst. constructor.
      * intro Hin. apply insert_In in Hin. destruct Hin as [->|Hin]; [|contradiction].
        apply Hx. now left.
      * apply IH; [|exact Hl']. intro Hin. apply Hx. now right.
Qed.

Lemma sort_NoDup : forall l, NoDup l -> NoDup (Sql.sort l).
Proof.
  induction l as [|x l IH]; cbn; intro H; [constructor|].
  inversion H; subst. apply insert_NoDup; [|now apply IH].
  now rewrite sort_In.
Qed.

Lemma final_select_projects :
  forall creator_of owner_of proj_coll proj_data pub_proj_data,
  map Report.Project
    (Report.final_select creator_of owner_of proj_coll proj_data pub_proj_data)
  = Sql.sort (Sql.group_keys
                (map (fun j => ProjData.proj (Report.a_of j))
                   (Report.joined creator_of owner_of proj_coll proj_data pub_proj_data))).
Proof.
  intros. unfold Report.final_select. rewrite map_map. cbn. apply map_id.
Qed.

End Ordering.

(** X10. No two rows of what the final SELECT computes are of the same
    project, and every row is of a project that has a row in
    [proj_data]: a project without data on the resolved resources has no
    row, whatever [proj_coll] holds of it. *)
Theorem report_rows_have_distinct_projects :
  forall (creator_of owner_of : ProjColl.t -> option string)
         (proj_coll : list ProjColl.t) (proj_data : list ProjData.t)
         (pub_proj_data : list PubProjData.t),
  NoDup (map Report.Project
           (Report.final_select creator_of owner_of proj_coll proj_data pub_proj_data))
  /\ (forall row,
        In row (Report.final_select creator_of owner_of proj_coll proj_data
                  pub_proj_data) ->
        In (Report.Project row) (map ProjData.proj proj_data)).
Proof.
  intros creator_of owner_of proj_coll proj_data pub_proj_data. split.
  - rewrite final_select_projects. apply sort_NoDup, NoDup_nodup.
  - intros row Hrow. now apply final_select_rows in Hrow.
Qed.


(** ** The user named [public] *)

Lemma no_partner_volumes : forall creator_of owner_of proj_coll proj_data row,
  In row (Report.final_select creator_of owner_of proj_coll proj_data []) ->
  Report.Public row = 0 /\ Report.Private row = Report.Total row.
Proof.
  intros creator_of owner_of proj_coll proj_data row Hrow.
  apply final_select_rows in Hrow. destruct Hrow as [_ Hrow].
  rewrite Hrow. cbn [Report.Public Report.Private Report.Total Report.row_of].
  rewrite pub_vol_formula.
  rewrite (total_map_zero (Volume.pub_of_row [])) by reflexivity.
  rewrite Z.sub_0_r. split; [apply round_gib_0 | reflexivity].
Qed.

(** X11. When the catalog has no user named [public], [pub_obj] and
    [pub_proj_data] are empty, and every row the final SELECT computes has
    Public 0 and Private equal to Total. *)
Theorem no_public_user_nothing_public :
  forall (cat : catalog),
  (forall u, In u (r_user_main cat) -> User.user_name u <> "public") ->
  create_pub_obj_table cat = Done []
  /\ (forall zone roots proj_coll proj_data pub_proj_data,
        temp_tables cat zone roots = Done (proj_coll, proj_data, pub_proj_data) ->
        pub_proj_data = []
        /\ forall creator_of owner_of row,
             In row (Report.final_select creator_of owner_of
                       proj_coll proj_data pub_proj_data) ->
             Report.Public row = 0 /\ Report.Private row = Report.Total row).
Proof.
  intros cat Hnone.
  assert (Hpub : create_pub_obj_table cat = Done []).
  { unfold create_pub_obj_table. rewrite filter_none; [reflexivity|].
    intros u Hu. apply String.eqb_neq, Hnone, Hu. }
  split; [exact Hpub|].
  intros zone roots proj_coll proj_data pub_proj_data Htables.
  apply temp_tables_done in Htables.
  destruct Htables as (store_resc & pub_obj & _ & _ & Hp & _ & Hppd).
  rewrite Hpub in Hp. injection Hp as <-.
  assert (Hnil : pub_proj_data = []).
  { rewrite Hppd. unfold create_pub_proj_data_table.
    rewrite filter_none; [reflexivity|]. intros r _. reflexivity. }
  split; [exact Hnil|]. rewrite Hnil. intros. eapply no_partner_volumes; eassumption.
Qed.

(** X11 on the scenario without its user [public]. *)
Lemma no_public_user_nothing_public_witness :
  create_pub_obj_table
    {| r_zone_main := r_zone_main Scenario.cat;
       r_resc_main := r_resc_main Scenario.cat;
       r_coll_main := r_coll_main Scenario.cat;
       r_data_main := r_data_main Scenario.cat;
       r_objt_access := r_objt_access Scenario.cat;
       r_user_main := [User.mk 6 "alice"] |} = Done [].
Proof.
  apply no_public_user_nothing_public.
  intros u [<-|[]]. discriminate.
Defined.

(** X12. The user is looked up by name alone, in a subquery used as a
    value: when two users of the catalog are named [public] (one of the
    local zone and one of another zone, say) the [pub_obj] statement is
    rejected, and no call of [gen_report] gets past it. *)
Theorem several_public_users_rejected :
  forall (cat : catalog) (l1 l2 l3 : list User.t) (u1 u2 : User.t),
  r_user_main cat = l1 ++ u1 :: l2 ++ u2 :: l3 ->
  User.user_name u1 = "public" -> User.user_name u2 = "public" ->
  create_pub_obj_table cat = Raised (ProgrammingError cardinality_violation)
  /\ (forall zone roots tables, temp_tables cat zone roots <> Done tables).
Proof.
  intros cat l1 l2 l3 u1 u2 Husers H1 H2.
  assert (Hpub : create_pub_obj_table cat = Raised (ProgrammingError cardinality_violation)).
  { unfold create_pub_obj_table. rewrite Husers.
    rewrite filter_app. cbn [filter]. rewrite H1. cbn [String.eqb Ascii.eqb Bool.eqb].
    rewrite filter_app. cbn [filter]. rewrite H2. cbn [String.eqb Ascii.eqb Bool.eqb].
    rewrite map_app. cbn [map]. rewrite map_app. cbn [map].
    set (a := map User.user_id (filter _ l1)). set (b := map User.user_id (filter _ l2)).
    destruct a as [|x [|y a]]; cbn; try reflexivity;
      destruct b as [|z b]; reflexivity. }
  split; [exact Hpub|].
  intros zone roots [[pc pd] ppd] Htables. apply temp_tables_done in Htables.
  destruct Htables as (store_resc & pub_obj & _ & _ & Hp & _). congruence.
Qed.

(** X12 on the scenario with a second user [public]. *)
Lemma several_public_users_rejected_witness :
  create_pub_obj_table
    {| r_zone_main := r_zone_main Scenario.cat;
       r_resc_main := r_resc_main Scenario.cat;
       r_coll_main := r_coll_main Scenario.cat;
       r_data_main := r_data_main Scenario.cat;
       r_objt_access := r_objt_access Scenario.cat;
       r_user_main := [User.mk 5 "public"; User.mk 6 "alice"; User.mk 7 "public"] |}
  = Raised (ProgrammingError cardinality_violation).
Proof.
  apply (several_public_users_rejected _ [] [User.mk 6 "alice"] []
           (User.mk 5 "public") (User.mk 7 "public")); reflexivity.
Defined.


(** ** The resolved set, exactly *)

Section Reach.

Import Resolver.

Variable cat : catalog.
Variable roots : list string.

Let resc := r_resc_main cat.

(** The row of a resource below the roots. *)
Let of_below (h : hier_row) : Prop :=
  exists m, Hierarchy.below cat roots m /\ row_of m = h.

Lemma seed_of_below : forall h, In h (seed resc roots) -> of_below h.
Proof.
  intros h Hh. unfold seed in Hh. apply in_map_iff in Hh.
  destruct Hh as [m [<- Hm]]. apply filter_In in Hm. destruct Hm as [Hm Hname].
  exists m. split; [|reflexivity].
  apply Hierarchy.below_root; [exact Hm|]. now apply existsb_In_string.
Qed.

Lemma children_of_below : forall h h',
  of_below h -> In h' (children resc h) -> of_below h'.
Proof.
  intros h h' [r [Hr <-]] Hh'. unfold children in Hh'. cbn [snd fst row_of] in Hh'.
  destruct (Resc.resc_net r =? EMPTY_RESC_HOST)%string eqn:Hnet; [|destruct Hh'].
  apply in_map_iff in Hh'. destruct Hh' as [m [<- Hm]].
  apply filter_In in Hm. destruct Hm as [Hm Hparent].
  exists m. split; [|reflexivity].
  eapply Hierarchy.below_child; [exact Hr | exact Hm | |].
  - now apply String.eqb_eq.
  - now apply String.eqb_eq.
Qed.

Lemma iterate_of_below : forall fuel result working final,
  iterate resc fuel result working = Some final ->
  (forall h, In h result -> of_below h) -> incl working result ->
  forall h, In h final -> of_below h.
Proof.
  induction fuel as [|k IH]; intros result working final Hrun Hres Hwork.
  - destruct working; [|discriminate]. inversion Hrun; subst. exact Hres.
  - destruct working as [|w working].
    + inversion Hrun; subst. exact Hres.
    + rewrite iterate_step in Hrun. eapply IH; [exact Hrun | |].
      * intros h Hh. apply in_app_or in Hh. destruct Hh as [Hh|Hh]; [now apply Hres|].
        apply fresh_In in Hh. destruct Hh as [Hh _].
        unfold recursive_term in Hh. apply in_flat_map in Hh.
        destruct Hh as [p [Hp Hh]].
        apply (children_of_below p); [apply Hres, Hwork, Hp | exact Hh].
      * intros h Hh. apply in_or_app. now right.
Qed.

Lemma iterate_NoDup : forall fuel result working final,
  iterate resc fuel result working = Some final -> NoDup result -> NoDup final.
Proof.
  induction fuel as [|k IH]; intros result working final Hrun Hres.
  - destruct working; [|discriminate]. now inversion Hrun; subst.
  - destruct working as [|w working].
    + now inversion Hrun; subst.
    + rewrite iterate_step in Hrun. eapply IH; [exact Hrun|].
      apply NoDup_append; [exact Hres | apply NoDup_nodup|].
      intros x Hx. apply fresh_In in Hx. tauto.
Qed.

Lemma below_in_hier : forall fuel hier,
  resc_hier resc fuel roots = Some hier ->
  forall m, Hierarchy.below cat roots m -> In (row_of m) hier.
Proof.
  intros fuel hier Hrun. destruct (resc_hier_closed resc fuel roots hier Hrun) as [Hseed Hcl].
  intros m Hm. induction Hm as [m Hm Hname | r m Hr IH Hm Hnet Hparent].
  - apply Hseed. unfold seed. apply in_map. apply filter_In. split; [exact Hm|].
    now apply existsb_In_string.
  - apply (Hcl _ IH). unfold children. cbn [snd fst row_of].
    rewrite Hnet, String.eqb_refl. apply in_map. apply filter_In. split; [exact Hm|].
    now apply String.eqb_eq.
Qed.

Lemma hier_of_below : forall fuel hier,
  resc_hier resc fuel roots = Some hier -> forall h, In h hier -> of_below h.
Proof.
  intros fuel hier Hrun. unfold resc_hier in Hrun.
  eapply iterate_of_below; [exact Hrun | | apply incl_refl].
  intros h Hh. apply nodup_In in Hh. now apply seed_of_below.
Qed.

Lemma hier_NoDup_ids : forall fuel hier,
  resc_hier resc fuel roots = Some hier ->
  NoDup (map Resc.resc_id resc) -> NoDup (map fst hier).
Proof.
  intros fuel hier Hrun Hids.
  apply NoDup_map_NoDup_ForallPairs.
  - intros x y Hx Hy Hfst.
    apply (resc_hier_universe resc fuel roots hier Hrun) in Hx, Hy.
    apply in_map_iff in Hx, Hy. destruct Hx as [a [<- Ha]]. destruct Hy as [b [<- Hb]].
    cbn in Hfst. now rewrite (NoDup_map_inj Resc.resc_id resc Hids a b Ha Hb Hfst).
  - unfold resc_hier in Hrun. eapply iterate_NoDup; [exact Hrun | apply NoDup_nodup].
Qed.

End Reach.

(** X13. For root names that the query takes as they are (a list that is
    not empty, no quote or colon in a name), [create_store_resc_table]
    returns, also when the parent links of the catalog run in a circle,
    and [store_resc] holds the identifiers of the resources below the
    roots and no other: the resources that bear a root name, and the
    children of coordinating resources among those found.  The children
    of a storage resource are not looked for.  With resource identifiers
    unique, no identifier is stored twice. *)
Theorem store_resc_is_below_roots :
  forall (cat : catalog) (roots : list string),
  roots <> [] -> (forall n, In n roots -> Text.plain n) ->
  exists store_resc,
    create_store_resc_table cat roots = Done store_resc
    /\ (forall id, In id store_resc <->
          exists m, Hierarchy.below cat roots m /\ Resc.resc_id m = id)
    /\ (NoDup (map Resc.resc_id (r_resc_main cat)) -> NoDup store_resc).
Proof.
  intros cat roots Hne Hplain.
  rewrite create_store_resc_table_plain by assumption.
  destruct (resc_hier_ends (r_resc_main cat) roots) as [hier Hrun].
  unfold Resolver.fuel_for. rewrite Hrun.
  exists (map fst hier). split; [reflexivity|]. split.
  - intro id. split.
    + intro Hid. apply in_map_iff in Hid. destruct Hid as [h [<- Hh]].
      destruct (hier_of_below cat roots _ hier Hrun h Hh) as [m [Hm <-]].
      exists m. split; [exact Hm | reflexivity].
    + intros [m [Hm <-]].
      change (Resc.resc_id m) with (fst (Resolver.row_of m)).
      apply in_map. eapply below_in_hier; eassumption.
  - intro Hids. eapply hier_NoDup_ids; eassumption.
Qed.

(** X13 on the scenario: [resA] and its leaf. *)
Lemma store_resc_is_below_roots_witness :
  exists store_resc,
    create_store_resc_table Scenario.cat ["resA"] = Done store_resc
    /\ (forall id, In id store_resc <->
          exists m, Hierarchy.below Scenario.cat ["resA"] m /\ Resc.resc_id m = id)
    /\ (NoDup (map Resc.resc_id (r_resc_main Scenario.cat)) -> NoDup store_resc).
Proof.
  apply store_resc_is_below_roots.
  - discriminate.
  - intros n [<-|[]]. split; reflexivity.
Defined.

Lemma proj_data_no_resource : forall cat proj_coll,
  create_proj_data_table cat proj_coll [] = [].
Proof.
  intros cat proj_coll. unfold create_proj_data_table.
  induction proj_coll as [|c l IH]; cbn [flat_map]; [reflexivity|].
  rewrite IH, filter_none; [reflexivity|].
  intros d _. cbn. apply andb_false_r.
Qed.

(** X14. Root names that no resource of the catalog bears resolve to the
    empty set: [proj_data] and [pub_proj_data] are then empty and the
    final SELECT has no row. *)
Theorem unknown_roots_empty_report :
  forall (cat : catalog) (zone : string) (roots : list string),
  roots <> [] -> (forall n, In n roots -> Text.plain n) ->
  (forall m, In m (r_resc_main cat) -> ~ In (Resc.resc_name m) roots) ->
  create_store_resc_table cat roots = Done []
  /\ (forall proj_coll proj_data pub_proj_data,
        temp_tables cat zone roots = Done (proj_coll, proj_data, pub_proj_data) ->
        proj_data = [] /\ pub_proj_data = []
        /\ forall creator_of owner_of,
             Report.final_select creator_of owner_of proj_coll proj_data pub_proj_data
             = []).
Proof.
  intros cat zone roots Hne Hplain Hnone.
  assert (Hstore : create_store_resc_table cat roots = Done []).
  { rewrite create_store_resc_table_plain by assumption.
    unfold Resolver.resc_hier, Resolver.seed.
    rewrite filter_none; [reflexivity|].
    intros m Hm. destruct (existsb _ roots) eqn:Hex; [|reflexivity].
    apply existsb_In_string in Hex. now apply Hnone in Hex. }
  split; [exact Hstore|].
  intros proj_coll proj_data pub_proj_data Htables.
  apply temp_tables_done in Htables.
  destruct Htables as (store_resc & pub_obj & Hs & _ & _ & Hpd & Hppd).
  rewrite Hstore in Hs. injection Hs as <-.
  rewrite proj_data_no_resource in Hpd. subst proj_data.
  split; [reflexivity|]. split; [rewrite Hppd; reflexivity|].
  intros creator_of owner_of. reflexivity.
Qed.

(** X14 on the scenario, for a root the catalog does not have. *)
Lemma unknown_roots_empty_report_witness :
  create_store_resc_table Scenario.cat ["resZ"] = Done [].
Proof.
  apply (unknown_roots_empty_report Scenario.cat "zoneX" ["resZ"]).
  - discriminate.
  - intros n [<-|[]]. split; reflexivity.
  - intros m [<-|[<-|[]]] [H|[]]; discriminate.
Defined.

(** ** [main] of the report *)

Section MainFacts.

Import Py Main.

Context {frame : Type}.
Variable w : world frame.
Variable a : args.

Lemma generate_fails :
  fst (generate w a) = exports a ++ [engine (conn_string w a)]
  /\ forall report_df, snd (generate w a) <> Ok report_df.
Proof.
  unfold generate.
  destruct (database w (conn_string w a)) as [cat|e]; [|split; [reflexivity | discriminate]].
  destruct (get_local_zone cat) as [zone|e| |]; cbn;
    try (split; [reflexivity | discriminate]).
  destruct (gen_report cat zone (resources a)) as [rows|e| |] eqn:Hgen; cbn;
    try (split; [reflexivity | discriminate]).
  exfalso. exact (gen_report_not_done _ _ _ _ Hgen).
Qed.

Lemma export_same : forall environ name arg n,
  n <> name -> export environ name arg n = environ n.
Proof.
  intros environ name arg n Hn. unfold export, setenv.
  destruct arg as [s|]; [|reflexivity]. destruct (truthy s); [|reflexivity].
  apply String.eqb_neq in Hn. now rewrite Hn.
Qed.

Lemma or_else_export : forall environ name arg,
  or_else arg (export environ name arg name) = export environ name arg name.
Proof.
  intros environ name arg. unfold or_else, export, setenv.
  destruct arg as [s|]; [|reflexivity].
  destruct (truthy s); [|reflexivity]. now rewrite String.eqb_refl.
Qed.

Lemma conn_string_environ :
  conn_string w a
  = create_connection_string (environ' w a "PGHOST") (environ' w a "PGPORT")
      (environ' w a "PGUSER") "ICAT".
Proof.
  unfold conn_string. f_equal.
  - unfold environ'. rewrite !export_same by discriminate. apply or_else_export.
  - unfold environ'. rewrite export_same by discriminate. apply or_else_export.
  - unfold environ'. apply or_else_export.
Qed.

Lemma output_effects : forall report_df e,
  In e (fst (output w a report_df)) ->
  (exists html_output, e = wrote_html (html_filename w) html_output /\ html a = true)
  \/ (e = uploaded (html_filename w) (irods_upload_location a) /\ html a = true)
  \/ (e = printed report_df (program_output a) /\ html a = false).
Proof.
  intros report_df e. unfold output. destruct (html a).
  - destruct (format_html_report w report_df _ _) as [html_output|x]; [|intros []].
    destruct (write_html w _ html_output) as [u|x]; [|intros []].
    destruct (truthy (irods_upload_location a)).
    + destruct (upload w _ _) as [u'|x]; cbn; intros [<-|H];
        try (left; eexists; split; reflexivity);
        try destruct H as [<-|[]]; try contradiction.
      right. left. split; reflexivity.
    + cbn. intros [<-|[]]. left. eexists; split; reflexivity.
  - cbn. intros [<-|[]]. right. right. split; reflexivity.
Qed.

End MainFacts.


Lemma handler_not_returned : forall {frame : Type} (w : Main.world frame) (a : Main.args),
  Main.handler w a <> Main.returned.
Proof.
  intros frame w a. unfold Main.handler.
  destruct (Main.program_output a); [destruct (Main.stdout_getvalue w)|]; discriminate.
Qed.

(** X15. [main] writes no JSON report.  When no recent report is loaded
    ([--force-refresh], none found, or one that [read_json] rejects with
    a [ValueError]) the run sets the environment, makes the engine, and
    fails: the connection, [get_local_zone] or [gen_report] raises and
    the handler of [except Exception] is entered (or the run meets SQL
    that is not interpreted here), and nothing is formatted, written,
    uploaded or printed as a report. *)
Theorem main_generates_no_report :
  forall (frame : Type) (w : Main.world frame) (a : Main.args),
  (forall file report_df, ~ In (Main.to_json file report_df) (fst (Main.main w a)))
  /\ (Main.recent_report_df w a = Py.Return None ->
      fst (Main.main w a) = Main.exports a ++ [Main.engine (Main.conn_string w a)]
      /\ (snd (Main.main w a) = Main.handler w a
          \/ snd (Main.main w a) = Main.uninterpreted)
      /\ snd (Main.main w a) <> Main.returned).
Proof.
  intros frame w a. unfold Main.main, Main.body.
  pose proof (generate_fails w a) as [Hfst Hsnd].
  destruct (Main.recent_report_df w a) as [[report_df|]|e].
  - split; [|discriminate]. intros file df Hin.
    assert (He : In (Main.to_json file df) (fst (Main.output w a report_df))).
    { destruct (Main.output w a report_df) as [effects [u|x|]]; exact Hin. }
    apply output_effects in He.
    destruct He as [[h [He _]]|[[He _]|[He _]]]; discriminate.
  - destruct (Main.generate w a) as [effects [report_df|e|]]; cbn in Hfst; subst effects.
    + exfalso. exact (Hsnd report_df eq_refl).
    + cbn. split.
      * intros file df Hin. apply in_app_or in Hin.
        destruct Hin as [Hin|[Hin|[]]]; [|discriminate].
        unfold Main.exports in Hin.
        destruct (Main.host a) as [h|]; destruct (Main.port a) as [p|];
          destruct (Main.user a) as [u|];
          repeat match goal with
                 | H : context [Main.truthy ?s] |- _ => destruct (Main.truthy s)
                 end;
          cbn in Hin; intuition discriminate.
      * intros _. split; [reflexivity|]. split; [now left | apply handler_not_returned].
    + cbn. split.
      * intros file df Hin. apply in_app_or in Hin.
        destruct Hin as [Hin|[Hin|[]]]; [|discriminate].
        unfold Main.exports in Hin.
        destruct (Main.host a) as [h|]; destruct (Main.port a) as [p|];
          destruct (Main.user a) as [u|];
          repeat match goal with
                 | H : context [Main.truthy ?s] |- _ => destruct (Main.truthy s)
                 end;
          cbn in Hin; intuition discriminate.
      * intros _. split; [reflexivity|]. split; [now right | discriminate].
  - split; [intros file df []|discriminate].
Qed.

(** X16. When a recent report is loaded the run does not touch the
    environment or the catalog, and what it does is the same for any
    [-H], [-P], [-U] and any root resources: the report that is shown is
    the one of the file, whatever resources it was made for. *)
Theorem main_shows_recent_report_for_any_resources :
  forall (frame : Type) (w : Main.world frame) (a a' : Main.args) (report_df : frame),
  Main.recent_report_df w a = Py.Return (Some report_df) ->
  Main.presentation a' = Main.presentation a ->
  Main.main w a' = Main.main w a
  /\ fst (Main.main w a) = fst (Main.output w a report_df)
  /\ (forall e, In e (fst (Main.main w a)) ->
        (forall name value, e <> Main.putenv name value)
        /\ (forall conn_string, e <> Main.engine conn_string)).
Proof.
  intros frame w a a' report_df Hrecent Hsame.
  unfold Main.presentation in Hsame.
  injection Hsame as Hhtml Hserver Hbase Hforce Hage Hupload Hdebug.
  assert (Hrecent' : Main.recent_report_df w a' = Py.Return (Some report_df)).
  { unfold Main.recent_report_df in *. now rewrite Hforce, Hage. }
  assert (Hout : Main.output w a' report_df = Main.output w a report_df).
  { unfold Main.output, Main.program_output.
    now rewrite Hhtml, Hserver, Hbase, Hupload, Hdebug. }
  assert (Hhandler : Main.handler w a' = Main.handler w a).
  { unfold Main.handler, Main.program_output. now rewrite Hdebug. }
  assert (Hmain : fst (Main.main w a) = fst (Main.output w a report_df)).
  { unfold Main.main, Main.body. rewrite Hrecent.
    destruct (Main.output w a report_df) as [effects [u|x|]]; reflexivity. }
  split; [|split; [exact Hmain|]].
  - unfold Main.main, Main.body. rewrite Hrecent, Hrecent', Hout, Hhandler. reflexivity.
  - intros e He. rewrite Hmain in He. apply output_effects in He.
    destruct He as [[h [-> _]]|[[-> _]|[-> _]]]; split; discriminate.
Qed.

(** X16 on the scenario: asked for [resB] on another host, the tool
    prints the report it made for [resA]. *)
Lemma main_shows_recent_report_for_any_resources_witness :
  Main.main MainScenario.world MainScenario.resB
  = Main.main MainScenario.world MainScenario.resA
  /\ fst (Main.main MainScenario.world MainScenario.resA)
     = [Main.printed MainScenario.cached Main.buffer].
Proof.
  destruct (main_shows_recent_report_for_any_resources (list Report.t)
              MainScenario.world MainScenario.resA MainScenario.resB
              MainScenario.cached eq_refl eq_refl) as [H1 [H2 _]].
  split; [exact H1 | exact H2].
Defined.

(** What the handler and the redirection come to, once the arguments are
    parsed. *)
Lemma main_debug :
  forall (frame : Type) (w : Main.world frame) (a : Main.args),
  (forall report_df on, In (Main.printed report_df on) (fst (Main.main w a)) ->
     Main.html a = false
     /\ on = (if Main.debug a then Main.terminal else Main.buffer)
     /\ snd (Main.main w a) = Main.returned)
  /\ (forall status, snd (Main.main w a) = Main.exit status ->
        status = 1 /\ (Main.debug a = false \/ Main.stdout_getvalue w = true))
  /\ (forall e, snd (Main.main w a) = Main.uncaught e ->
        e = Py.AttributeError /\ Main.debug a = true /\ Main.stdout_getvalue w = false).
Proof.
  intros frame w a.
  assert (Hexit : forall status, Main.handler w a = Main.exit status ->
            status = 1 /\ (Main.debug a = false \/ Main.stdout_getvalue w = true)).
  { unfold Main.handler, Main.program_output. intros status.
    destruct (Main.debug a); [destruct (Main.stdout_getvalue w)|];
      intro H; try discriminate; injection H as <-; auto. }
  assert (Hunc : forall e, Main.handler w a = Main.uncaught e ->
            e = Py.AttributeError /\ Main.debug a = true /\ Main.stdout_getvalue w = false).
  { unfold Main.handler, Main.program_output. intros e.
    destruct (Main.debug a); [destruct (Main.stdout_getvalue w)|];
      intro H; try discriminate; injection H as <-; auto. }
  assert (Hout : forall df report_df on,
            In (Main.printed report_df on) (fst (Main.output w a df)) ->
            Main.html a = false
            /\ on = (if Main.debug a then Main.terminal else Main.buffer)
            /\ snd (Main.output w a df) = Main.Ok tt).
  { intros df report_df on Hin. pose proof (output_effects w a df _ Hin) as He.
    destruct He as [[h [He _]]|[[He _]|[He Hhtml]]]; try discriminate.
    injection He as -> ->. unfold Main.output. rewrite Hhtml. auto. }
  pose proof (generate_fails w a) as [Hfst Hsnd].
  unfold Main.main, Main.body.
  destruct (Main.recent_report_df w a) as [[df|]|e].
  - destruct (Main.output w a df) as [effects s] eqn:Ho.
    split; [|split].
    + intros report_df on Hin.
      assert (Hin' : In (Main.printed report_df on) (fst (Main.output w a df))).
      { rewrite Ho. destruct s; exact Hin. }
      destruct (Hout df report_df on Hin') as [H1 [H2 H3]].
      rewrite Ho in H3. cbn in H3. subst s. auto.
    + intros status H. destruct s; cbn in H; try discriminate. now apply Hexit.
    + intros e H. destruct s; cbn in H; try discriminate. now apply Hunc.
  - destruct (Main.generate w a) as [effects [df|e|]]; cbn in Hfst; subst effects.
    + exfalso. exact (Hsnd df eq_refl).
    + cbn. split; [|split; [apply Hexit | apply Hunc]].
      intros report_df on Hin. exfalso. apply in_app_or in Hin.
      destruct Hin as [Hin|[Hin|[]]]; [|discriminate].
      unfold Main.exports in Hin.
      destruct (Main.host a) as [h|]; destruct (Main.port a) as [p|];
        destruct (Main.user a) as [u|];
        repeat match goal with
               | H : context [Main.truthy ?s] |- _ => destruct (Main.truthy s)
               end;
        cbn in Hin; intuition discriminate.
    + cbn. split; [|split; discriminate].
      intros report_df on Hin. exfalso. apply in_app_or in Hin.
      destruct Hin as [Hin|[Hin|[]]]; [|discriminate].
      unfold Main.exports in Hin.
      destruct (Main.host a) as [h|]; destruct (Main.port a) as [p|];
        destruct (Main.user a) as [u|];
        repeat match goal with
               | H : context [Main.truthy ?s] |- _ => destruct (Main.truthy s)
               end;
        cbn in Hin; intuition discriminate.
  - cbn. split; [intros ? ? []|split; [apply Hexit | apply Hunc]].
Qed.

(** X17. What [--debug] decides, and how the process ends.  The report
    table is printed inside [redirect_stdout(program_output)]: without
    [--debug] it goes to the buffer, which is printed by the handler of a
    failed run only, and the run that printed it returns, so the table
    never reaches the terminal.  The process exits with status 2 or 0
    out of [parse_args], and with status 1 out of the handler, and in no
    other way; with [--debug], and a [sys.stdout] without [getvalue], a
    failed run does not come to [sys.exit(1)]: the handler raises
    [AttributeError]. *)
Theorem debug_decides_what_is_seen :
  forall (frame : Type) (w : Main.world frame) (p : Main.parse_args),
  (forall report_df on,
     In (Main.printed report_df on) (fst (Main.from_command_line w p)) ->
     exists a, p = Main.parsed a
       /\ Main.html a = false
       /\ on = (if Main.debug a then Main.terminal else Main.buffer)
       /\ snd (Main.from_command_line w p) = Main.returned)
  /\ (forall status, snd (Main.from_command_line w p) = Main.exit status ->
        (p = Main.usage_error /\ status = 2)
        \/ (p = Main.help /\ status = 0)
        \/ (exists a, p = Main.parsed a /\ status = 1
                      /\ (Main.debug a = false \/ Main.stdout_getvalue w = true)))
  /\ (forall e, snd (Main.from_command_line w p) = Main.uncaught e ->
        exists a, p = Main.parsed a /\ e = Py.AttributeError
                  /\ Main.debug a = true /\ Main.stdout_getvalue w = false).
Proof.
  intros frame w [a| |]; cbn [Main.from_command_line fst snd].
  - destruct (main_debug frame w a) as [H1 [H2 H3]]. split; [|split].
    + intros report_df on Hin. exists a. split; [reflexivity|]. now apply (H1 report_df).
    + intros status H. right. right. exists a. split; [reflexivity|]. now apply H2.
    + intros e H. exists a. split; [reflexivity|]. now apply H3.
  - split; [intros ? ? []|]. split; [|discriminate].
    intros status H. injection H as <-. left. split; reflexivity.
  - split; [intros ? ? []|]. split; [|discriminate].
    intros status H. injection H as <-. right. left. split; reflexivity.
Qed.

(** X18. The connection string is made of what [os.environ] holds for
    [PGHOST], [PGPORT] and [PGUSER] once [main] has put its arguments
    there: an argument that is given and not empty, else the variable
    the process was started with, else the text [None]. *)
Theorem connection_string_from_environment :
  forall (frame : Type) (w : Main.world frame) (a : Main.args),
  Main.conn_string w a
  = Main.create_connection_string (Main.environ' w a "PGHOST")
      (Main.environ' w a "PGPORT") (Main.environ' w a "PGUSER") "ICAT"
  /\ Main.environ' w a "PGHOST" = Main.or_else (Main.host a) (Main.environ w "PGHOST")
  /\ Main.environ' w a "PGPORT" = Main.or_else (Main.port a) (Main.environ w "PGPORT")
  /\ Main.environ' w a "PGUSER" = Main.or_else (Main.user a) (Main.environ w "PGUSER")
  /\ ((forall n, Main.environ w n = None) ->
      Main.host a = None -> Main.port a = None -> Main.user a = None ->
      Main.conn_string w a = "postgresql://None@None:None/ICAT").
Proof.
  intros frame w a.
  assert (Hexport : forall environ name arg,
            Main.export environ name arg name = Main.or_else arg (environ name)).
  { intros environ name arg. unfold Main.export, Main.or_else, Main.setenv.
    destruct arg as [s|]; [|reflexivity].
    destruct (Main.truthy s); [now rewrite String.eqb_refl | reflexivity]. }
  split; [apply conn_string_environ|].
  split; [|split; [|split]].
  - unfold Main.environ'. rewrite !export_same by discriminate. apply Hexport.
  - unfold Main.environ'. rewrite export_same by discriminate.
    rewrite Hexport. now rewrite export_same by discriminate.
  - unfold Main.environ'. rewrite Hexport. now rewrite !export_same by discriminate.
  - intros Henv Hh Hp Hu. unfold Main.conn_string, Main.environ'.
    rewrite Hh, Hp, Hu. cbn. now rewrite !Henv.
Qed.

(** ** LDAP and the owners of a row *)

(** X19. [get_ldap_user_info] asks nothing of LDAP for an empty user
    name.  It unbinds the connection in one case only, when the search
    returns and finds nobody: when it returns information (that of the
    first entry found, with the first value of each attribute, the empty
    text for an attribute the entry lacks) and when the search or a
    decoding raises, the connection stays bound. *)
Theorem ldap_unbinds_only_when_nobody_is_found :
  forall (ldap : Ldap.directory) (username ldap_server ldap_base : string),
  (username = EmptyString ->
   Ldap.get_ldap_user_info ldap username ldap_server ldap_base = (None, []))
  /\ (In Ldap.unbind (snd (Ldap.get_ldap_user_info ldap username ldap_server ldap_base))
      <-> username <> EmptyString
          /\ (exists u, Ldap.on_initialize ldap ldap_server = Py.Return u)
          /\ Ldap.on_search ldap ldap_server ldap_base ("(uid=" ++ username ++ ")")%string
             = Py.Return [])
  /\ (forall i,
        fst (Ldap.get_ldap_user_info ldap username ldap_server ldap_base) = Some i ->
        exists dn a rest,
          Ldap.on_search ldap ldap_server ldap_base ("(uid=" ++ username ++ ")")%string
          = Py.Return ((dn, a) :: rest)
          /\ Ldap.first_value a "cn" = Py.Return (Ldap.fullname i)
          /\ Ldap.first_value a "mail" = Py.Return (Ldap.email i)
          /\ Ldap.first_value a "title" = Py.Return (Ldap.title i)
          /\ Ldap.first_value a "departmentNumber" = Py.Return (Ldap.department i)
          /\ Ldap.first_value a "uid" = Py.Return (Ldap.username i)
          /\ Ldap.first_value a "o" = Py.Return (Ldap.organization i)).
Proof.
  intros ldap username ldap_server ldap_base. split; [intros ->; reflexivity|].
  unfold Ldap.get_ldap_user_info.
  destruct username as [|c username]; [split|].
  - cbn. split; [intros [] | intros [H _]; now apply H].
  - intros i H. discriminate.
  - set (filterstr := ("(uid=" ++ String c username ++ ")")%string).
    destruct (Ldap.on_initialize ldap ldap_server) as [u|e].
    + destruct (Ldap.on_search ldap ldap_server ldap_base filterstr) as [[|[dn a] rest]|e].
      * split.
        -- cbn. split; [intros _|intros _; auto 6].
           split; [discriminate|]. split; [now exists u | reflexivity].
        -- intros i H. discriminate.
      * split.
        -- split.
           ++ intro H. exfalso.
              destruct (Ldap.info_of a); cbn in H;
                repeat (destruct H as [H|H]; [discriminate|]); exact H.
           ++ intros [_ [_ H]]. discriminate.
        -- intros i H. exists dn, a, rest. split; [reflexivity|].
           unfold Ldap.info_of in H.
           destruct (Ldap.first_value a "cn"); cbn in H; [|discriminate].
           destruct (Ldap.first_value a "mail"); cbn in H; [|discriminate].
           destruct (Ldap.first_value a "title"); cbn in H; [|discriminate].
           destruct (Ldap.first_value a "departmentNumber"); cbn in H; [|discriminate].
           destruct (Ldap.first_value a "uid"); cbn in H; [|discriminate].
           destruct (Ldap.first_value a "o"); cbn in H; [|discriminate].
           injection H as <-. cbn. repeat split; reflexivity.
      * split.
        -- split.
           ++ intro H. exfalso. cbn in H.
              repeat (destruct H as [H|H]; [discriminate|]); exact H.
           ++ intros [_ [_ H]]. discriminate.
        -- intros i H. discriminate.
    + split.
      * split.
        -- intro H. exfalso. cbn in H. destruct H as [H|[]]. discriminate.
        -- intros [_ [[u H] _]]. discriminate.
      * intros i H. discriminate.
Qed.

Section OwnersFacts.

Import Py Ldap Owners.

Lemma split_nonempty : forall cell, split cell <> [].
Proof.
  intros [|c rest]; cbn; [discriminate|].
  destruct (split rest) eqn:Hs;
    destruct (Ascii.eqb c ";"); try discriminate;
    destruct rest as [|c' rest']; try discriminate;
    destruct (Ascii.eqb c' " "); discriminate.
Qed.

Lemma concat_cons_char : forall c piece pieces,
  String.concat "; " (String c piece :: pieces)
  = String c (String.concat "; " (piece :: pieces)).
Proof. intros c piece [|p pieces]; reflexivity. Qed.

Lemma join_split_bounded : forall n cell,
  (String.length cell <= n)%nat -> String.concat "; " (split cell) = cell.
Proof.
  induction n as [|n IH]; intros cell Hlen.
  - destruct cell; [reflexivity | cbn in Hlen; lia].
  - destruct cell as [|c rest]; [reflexivity|]. cbn in Hlen.
    assert (Hgo : String.concat "; "
                    match split rest with
                    | piece :: pieces => String c piece :: pieces
                    | [] => [String c EmptyString]
                    end = String c rest).
    { pose proof (split_nonempty rest) as Hne.
      destruct (split rest) as [|piece pieces] eqn:Hs; [contradiction|].
      rewrite concat_cons_char, <- Hs, IH by lia. reflexivity. }
    cbn [split]. destruct (Ascii.eqb c ";") eqn:Hc; [|exact Hgo].
    destruct rest as [|c' rest']; [exact Hgo|].
    destruct (Ascii.eqb c' " ") eqn:Hc'; [|exact Hgo].
    apply Ascii.eqb_eq in Hc, Hc'. subst c c'. cbn in Hlen.
    pose proof (split_nonempty rest') as Hne.
    destruct (split rest') as [|piece pieces] eqn:Hs; [contradiction|].
    change (String.concat "; " (EmptyString :: piece :: pieces))
      with (String ";" (String " " (String.concat "; " (piece :: pieces)))).
    rewrite <- Hs, IH by lia. reflexivity.
Qed.

Lemma join_split : forall cell, String.concat "; " (split cell) = cell.
Proof. intro cell. now apply (join_split_bounded (String.length cell)). Qed.

Variable ldap : directory.
Variables ldap_server ldap_base : string.

Lemma fetch_length : forall owners,
  List.length (fst (fetch ldap ldap_server ldap_base owners)) = List.length owners.
Proof.
  induction owners as [|o owners IH]; cbn; [reflexivity|].
  destruct (get_ldap_user_info ldap (strip o) ldap_server ldap_base) as [ui calls].
  destruct (fetch ldap ldap_server ldap_base owners) as [infos more]. cbn in *.
  now rewrite IH.
Qed.

Lemma fetch_without_ldap : forall owners,
  (forall owner, fst (get_ldap_user_info ldap owner ldap_server ldap_base) = None) ->
  fst (fetch ldap ldap_server ldap_base owners) = map (fun o => without_ldap (strip o)) owners.
Proof.
  intros owners Hnone. induction owners as [|o owners IH]; cbn; [reflexivity|].
  specialize (Hnone (strip o)).
  destruct (get_ldap_user_info ldap (strip o) ldap_server ldap_base) as [ui calls].
  destruct (fetch ldap ldap_server ldap_base owners) as [infos more]. cbn in *.
  subst ui. now rewrite IH.
Qed.

End OwnersFacts.

(** X20. The owners of a row.  The cell is cut at each ["; "] and joining
    the pieces with ["; "] gives the cell back; [owner_infos] has one
    entry for each piece, in their order.  When LDAP has nothing on
    anybody, an entry is the piece without the blanks around it, as user
    name and as full name (so the line that no detailed information is
    available is written for it), and the summary line is the cell itself
    if no piece has blanks around it. *)
Theorem owners_of_a_row :
  forall (ldap : Ldap.directory) (ldap_server ldap_base cell : string),
  String.concat "; " (Owners.split cell) = cell
  /\ List.length (fst (Owners.owner_infos ldap ldap_server ldap_base cell))
     = List.length (Owners.split cell)
  /\ (1 <= List.length (Owners.split cell))%nat
  /\ ((forall owner,
         fst (Ldap.get_ldap_user_info ldap owner ldap_server ldap_base) = None) ->
      fst (Owners.owner_infos ldap ldap_server ldap_base cell)
      = map (fun o => Owners.without_ldap (Owners.strip o)) (Owners.split cell)
      /\ Forall (fun i => Owners.no_details i = true)
           (fst (Owners.owner_infos ldap ldap_server ldap_base cell))
      /\ ((forall piece, In piece (Owners.split cell) -> Owners.strip piece = piece) ->
          Owners.summary_line (fst (Owners.owner_infos ldap ldap_server ldap_base cell))
          = cell)).
Proof.
  intros ldap ldap_server ldap_base cell.
  split; [apply join_split|]. split; [apply fetch_length|]. split.
  - pose proof (split_nonempty cell). destruct (Owners.split cell); [contradiction|cbn; lia].
  - intro Hnone. unfold Owners.owner_infos.
    rewrite (fetch_without_ldap ldap ldap_server ldap_base _ Hnone).
    split; [reflexivity|]. split.
    + apply Forall_forall. intros i Hi. apply in_map_iff in Hi.
      destruct Hi as [o [<- _]]. unfold Owners.no_details. cbn. apply String.eqb_refl.
    + intro Hblank. unfold Owners.summary_line. rewrite map_map. cbn.
      rewrite (map_ext_in _ (fun o => o)) by exact Hblank.
      rewrite map_id. apply join_split.
Qed.

(** ** Volumes when no data object is stored twice *)

Lemma filter_same_key : forall {A : Type} (f : A -> Z) (l : list A) (a : A),
  NoDup (map f l) -> In a l -> filter (fun b => f b =? f a) l = [a].
Proof.
  intros A f l a. induction l as [|x l IH]; intros Hnd Hin; [destruct Hin|].
  cbn in Hnd. inversion Hnd as [|? ? Hx Hl]; subst. cbn [filter].
  destruct Hin as [->|Hin].
  - rewrite Z.eqb_refl. f_equal. apply filter_none.
    intros b Hb. apply Z.eqb_neq. intro Heq. apply Hx. rewrite <- Heq. now apply in_map.
  - destruct (f x =? f a) eqn:Hfx.
    + exfalso. apply Z.eqb_eq in Hfx. apply Hx. rewrite Hfx. now apply in_map.
    + now apply IH.
Qed.

(** X21. When no data object has two rows in [proj_data] (no object with
    two copies on the resolved resources), the three volumes of a row
    are the roundings of plain sums over the project's rows: Total of all
    sizes, Public of the sizes of the rows whose collection and object
    are both in [pub_obj], Private of the sizes of the other rows. *)
Theorem volumes_without_replicas :
  forall (cat : catalog) (zone : string) (roots : list string) (pub_obj : list Z)
         (creator_of owner_of : ProjColl.t -> option string)
         (proj_coll : list ProjColl.t) (proj_data : list ProjData.t)
         (pub_proj_data : list PubProjData.t) (row : Report.t),
  temp_tables cat zone roots = Done (proj_coll, proj_data, pub_proj_data) ->
  create_pub_obj_table cat = Done pub_obj ->
  NoDup (map ProjData.data_id proj_data) ->
  In row (Report.final_select creator_of owner_of proj_coll proj_data pub_proj_data) ->
  Report.Total row
  = Sql.round_gib
      (Sql.total (map ProjData.data_size
                    (Volume.of_project (Report.Project row) proj_data)))
  /\ Report.Public row
     = Sql.round_gib
         (Sql.total (map (fun a => if both_public pub_obj a
                                   then ProjData.data_size a else 0)
                       (Volume.of_project (Report.Project row) proj_data)))
  /\ Report.Private row
     = Sql.round_gib
         (Sql.total (map (fun a => if both_public pub_obj a
                                   then 0 else ProjData.data_size a)
                       (Volume.of_project (Report.Project row) proj_data))).
Proof.
  intros cat zone roots pub_obj creator_of owner_of proj_coll proj_data pub_proj_data row
         Htables Hpub Hnd Hrow.
  apply temp_tables_done in Htables.
  destruct Htables as (store_resc & pub_obj' & _ & _ & Hpub' & _ & Hppd).
  rewrite Hpub in Hpub'. injection Hpub' as <-.
  assert (Hsame : forall a b, In a proj_data -> In b proj_data ->
            ProjData.data_id a = ProjData.data_id b ->
            ProjData.coll_id a = ProjData.coll_id b /\ ProjData.proj a = ProjData.proj b).
  { intros x y Hx Hy Hid.
    now rewrite (NoDup_map_inj ProjData.data_id proj_data Hnd x y Hx Hy Hid). }
  assert (Htot : forall a, In a proj_data ->
            Volume.tot_of_row pub_proj_data a = ProjData.data_size a).
  { intros x Hx. unfold Volume.tot_of_row. rewrite Hppd.
    destruct (both_public pub_obj x) eqn:Hp.
    - rewrite (partners_public proj_data pub_obj Hsame x Hx Hp).
      rewrite (filter_same_key ProjData.data_id proj_data x Hnd Hx).
      cbn [map List.length]. change (Z.of_nat 1) with 1. apply Z.mul_1_l.
    - now rewrite (partners_private proj_data pub_obj Hsame x Hx Hp). }
  assert (Hpv : forall a, In a proj_data ->
            Volume.pub_of_row pub_proj_data a
            = if both_public pub_obj a then ProjData.data_size a else 0).
  { intros x Hx. rewrite Hppd. destruct (both_public pub_obj x) eqn:Hp.
    - unfold Volume.pub_of_row.
      rewrite (partners_public proj_data pub_obj Hsame x Hx Hp).
      rewrite (filter_same_key ProjData.data_id proj_data x Hnd Hx).
      cbn [map Sql.total fold_right PubProjData.data_size]. apply Z.add_0_r.
    - now apply pub_of_row_private. }
  apply final_select_rows in Hrow. destruct Hrow as [_ Hrow].
  set (g := Report.Project row) in *.
  assert (Hin : forall a, In a (Volume.of_project g proj_data) -> In a proj_data).
  { intros x Hx. unfold Volume.of_project in Hx. now apply filter_In in Hx. }
  assert (HT : Report.tot_vol
                 (Report.t_of creator_of owner_of proj_coll proj_data pub_proj_data g)
               = Sql.total (map ProjData.data_size (Volume.of_project g proj_data))).
  { rewrite tot_vol_formula. apply total_map_ext. intros x Hx. apply Htot, Hin, Hx. }
  assert (HP : Report.pub_vol
                 (Report.t_of creator_of owner_of proj_coll proj_data pub_proj_data g)
               = Sql.total (map (fun a => if both_public pub_obj a
                                          then ProjData.data_size a else 0)
                              (Volume.of_project g proj_data))).
  { rewrite pub_vol_formula. apply total_map_ext. intros x Hx. apply Hpv, Hin, Hx. }
  rewrite Hrow. cbn [Report.Total Report.Public Report.Private Report.row_of].
  rewrite HT, HP. split; [reflexivity|]. split; [reflexivity|]. f_equal.
  rewrite <- total_map_sub. apply total_map_ext.
  intros x _. destruct (both_public pub_obj x); lia.
Qed.

(** X21 on the two data objects of 536871 bytes, one of them public. *)
Lemma volumes_without_replicas_witness :
  Report.Total (Report.mk 1 1 1 "proj1" None None)
  = Sql.round_gib
      (Sql.total (map ProjData.data_size
                    (Volume.of_project "proj1"
                       [ProjData.mk "proj1" 10 100 536871;
                        ProjData.mk "proj1" 10 101 536871])))
  /\ Report.Public (Report.mk 1 1 1 "proj1" None None)
     = Sql.round_gib
         (Sql.total (map (fun a => if both_public [10; 100] a
                                   then ProjData.data_size a else 0)
                       (Volume.of_project "proj1"
                          [ProjData.mk "proj1" 10 100 536871;
                           ProjData.mk "proj1" 10 101 536871])))
  /\ Report.Private (Report.mk 1 1 1 "proj1" None None)
     = Sql.round_gib
         (Sql.total (map (fun a => if both_public [10; 100] a
                                   then 0 else ProjData.data_size a)
                       (Volume.of_project "proj1"
                          [ProjData.mk "proj1" 10 100 536871;
                           ProjData.mk "proj1" 10 101 536871]))).
Proof.
  apply (volumes_without_replicas Scenario.cat_halves "zoneX" ["resA"] [10; 100]
           Scenario.no_column Scenario.no_column
           [ProjColl.mk "proj1" 10]
           [ProjData.mk "proj1" 10 100 536871; ProjData.mk "proj1" 10 101 536871]
           [PubProjData.mk "proj1" 100 536871]
           (Report.mk 1 1 1 "proj1" None None)).
  - reflexivity.
  - reflexivity.
  - repeat constructor; cbn; intuition discriminate.
  - left. reflexivity.
Defined.

(** X22. [--max-report-age] beyond what [timedelta] takes.  With more
    than 999999999 days either way the function still returns [None] on
    an empty listing, and raises [OverflowError] once there is a file
    and every file name gives a date. *)
Theorem find_recent_age_out_of_range :
  forall (strptime : string -> string -> option Z) (json_files : list string)
         (now max_age_days : Z),
  999999999 < Z.abs max_age_days ->
  Recent.find_recent_json_report strptime [] now max_age_days = Py.Return None
  /\ (json_files <> [] ->
      (forall f, In f json_files ->
         exists t, Recent.extract_date strptime f = Py.Return t) ->
      Recent.find_recent_json_report strptime json_files now max_age_days
      = Py.Raise Py.OverflowError).
Proof.
  intros strptime files now max_age Hmax. split; [reflexivity|].
  intros Hne Hall.
  destruct (for_each_keyed_all strptime files Hall) as [ks Hks].
  destruct (find_recent_result strptime files now max_age ks Hne Hks)
    as (l1 & f & t & l2 & _ & _ & _ & _ & Hres).
  rewrite Hres. unfold Recent.timedelta_days.
  apply Z.leb_gt in Hmax. now rewrite Hmax.
Qed.

(** X22 on the reports of the scenario. *)
Lemma find_recent_age_out_of_range_witness :
  Recent.find_recent_json_report RecentScenario.strptime
    [RecentScenario.first_report; RecentScenario.second_report]
    RecentScenario.now 1000000000
  = Py.Raise Py.OverflowError.
Proof.
  apply (proj2 (find_recent_age_out_of_range RecentScenario.strptime
                  [RecentScenario.first_report; RecentScenario.second_report]
                  RecentScenario.now 1000000000 ltac:(cbn; lia))).
  - discriminate.
  - intros f [<-|[<-|[]]]; eexists; reflexivity.
Defined.

(** ** The scenarios of the runs *)

(** X15 on the scenario with [--force-refresh]: the engine is made for
    the host of the environment, [gen_report] raises, and the run ends in
    [sys.exit(1)]. *)
Lemma main_generates_no_report_witness :
  Main.main MainScenario.world RunScenario.fresh
  = ([Main.engine "postgresql://None@icat.example.org:None/ICAT"], Main.exit 1)
  /\ (forall file report_df,
        ~ In (Main.to_json file report_df)
             (fst (Main.main MainScenario.world RunScenario.fresh))).
Proof.
  split; [reflexivity|].
  exact (proj1 (main_generates_no_report (list Report.t)
                  MainScenario.world RunScenario.fresh)).
Defined.

(** X17 on the scenario: the report of the file is printed to the
    buffer; the failed run with [--debug] ends in [AttributeError], and
    does not exit. *)
Lemma debug_decides_what_is_seen_witness :
  Main.from_command_line MainScenario.world (Main.parsed MainScenario.resA)
  = ([Main.printed MainScenario.cached Main.buffer], Main.returned)
  /\ snd (Main.from_command_line MainScenario.world (Main.parsed RunScenario.fresh_debug))
     = Main.uncaught Py.AttributeError
  /\ (forall status,
        snd (Main.from_command_line MainScenario.world
               (Main.parsed RunScenario.fresh_debug)) = Main.exit status ->
        (Main.parsed RunScenario.fresh_debug = Main.usage_error /\ status = 2)
        \/ (Main.parsed RunScenario.fresh_debug = Main.help /\ status = 0)
        \/ (exists a, Main.parsed RunScenario.fresh_debug = Main.parsed a /\ status = 1
                      /\ (Main.debug a = false
                          \/ Main.stdout_getvalue MainScenario.world = true))).
Proof.
  split; [reflexivity|]. split; [reflexivity|].
  exact (proj1 (proj2 (debug_decides_what_is_seen (list Report.t)
                         MainScenario.world (Main.parsed RunScenario.fresh_debug)))).
Defined.

(** X19 on the directory of the scenario: [alice] is found and the
    connection stays bound; [bob] is not, and it is unbound. *)
Lemma ldap_unbinds_only_when_nobody_is_found_witness :
  Ldap.get_ldap_user_info RunScenario.directory "alice" "ldap://ldap.example.org"
    "dc=example,dc=org"
  = (Some (Ldap.mk_info "Alice Liddell" "alice@example.org" "" "" "alice" ""),
     [Ldap.initialize "ldap://ldap.example.org"; Ldap.set_option;
      Ldap.search_s "dc=example,dc=org" "(uid=alice)"])
  /\ In Ldap.unbind
       (snd (Ldap.get_ldap_user_info RunScenario.directory "bob"
               "ldap://ldap.example.org" "dc=example,dc=org")).
Proof.
  split; [reflexivity|].
  apply (proj1 (proj2 (ldap_unbinds_only_when_nobody_is_found RunScenario.directory
                         "bob" "ldap://ldap.example.org" "dc=example,dc=org"))).
  split; [discriminate|]. split; [now exists tt | reflexivity].
Defined.

(** X20 on a cell with two owners, one of them in the directory, and with
    the directory down. *)
Lemma owners_of_a_row_witness :
  Owners.summary_line
    (fst (Owners.owner_infos RunScenario.directory "ldap://ldap.example.org"
            "dc=example,dc=org" "alice; bob"))
  = "Alice Liddell; bob"
  /\ Owners.summary_line
       (fst (Owners.owner_infos RunScenario.down "ldap://ldap.example.org"
               "dc=example,dc=org" "alice; bob"))
     = "alice; bob".
Proof.
  split; [reflexivity|].
  apply (proj2 (proj2 (proj2 (owners_of_a_row RunScenario.down "ldap://ldap.example.org"
                                "dc=example,dc=org" "alice; bob")))).
  - intro owner. destruct owner; reflexivity.
  - intros piece [<-|[<-|[]]]; reflexivity.
Defined.

(** X4 on the trash of the scenario: without an argument no session is
    opened, with the zone one is, on the default file. *)
Lemma main_walks_zone_trash_witness :
  Walk.main TrashScenario.clock (fun name => None) (fun file => file)
    (fun env => TrashScenario.sess) ["ensure_trash_ts.py"] 0%nat
  = (([], None), 0%nat)
  /\ fst (fst (Walk.main TrashScenario.clock (fun name => None) (fun file => file)
                 (fun env => TrashScenario.sess) ["ensure_trash_ts.py"; "zoneX"] 0%nat))
     = ["~/.irods/irods_environment.json"]
  /\ snd (fst (Walk.main TrashScenario.clock (fun name => None) (fun file => file)
                 (fun env => TrashScenario.sess) ["ensure_trash_ts.py"; "zoneX"] 0%nat))
     = Some TrashScenario.trash_after.
Proof.
  destruct (main_walks_zone_trash TrashScenario.clock (fun name => None)
              (fun file => file) (fun env => TrashScenario.sess)
              ["ensure_trash_ts.py"] 0%nat) as [H1 _].
  destruct (main_walks_zone_trash TrashScenario.clock (fun name => None)
              (fun file => file) (fun env => TrashScenario.sess)
              ["ensure_trash_ts.py"; "zoneX"] 0%nat) as [_ [H2 _]].
  split; [apply H1; cbn; lia|].
  destruct (H2 "zoneX" eq_refl) as [Ho [Ht _]].
  split; [exact Ho | exact Ht].
Defined.

(** ** The bytes behind a row *)

(** X23. Let the collection identifiers of the catalog be unique, the
    copies of a data object lie in one collection, and no size be
    negative.  Then for every row the final SELECT computes, the byte
    sums [tot_vol] and [pub_vol] of its project, of which Total and
    Public are the query's roundings, have [0 <= pub_vol <= tot_vol];
    their difference is the bytes of the project's rows of [proj_data]
    that do not pass the public filter, also when the copies of an
    object multiply both sums; and Private is the query's rounding of
    those bytes. *)
Theorem private_is_the_bytes_not_public :
  forall (cat : catalog) (zone : string) (roots : list string)
         (creator_of owner_of : ProjColl.t -> option string)
         (proj_coll : list ProjColl.t) (proj_data : list ProjData.t)
         (pub_proj_data : list PubProjData.t) (pub_obj : list Z) (row : Report.t),
  temp_tables cat zone roots = Done (proj_coll, proj_data, pub_proj_data) ->
  create_pub_obj_table cat = Done pub_obj ->
  NoDup (map Coll.coll_id (r_coll_main cat)) ->
  (forall d1 d2, In d1 (r_data_main cat) -> In d2 (r_data_main cat) ->
                 Data.data_id d1 = Data.data_id d2 -> Data.coll_id d1 = Data.coll_id d2) ->
  (forall d, In d (r_data_main cat) -> 0 <= Data.data_size d) ->
  In row (Report.final_select creator_of owner_of proj_coll proj_data pub_proj_data) ->
  let t := Report.t_of creator_of owner_of proj_coll proj_data pub_proj_data
             (Report.Project row) in
  Report.Total row = Sql.round_gib (Report.tot_vol t)
  /\ Report.Public row = Sql.round_gib (Report.pub_vol t)
  /\ Report.Private row
     = Sql.round_gib (Volume.private_bytes pub_obj proj_data (Report.Project row))
  /\ 0 <= Report.pub_vol t <= Report.tot_vol t
  /\ Report.tot_vol t - Report.pub_vol t
     = Volume.private_bytes pub_obj proj_data (Report.Project row).
Proof.
  intros cat zone roots creator_of owner_of proj_coll proj_data pub_proj_data pub_obj row
         Htables Hpub Hcolls Hdata Hsize Hrow t.
  apply temp_tables_done in Htables
    as [store_resc [pub_obj' [_ [Hpc [Hpub' [Hpd Hppd]]]]]].
  rewrite Hpub in Hpub'. inversion Hpub'; subst pub_obj'; clear Hpub'.
  assert (Hsame : forall a b, In a proj_data -> In b proj_data ->
            ProjData.data_id a = ProjData.data_id b ->
            ProjData.coll_id a = ProjData.coll_id b /\ ProjData.proj a = ProjData.proj b).
  { rewrite Hpd. apply proj_data_same_object; [|assumption].
    now apply (proj_coll_unique cat zone). }
  assert (Hsizes : forall a, In a proj_data -> 0 <= ProjData.data_size a).
  { rewrite Hpd. now apply proj_data_sizes. }
  apply final_select_rows in Hrow as [_ Hrow]. fold t in Hrow.
  set (g := Report.Project row) in *.
  pose proof (volume_difference proj_data pub_obj Hsame g) as Hdiff.
  pose proof (private_bytes_nonneg proj_data pub_obj Hsizes g) as Hpriv.
  pose proof (pub_vol_nonneg proj_data pub_obj Hsizes g) as Hpubv.
  rewrite <- Hppd in Hdiff, Hpubv.
  assert (HT : Report.tot_vol t
               = Sql.total (map (Volume.tot_of_row pub_proj_data)
                              (Volume.of_project g proj_data)))
    by apply tot_vol_formula.
  assert (HP : Report.pub_vol t
               = Sql.total (map (Volume.pub_of_row pub_proj_data)
                              (Volume.of_project g proj_data)))
    by apply pub_vol_formula.
  rewrite <- HT, <- HP in Hdiff. rewrite <- HP in Hpubv.
  rewrite Hrow at 1 2 3. cbn [Report.Total Report.Public Report.Private Report.row_of].
  rewrite Hdiff. repeat split; lia.
Qed.

(** X23 on the object with two copies: both sums are four times its
    size, and no byte is private. *)
Lemma private_is_the_bytes_not_public_witness :
  Report.Private (Report.mk 4000 4000 0 "proj1" None None)
  = Sql.round_gib
      (Volume.private_bytes [10; 100]
         [ProjData.mk "proj1" 10 100 (2 ^ 30); ProjData.mk "proj1" 10 100 (2 ^ 30)]
         "proj1")
  /\ Report.tot_vol
       (Report.t_of Scenario.no_column Scenario.no_column [ProjColl.mk "proj1" 10]
          [ProjData.mk "proj1" 10 100 (2 ^ 30); ProjData.mk "proj1" 10 100 (2 ^ 30)]
          [PubProjData.mk "proj1" 100 (2 ^ 30); PubProjData.mk "proj1" 100 (2 ^ 30)]
          "proj1")
     - Report.pub_vol
         (Report.t_of Scenario.no_column Scenario.no_column [ProjColl.mk "proj1" 10]
            [ProjData.mk "proj1" 10 100 (2 ^ 30); ProjData.mk "proj1" 10 100 (2 ^ 30)]
            [PubProjData.mk "proj1" 100 (2 ^ 30); PubProjData.mk "proj1" 100 (2 ^ 30)]
            "proj1")
     = Volume.private_bytes [10; 100]
         [ProjData.mk "proj1" 10 100 (2 ^ 30); ProjData.mk "proj1" 10 100 (2 ^ 30)]
         "proj1".
Proof.
  assert (Hcolls : NoDup (map Coll.coll_id (r_coll_main Scenario.cat_replicated)))
    by (repeat constructor; simpl; tauto).
  assert (Hdata : forall d1 d2,
            In d1 (r_data_main Scenario.cat_replicated) ->
            In d2 (r_data_main Scenario.cat_replicated) ->
            Data.data_id d1 = Data.data_id d2 -> Data.coll_id d1 = Data.coll_id d2).
  { intros d1 d2 [<-|[<-|[]]] [<-|[<-|[]]] _; reflexivity. }
  assert (Hsize : forall d, In d (r_data_main Scenario.cat_replicated) ->
                            0 <= Data.data_size d).
  { intros d [<-|[<-|[]]]; simpl; lia. }
  destruct (private_is_the_bytes_not_public Scenario.cat_replicated "zoneX" ["resA"]
              Scenario.no_column Scenario.no_column _ _ _ [10; 100]
              (Report.mk 4000 4000 0 "proj1" None None)
              eq_refl eq_refl Hcolls Hdata Hsize (or_introl eq_refl))
    as [_ [_ [HV [_ Hdiff]]]].
  split; [exact HV | exact Hdiff].
Defined.
